(** * VnsGaUtil: section-visibility and return-visit tracking

    A shallow embedding of the class [VnsGaUtil] of [src/internal_ga.js] (the
    last of the three generations of the class kept in that file: the one
    with the rule registry, the per-rule timers and [trackUserReturn]), and
    the properties its specification states about it.

    How the program is modelled.
    - The private fields of the instance and the part of the page the class
      reads and writes form one record, [World]; every method and every
      callback is a function on worlds, named after its source.
    - The browser is the environment.  An activation of the event loop
      carries what the browser provides while it runs: the time, the UUIDs
      drawn, the bounding boxes, the intersection ratios.  [Host] holds the
      functions the browser decides: which selectors parse and what they
      match, the conversion of a string to a number, the host name, the
      domains and the paths of cookies that match the page.
    - [Date.now()] returns one value during one activation.
    - A timeout fires at some later activation; its delay is recorded and
      not enforced, so the runs of the model include those of the browser.
    - A selector that does not parse makes [querySelectorAll] and [matches]
      throw; the exception ends the callback or the call it occurs in, and
      the state reached by then stays.
    - [document.cookie] shows the cookies that have not expired and whose
      domain and path match the page; an assignment to it is refused for a
      foreign domain and removes the cookie when the expiry has passed.
    - The objects the maps hold are shared and mutated in place in the
      source; the model reads and writes them through their key, which is
      the same thing as long as an object sits in its map, and it does
      wherever the source mutates it.

    Layout: the model first (numbers, maps, records, methods, event loop,
    observations, scenarios, predicates), then the lemmas and theorems. *)

From Stdlib Require Import ZArith QArith Qround Lia Lqa Ascii String.
From stdpp Require Import base option list gmap strings pretty.

Local Open Scope string_scope.

(** ** JavaScript numbers

    A JavaScript [number] is modelled by an exact rational or one of the three
    special values of IEEE 754.  What is kept: division by zero, the
    propagation of [NaN], the arithmetic and the ordering of the infinities.
    What is left out: the rounding of finite results to 53 bits, and the sign
    of zero (every zero behaves as [+0], which is the only zero a bounding
    box height or [Math.max(0, x)] produces). *)

Inductive number : Type :=
| Fin (q : Q)
| Infinity
| NegInfinity
| NaN.

Definition Qltb (a b : Q) : bool := negb (Qle_bool b a).
Definition Qis0 (a : Q) : bool := Qeq_bool a 0.

Definition ofZ (z : Z) : number := Fin (inject_Z z).

Definition isNaN (a : number) : bool :=
  match a with NaN => true | _ => false end.

(** [-a] *)
Definition num_neg (a : number) : number :=
  match a with
  | Fin q => Fin (- q)
  | Infinity => NegInfinity
  | NegInfinity => Infinity
  | NaN => NaN
  end.

(** [a + b] *)
Definition num_add (a b : number) : number :=
  match a, b with
  | NaN, _ | _, NaN => NaN
  | Fin x, Fin y => Fin (x + y)
  | Infinity, NegInfinity | NegInfinity, Infinity => NaN
  | Infinity, _ | _, Infinity => Infinity
  | NegInfinity, _ | _, NegInfinity => NegInfinity
  end.

(** [a - b] *)
Definition num_sub (a b : number) : number := num_add a (num_neg b).

(** The infinity with the sign of [s * q], [NaN] when [q] is zero. *)
Definition inf_times (positive : bool) (q : Q) : number :=
  if Qis0 q then NaN
  else if Bool.eqb positive (Qltb 0 q) then Infinity else NegInfinity.

(** [a * b] *)
Definition num_mul (a b : number) : number :=
  match a, b with
  | NaN, _ | _, NaN => NaN
  | Fin x, Fin y => Fin (x * y)
  | Infinity, Fin y => inf_times true y
  | NegInfinity, Fin y => inf_times false y
  | Fin x, Infinity => inf_times true x
  | Fin x, NegInfinity => inf_times false x
  | Infinity, Infinity | NegInfinity, NegInfinity => Infinity
  | Infinity, NegInfinity | NegInfinity, Infinity => NegInfinity
  end.

(** [a / b]: a finite number divided by zero is an infinity, or [NaN] when
    the dividend is zero too. *)
Definition num_div (a b : number) : number :=
  match a, b with
  | NaN, _ | _, NaN => NaN
  | Fin x, Fin y =>
      if Qis0 y then
        if Qis0 x then NaN else if Qltb 0 x then Infinity else NegInfinity
      else Fin (x / y)
  | Fin _, Infinity | Fin _, NegInfinity => Fin 0
  | Infinity, Fin y => if Qltb y 0 then NegInfinity else Infinity
  | NegInfinity, Fin y => if Qltb y 0 then Infinity else NegInfinity
  | _, _ => NaN
  end.

(** [a < b]; false as soon as one side is [NaN]. *)
Definition num_ltb (a b : number) : bool :=
  match a, b with
  | NaN, _ | _, NaN => false
  | Fin x, Fin y => Qltb x y
  | _, NegInfinity => false
  | NegInfinity, _ => true
  | Infinity, _ => false
  | _, Infinity => true
  end.

(** [a > b] *)
Definition num_gtb (a b : number) : bool := num_ltb b a.

(** [a <= b] as a proposition; it fails when one side is [NaN]. *)
Definition num_le (a b : number) : Prop :=
  match a, b with
  | NaN, _ | _, NaN => False
  | Fin x, Fin y => (x <= y)%Q
  | NegInfinity, _ => True
  | _, Infinity => True
  | _, _ => False
  end.

(** [Math.min(a, b)] and [Math.max(a, b)]: [NaN] if an argument is. *)
Definition Math_min (a b : number) : number :=
  if isNaN a || isNaN b then NaN else if num_ltb b a then b else a.

Definition Math_max (a b : number) : number :=
  if isNaN a || isNaN b then NaN else if num_ltb a b then b else a.

(** [Math.round(a)]: the nearest integer, a tie goes up. *)
Definition Math_round (a : number) : number :=
  match a with
  | Fin q => ofZ (Qfloor (q + (1 # 2))%Q)
  | _ => a
  end.

(** [+a.toFixed(2)]: the nearest multiple of 1/100, a tie goes away from
    zero; ["Infinity"] and ["NaN"] are printed and read back as themselves. *)
Definition round_half_up_100 (q : Q) : Q :=
  (inject_Z (Qfloor (q * 100 + (1 # 2))) / 100)%Q.

Definition toFixed2 (a : number) : number :=
  match a with
  | Fin q =>
      if Qltb q 0 then Fin (- round_half_up_100 (- q))
      else Fin (round_half_up_100 q)
  | _ => a
  end.

(** Truthiness of a number: [0] and [NaN] are falsy. *)
Definition truthy (a : number) : bool :=
  match a with
  | Fin q => negb (Qis0 q)
  | NaN => false
  | _ => true
  end.

(** [v || d] for an optional numeric field: [undefined], [0] and [NaN] give
    the default. *)
Definition num_or (v : option number) (d : number) : number :=
  match v with
  | Some a => if truthy a then a else d
  | None => d
  end.

(** [v || d] for an optional string field: [undefined] and the empty string
    give the default. *)
Definition str_or (v : option string) (d : string) : string :=
  match v with
  | Some EmptyString | None => d
  | Some s => s
  end.

(** A string used as a condition: the empty string is falsy. *)
Definition str_truthy (s : string) : bool :=
  match s with EmptyString => false | _ => true end.

(** ** JavaScript maps

    A [Map] with string keys keeps its entries in insertion order: [set] on a
    key that is present replaces the value where it stands, [set] on a new
    key appends, and [keys()] and [values()] iterate in that order. *)

Abbreviation JsMap V := (list (string * V)).

Fixpoint jm_get {V : Type} (k : string) (m : JsMap V) : option V :=
  match m with
  | [] => None
  | (k', v) :: m' => if String.eqb k k' then Some v else jm_get k m'
  end.

Fixpoint jm_set {V : Type} (k : string) (v : V) (m : JsMap V) : JsMap V :=
  match m with
  | [] => [(k, v)]
  | (k', v') :: m' =>
      if String.eqb k k' then (k', v) :: m' else (k', v') :: jm_set k v m'
  end.

(** [delete]: a [Map] holds a key once, so dropping every entry of the key
    is dropping its entry. *)
Definition jm_delete {V : Type} (k : string) (m : JsMap V) : JsMap V :=
  List.filter (fun e => negb (String.eqb k (fst e))) m.

Definition jm_keys {V : Type} (m : JsMap V) : list string := map fst m.
Definition jm_values {V : Type} (m : JsMap V) : list V := map snd m.

(** [ids.includes(x)] on an array of strings. *)
Definition includes (x : string) (ids : list string) : bool :=
  existsb (String.eqb x) ids.

(** [s.split(sep)] for a string separator: [cur] is the piece being read,
    [skip] the characters of a separator just matched that remain to be
    dropped. *)
Fixpoint split_go (sep : string) (skip : nat) (cur s : string) : list string :=
  match s with
  | EmptyString => [cur]
  | String c s' =>
      match skip with
      | S k => split_go sep k cur s'
      | O =>
          if String.prefix sep s
          then cur :: split_go sep (String.length sep - 1) EmptyString s'
          else split_go sep 0 (cur ++ String c EmptyString) s'
      end
  end.

Definition js_split (sep s : string) : list string :=
  match sep with
  | EmptyString =>
      map (fun c => String c EmptyString) (String.list_ascii_of_string s)
  | _ => split_go sep 0 EmptyString s
  end.

(** ** Data model *)

(** [SectionVisibilitySettings]: a registered rule. *)
Record SectionVisibilitySettings : Type := mkSettings {
  rule_id : string;
  rule_section : string;
  rule_selector : string;
  rule_scrollDepth : number;
  rule_viewTime : number;
  rule_customEvent : string
}.

(** [Partial<SectionVisibilitySettings>] as [addSectionVisibility] reads it:
    every field may be missing.  ([id] and [section] may be given too and are
    never read.) *)
Record PartialSettings : Type := mkPartial {
  p_selector : option string;
  p_scrollDepth : option number;
  p_viewTime : option number;
  p_customEvent : option string
}.

(** [SectionTrackedData]: one episode.  Elements are named by a number. *)
Record SectionTrackedData : Type := mkTracked {
  start : Z;
  duration : Z;
  minScrollDepth : number;
  maxScrollDepth : number;
  element : nat;
  tracked_selector : string;
  tracked_id : string;
  _sentEventIds : option (list string)
}.

(** What is pushed on [window.dataLayer]: the payload of a rule event or of
    the [section_view] summary, and the [return_visit] payload. *)
Inductive Payload : Type :=
| ViewPayload (event section : string) (view_time scroll_depth : number)
| ReturnVisitPayload (duration : number).

Definition event_name (p : Payload) : string :=
  match p with
  | ViewPayload e _ _ _ => e
  | ReturnVisitPayload _ => "return_visit"
  end.

(** The part of [getBoundingClientRect()] the code reads. *)
Record DOMRect : Type := mkRect {
  rect_top : Q;
  rect_bottom : Q;
  rect_height : Q
}.

(** [Partial<CookieOptions>], the fields [#_writeCookie] reads. *)
Record CookieOptions : Type := mkCookieOptions {
  opt_expires : option Z;
  opt_path : option string;
  opt_domain : option string;
  opt_sameSite : option string
}.

(** A cookie of the jar, with the attributes [#_writeCookie] serialises. *)
Record Cookie : Type := mkCookie {
  cookie_name : string;
  cookie_value : string;
  cookie_expires : Z;
  cookie_path : string;
  cookie_domain : string;
  cookie_sameSite : string
}.

(** A [setTimeout] armed by the intersection callback: the closure keeps the
    episode id and the rule object, the second argument is the delay. *)
Record Timer : Type := mkTimer {
  timer_episode : string;
  timer_setting : SectionVisibilitySettings;
  timer_delay : number
}.

(** The two functions the class registers on [beforeunload]. *)
Inductive UnloadHandler : Type :=
| sendLastSection
| handleCloseTab.

(** What the browser decides: which selectors parse and which elements
    match them (behind [matches] and [querySelectorAll]), the conversion of a
    string to a number (unary [+]), [window.location.hostname], and, for the
    cookies, whether the host of the page matches a [Domain] attribute and
    the path of the page a [Path] attribute. *)
Record Host : Type := mkHost {
  parses : string -> bool;
  matches : nat -> string -> bool;
  Number : string -> number;
  hostname : string;
  domain_matches : string -> bool;
  path_matches : string -> bool
}.

(** The instance fields of [VnsGaUtil] and the part of the page it reads and
    writes. *)
Record World : Type := mkWorld {
  (** [#trackingId] *)
  trackingId : string;
  (** [#sectionMap]: episode id to tracked data *)
  sectionMap : JsMap SectionTrackedData;
  (** [#sectionVisibility]: rule id to rule *)
  sectionVisibility : JsMap SectionVisibilitySettings;
  (** [#selectorVisibilityMap]: selector to its rules *)
  selectorVisibilityMap : JsMap (list SectionVisibilitySettings);
  (** [#isVisibilityTrackingInitialized] *)
  isVisibilityTrackingInitialized : bool;
  (** intersection observers created so far; [#sectionObserver] is the last *)
  intersectionObservers : nat;
  (** observation targets of [#sectionObserver] *)
  observed : gset nat;
  (** mutation observers observing [document.body] *)
  mutationObservers : nat;
  (** [onScroll] listeners on [scroll] *)
  scrollListeners : nat;
  (** [onScroll] listeners on [resize] *)
  resizeListeners : nat;
  (** [ticking]: an animation frame is requested and has not run *)
  ticking : bool;
  (** listeners on [beforeunload], in registration order *)
  beforeunload : list UnloadHandler;
  (** timeouts armed and not yet fired *)
  timers : list Timer;
  (** attribute [data-internal-view-selector] of each element *)
  viewSelector : gmap nat string;
  (** attribute [data-internal-view-id] of each element *)
  viewId : gmap nat string;
  (** [window.dataLayer]; [None] when it is not an array *)
  dataLayer : option (list Payload);
  (** the cookie jar behind [document.cookie] *)
  cookies : list Cookie
}.

(** The field updates: [with_f v w] is [w] with [v] in field [f]. *)

Definition with_sectionMap (v : JsMap SectionTrackedData)
    (w : World) : World :=
  mkWorld (trackingId w) v (sectionVisibility w) (selectorVisibilityMap w)
    (isVisibilityTrackingInitialized w) (intersectionObservers w) (observed
    w) (mutationObservers w) (scrollListeners w) (resizeListeners w)
    (ticking w) (beforeunload w) (timers w) (viewSelector w) (viewId w)
    (dataLayer w) (cookies w).

Definition with_sectionVisibility (v : JsMap SectionVisibilitySettings)
    (w : World) : World :=
  mkWorld (trackingId w) (sectionMap w) v (selectorVisibilityMap w)
    (isVisibilityTrackingInitialized w) (intersectionObservers w) (observed
    w) (mutationObservers w) (scrollListeners w) (resizeListeners w)
    (ticking w) (beforeunload w) (timers w) (viewSelector w) (viewId w)
    (dataLayer w) (cookies w).

Definition with_selectorVisibilityMap
    (v : JsMap (list SectionVisibilitySettings)) (w : World) : World :=
  mkWorld (trackingId w) (sectionMap w) (sectionVisibility w) v
    (isVisibilityTrackingInitialized w) (intersectionObservers w) (observed
    w) (mutationObservers w) (scrollListeners w) (resizeListeners w)
    (ticking w) (beforeunload w) (timers w) (viewSelector w) (viewId w)
    (dataLayer w) (cookies w).

Definition with_isVisibilityTrackingInitialized (v : bool)
    (w : World) : World :=
  mkWorld (trackingId w) (sectionMap w) (sectionVisibility w)
    (selectorVisibilityMap w) v (intersectionObservers w) (observed w)
    (mutationObservers w) (scrollListeners w) (resizeListeners w) (ticking
    w) (beforeunload w) (timers w) (viewSelector w) (viewId w) (dataLayer w)
    (cookies w).

Definition with_intersectionObservers (v : nat) (w : World) : World :=
  mkWorld (trackingId w) (sectionMap w) (sectionVisibility w)
    (selectorVisibilityMap w) (isVisibilityTrackingInitialized w) v
    (observed w) (mutationObservers w) (scrollListeners w) (resizeListeners
    w) (ticking w) (beforeunload w) (timers w) (viewSelector w) (viewId w)
    (dataLayer w) (cookies w).

Definition with_observed (v : gset nat) (w : World) : World :=
  mkWorld (trackingId w) (sectionMap w) (sectionVisibility w)
    (selectorVisibilityMap w) (isVisibilityTrackingInitialized w)
    (intersectionObservers w) v (mutationObservers w) (scrollListeners w)
    (resizeListeners w) (ticking w) (beforeunload w) (timers w)
    (viewSelector w) (viewId w) (dataLayer w) (cookies w).

Definition with_mutationObservers (v : nat) (w : World) : World :=
  mkWorld (trackingId w) (sectionMap w) (sectionVisibility w)
    (selectorVisibilityMap w) (isVisibilityTrackingInitialized w)
    (intersectionObservers w) (observed w) v (scrollListeners w)
    (resizeListeners w) (ticking w) (beforeunload w) (timers w)
    (viewSelector w) (viewId w) (dataLayer w) (cookies w).

Definition with_scrollListeners (v : nat) (w : World) : World :=
  mkWorld (trackingId w) (sectionMap w) (sectionVisibility w)
    (selectorVisibilityMap w) (isVisibilityTrackingInitialized w)
    (intersectionObservers w) (observed w) (mutationObservers w) v
    (resizeListeners w) (ticking w) (beforeunload w) (timers w)
    (viewSelector w) (viewId w) (dataLayer w) (cookies w).

Definition with_resizeListeners (v : nat) (w : World) : World :=
  mkWorld (trackingId w) (sectionMap w) (sectionVisibility w)
    (selectorVisibilityMap w) (isVisibilityTrackingInitialized w)
    (intersectionObservers w) (observed w) (mutationObservers w)
    (scrollListeners w) v (ticking w) (beforeunload w) (timers w)
    (viewSelector w) (viewId w) (dataLayer w) (cookies w).

Definition with_ticking (v : bool) (w : World) : World :=
  mkWorld (trackingId w) (sectionMap w) (sectionVisibility w)
    (selectorVisibilityMap w) (isVisibilityTrackingInitialized w)
    (intersectionObservers w) (observed w) (mutationObservers w)
    (scrollListeners w) (resizeListeners w) v (beforeunload w) (timers w)
    (viewSelector w) (viewId w) (dataLayer w) (cookies w).

Definition with_beforeunload (v : list UnloadHandler) (w : World) : World :=
  mkWorld (trackingId w) (sectionMap w) (sectionVisibility w)
    (selectorVisibilityMap w) (isVisibilityTrackingInitialized w)
    (intersectionObservers w) (observed w) (mutationObservers w)
    (scrollListeners w) (resizeListeners w) (ticking w) v (timers w)
    (viewSelector w) (viewId w) (dataLayer w) (cookies w).

Definition with_timers (v : list Timer) (w : World) : World :=
  mkWorld (trackingId w) (sectionMap w) (sectionVisibility w)
    (selectorVisibilityMap w) (isVisibilityTrackingInitialized w)
    (intersectionObservers w) (observed w) (mutationObservers w)
    (scrollListeners w) (resizeListeners w) (ticking w) (beforeunload w) v
    (viewSelector w) (viewId w) (dataLayer w) (cookies w).

Definition with_viewSelector (v : gmap nat string) (w : World) : World :=
  mkWorld (trackingId w) (sectionMap w) (sectionVisibility w)
    (selectorVisibilityMap w) (isVisibilityTrackingInitialized w)
    (intersectionObservers w) (observed w) (mutationObservers w)
    (scrollListeners w) (resizeListeners w) (ticking w) (beforeunload w)
    (timers w) v (viewId w) (dataLayer w) (cookies w).

Definition with_viewId (v : gmap nat string) (w : World) : World :=
  mkWorld (trackingId w) (sectionMap w) (sectionVisibility w)
    (selectorVisibilityMap w) (isVisibilityTrackingInitialized w)
    (intersectionObservers w) (observed w) (mutationObservers w)
    (scrollListeners w) (resizeListeners w) (ticking w) (beforeunload w)
    (timers w) (viewSelector w) v (dataLayer w) (cookies w).

Definition with_dataLayer (v : option (list Payload)) (w : World) : World :=
  mkWorld (trackingId w) (sectionMap w) (sectionVisibility w)
    (selectorVisibilityMap w) (isVisibilityTrackingInitialized w)
    (intersectionObservers w) (observed w) (mutationObservers w)
    (scrollListeners w) (resizeListeners w) (ticking w) (beforeunload w)
    (timers w) (viewSelector w) (viewId w) v (cookies w).

Definition with_cookies (v : list Cookie) (w : World) : World :=
  mkWorld (trackingId w) (sectionMap w) (sectionVisibility w)
    (selectorVisibilityMap w) (isVisibilityTrackingInitialized w)
    (intersectionObservers w) (observed w) (mutationObservers w)
    (scrollListeners w) (resizeListeners w) (ticking w) (beforeunload w)
    (timers w) (viewSelector w) (viewId w) (dataLayer w) v.

Definition num0 : number := Fin 0.
Definition num100 : number := Fin 100.

(** ** The event sink *)

(** [#_sendInternalGAEvent]: [window.dataLayer] is replaced by an empty array
    when it is not an array, then the payload is pushed. *)
Definition _sendInternalGAEvent (p : Payload) (w : World) : World :=
  with_dataLayer (Some (default [] (dataLayer w) ++ [p])%list) w.

(** ** Cookies *)

(** The jar lists the cookies of the browser in the order of their creation.
    A cookie is shown to the page at time [now] when it has not expired and
    the host and the path of the page match its domain and its path. *)
Definition cookie_visible (h : Host) (now : Z) (c : Cookie) : bool :=
  (now <? cookie_expires c)%Z
  && domain_matches h (cookie_domain c)
  && path_matches h (cookie_path c).

(** The cookies are shown with the longer paths first, and in the order of
    their creation among paths of one length. *)
Fixpoint insert_by_path (c : Cookie) (l : list Cookie) : list Cookie :=
  match l with
  | [] => [c]
  | c' :: l' =>
      if (String.length (cookie_path c') <=? String.length (cookie_path c))%nat
      then c :: l
      else c' :: insert_by_path c l'
  end.

Definition by_path (l : list Cookie) : list Cookie :=
  fold_right insert_by_path [] l.

Definition visible_cookies (h : Host) (now : Z) (jar : list Cookie)
    : list Cookie :=
  by_path (List.filter (cookie_visible h now) jar).

(** Reading [document.cookie] at time [now]: the [name=value] pairs of the
    cookies shown to the page, joined by ["; "]. *)
Definition document_cookie (h : Host) (now : Z) (w : World) : string :=
  String.concat "; "
    (map (fun c => cookie_name c ++ "=" ++ cookie_value c)
       (visible_cookies h now (cookies w))).

Definition same_cookie (a b : Cookie) : bool :=
  String.eqb (cookie_name a) (cookie_name b)
  && String.eqb (cookie_domain a) (cookie_domain b)
  && String.eqb (cookie_path a) (cookie_path b).

(** The cookie of that name, domain and path is replaced where it is, a new
    one is added at the end. *)
Fixpoint put_cookie (c : Cookie) (jar : list Cookie) : list Cookie :=
  match jar with
  | [] => [c]
  | c' :: jar' =>
      if same_cookie c c' then c :: jar' else c' :: put_cookie c jar'
  end.

(** Assigning [document.cookie] at time [now]: a cookie for a domain that
    the host of the page does not match is refused; one whose expiry is not
    in the future removes the cookie of that name, domain and path; any
    other is put into the jar. *)
Definition store_cookie (h : Host) (now : Z) (c : Cookie)
    (jar : list Cookie) : list Cookie :=
  if negb (domain_matches h (cookie_domain c)) then jar
  else if (cookie_expires c <=? now)%Z
  then List.filter (fun c' => negb (same_cookie c c')) jar
  else put_cookie c jar.

(** [#_readCookie]; [now] is the time of the call. *)
Definition _readCookie (h : Host) (now : Z) (name : string) (w : World)
    : option string :=
  let value := "; " ++ document_cookie h now w in
  let parts := js_split ("; " ++ name ++ "=") value in
  if Nat.eqb (length parts) 2
  then match last parts with
       | Some p => head (js_split ";" p)
       | None => None
       end
  else None.

Definition year_ms : Z := 365 * 24 * 60 * 60 * 1000.

(** [#_writeCookie]; [now] is what [Date.now()] returns.  The expiry goes
    through [toUTCString()], which writes the date to the second. *)
Definition _writeCookie (h : Host) (now : Z) (name value : string)
    (options : CookieOptions) (w : World) : World :=
  let defaultExpires := (now + year_ms)%Z in
  let expiryDate :=
    match opt_expires options with
    | Some e => if Z.eqb e 0 then defaultExpires else e
    | None => defaultExpires
    end in
  let path := str_or (opt_path options) "/" in
  let domain := str_or (opt_domain options) (hostname h) in
  let sameSite := str_or (opt_sameSite options) "lax" in
  with_cookies
    (store_cookie h now
       (mkCookie name value (expiryDate / 1000 * 1000)%Z path domain sameSite)
       (cookies w)) w.

Definition sessionKey (w : World) : string :=
  "__internal_ga_session_" ++ trackingId w ++ "__".

(** ** The rule registry *)

(** [#_claim] *)
Definition _claim (value min max : number) : number :=
  Math_min max (Math_max min value).

(** [dropSectionVisibility] *)
Definition dropSectionVisibility (id : string) (w : World) : World :=
  match jm_get id (sectionVisibility w) with
  | None => w
  | Some settings =>
      let selector := rule_selector settings in
      let w1 :=
        with_sectionVisibility (jm_delete id (sectionVisibility w)) w in
      match jm_get selector (selectorVisibilityMap w1) with
      | None => w1
      | Some oldSelectorSettings =>
          if (length oldSelectorSettings <=? 0)%nat then w1
          else
            let newSelectorSettings :=
              List.filter (fun s => negb (String.eqb (rule_id s) id))
                oldSelectorSettings in
            with_selectorVisibilityMap
              (jm_set selector newSelectorSettings (selectorVisibilityMap w1))
              w1
      end
  end.

Definition dquote : string := String "034"%char EmptyString.

Definition defaultSelector (section : string) : string :=
  "[data-internal-view=" ++ dquote ++ section ++ dquote ++ "]".

(** The rule object [addSectionVisibility] builds; [uuid] is what
    [window.crypto.randomUUID()] returns. *)
Definition newSettings (uuid section : string) (settings : PartialSettings)
    : SectionVisibilitySettings :=
  {| rule_id := uuid;
     rule_section := section;
     rule_selector := str_or (p_selector settings) (defaultSelector section);
     rule_scrollDepth :=
       _claim (num_or (p_scrollDepth settings) (Fin 70)) num0 num100;
     rule_viewTime := Math_max (num_or (p_viewTime settings) (Fin 3000)) num0;
     rule_customEvent := str_or (p_customEvent settings) EmptyString |}.

(** [addSectionVisibility]: the returned id and the new state.  The source
    pushes the rule on the array the map holds for the selector; nothing
    else keeps a reference to that array. *)
Definition addSectionVisibility (uuid section : string)
    (settings : PartialSettings) (w : World) : string * World :=
  let _settings := newSettings uuid section settings in
  let selector := rule_selector _settings in
  let id := rule_id _settings in
  let selectorSettings :=
    (default [] (jm_get selector (selectorVisibilityMap w))
     ++ [_settings])%list in
  let w1 :=
    with_sectionVisibility (jm_set id _settings (sectionVisibility w)) w in
  (id,
   with_selectorVisibilityMap
     (jm_set selector selectorSettings (selectorVisibilityMap w1)) w1).

(** The name under which a rule's event is sent, as both firing paths
    compute it: [setting.customEvent ? setting.customEvent :
    `view_${setting.section}`]. *)
Definition eventOf (setting : SectionVisibilitySettings) : string :=
  if str_truthy (rule_customEvent setting) then rule_customEvent setting
  else "view_" ++ rule_section setting.

(** ** Viewport geometry *)

(** [Math.max(0, -elementTop)] *)
Definition visibleTopOf (rect : DOMRect) : number :=
  Math_max num0 (num_neg (Fin (rect_top rect))).

(** [+((visibleTop / elementHeight) * 100).toFixed(2)], computed the same
    way at episode creation and at every scroll sample. *)
Definition ratioTopOf (rect : DOMRect) : number :=
  toFixed2
    (num_mul (num_div (visibleTopOf rect) (Fin (rect_height rect))) num100).

(** [visibleRatio] of [handleElementScroll]. *)
Definition visibleRatioOf (rect : DOMRect) (viewportHeight : Q) : number :=
  let elementTop := Fin (rect_top rect) in
  let elementBottom := Fin (rect_bottom rect) in
  let elementHeight := Fin (rect_height rect) in
  if num_ltb elementBottom num0 then num0
  else if num_gtb elementTop (Fin viewportHeight) then num0
  else
    let visibleBottom :=
      Math_min elementHeight (num_sub (Fin viewportHeight) elementTop) in
    let visibleHeight :=
      Math_max num0 (num_sub visibleBottom (visibleTopOf rect)) in
    if num_gtb elementHeight num0
    then Math_round (num_mul (num_div visibleHeight elementHeight) num100)
    else num0.

(** [depth] of [handleElementScroll]: the depth of one scroll sample. *)
Definition depthOf (rect : DOMRect) (viewportHeight : Q) : number :=
  Math_min (num_add (ratioTopOf rect) (visibleRatioOf rect viewportHeight))
    num100.

(** ** The intersection subsystem *)

(** One entry handed to the intersection callback, together with what the
    callback obtains while it handles the entry: the value of
    [window.crypto.randomUUID()] and of [node.getBoundingClientRect()]. *)
Record IntersectionEntry : Type := mkEntry {
  target : nat;
  isIntersecting : bool;
  intersectionRatio : Q;
  entry_uuid : string;
  entry_rect : DOMRect
}.

(** The timeouts armed for a new episode: one per rule of the selector with
    [viewTime > 0]. *)
Definition armTimers (id : string) (settings : list SectionVisibilitySettings)
    : list Timer :=
  map (fun setting => mkTimer id setting (rule_viewTime setting))
    (List.filter (fun setting => num_gtb (rule_viewTime setting) num0)
       settings).

(** The body of the [for (const entry of entries)] loop. *)
Definition onIntersectionEntry (now : Z) (w : World) (entry : IntersectionEntry)
    : World :=
  let node := target entry in
  match viewSelector w !! node with
  | None => w
  | Some selector =>
      if negb (str_truthy selector) then w
      else if isIntersecting entry then
        let id := entry_uuid entry in
        let w1 := with_viewId (<[node := id]> (viewId w)) w in
        let rect := entry_rect entry in
        let ratioTop := ratioTopOf rect in
        let tracked :=
          {| start := now;
             duration := 0;
             minScrollDepth := ratioTop;
             maxScrollDepth :=
               Math_min
                 (num_add ratioTop
                    (num_mul (Fin (intersectionRatio entry)) num100))
                 num100;
             element := node;
             tracked_selector := selector;
             tracked_id := id;
             _sentEventIds := None |} in
        let w2 := with_sectionMap (jm_set id tracked (sectionMap w1)) w1 in
        let settings :=
          default [] (jm_get selector (selectorVisibilityMap w2)) in
        with_timers (timers w2 ++ armTimers id settings)%list w2
      else
        match viewId w !! node with
        | None => w
        | Some outId =>
            if negb (str_truthy outId) then w
            else
              match jm_get outId (sectionMap w) with
              | None => w
              | Some tracked =>
                  let duration := (now - start tracked)%Z in
                  let scrollDepth :=
                    num_sub (maxScrollDepth tracked) (minScrollDepth tracked) in
                  let payload :=
                    ViewPayload "section_view" selector (ofZ duration)
                      scrollDepth in
                  let w1 := _sendInternalGAEvent payload w in
                  with_sectionMap (jm_delete outId (sectionMap w1)) w1
              end
        end
  end.

(** The callback of [#sectionObserver]. *)
Definition onIntersection (now : Z) (entries : list IntersectionEntry)
    (w : World) : World :=
  fold_left (onIntersectionEntry now) entries w.

(** The callback of a rule's [setTimeout]. *)
Definition onTimeout (t : Timer) (w : World) : World :=
  let id := timer_episode t in
  let setting := timer_setting t in
  let settingId := rule_id setting in
  match jm_get id (sectionMap w) with
  | None => w
  | Some newSection =>
      let sentIds := default [] (_sentEventIds newSection) in
      if includes settingId sentIds then w
      else
        let scrollDepth :=
          num_sub (maxScrollDepth newSection) (minScrollDepth newSection) in
        if num_ltb scrollDepth (rule_scrollDepth setting) then w
        else
          let payload :=
            ViewPayload (eventOf setting) (rule_section setting)
              (rule_viewTime setting) scrollDepth in
          let w1 := _sendInternalGAEvent payload w in
          let newSection' :=
            mkTracked (start newSection) (duration newSection)
              (minScrollDepth newSection) (maxScrollDepth newSection)
              (element newSection) (tracked_selector newSection)
              (tracked_id newSection) (Some (sentIds ++ [settingId])%list) in
          with_sectionMap (jm_set id newSection' (sectionMap w1)) w1
  end.

(** [sendLastSection], the flush on [beforeunload]. *)
Definition onSendLastSection (now : Z) (w : World) : World :=
  fold_left
    (fun w' section =>
       let duration := (now - start section)%Z in
       let scrollDepth :=
         num_sub (maxScrollDepth section) (minScrollDepth section) in
       _sendInternalGAEvent
         (ViewPayload "section_view" (tracked_selector section) (ofZ duration)
            scrollDepth) w')
    (jm_values (sectionMap w)) w.

(** [#_initSectionVisibilityTracking]: a new observer, with no target yet,
    becomes [#sectionObserver], and the flush is registered. *)
Definition _initSectionVisibilityTracking (w : World) : World :=
  with_beforeunload (beforeunload w ++ [sendLastSection])%list
    (with_observed ∅
       (with_intersectionObservers (S (intersectionObservers w)) w)).

(** ** The scroll-sampling subsystem *)

(** The body of the [for (const setting of settings)] loop of
    [handleElementScroll].  [sentEventIds], [sectionView] and [elapsed]
    (the source's [duration]) are the constants computed before the loop;
    [id] is [section.id]. *)
Definition scrollRule (id : string) (sentEventIds : list string)
    (sectionView : number) (elapsed : Z) (w : World)
    (setting : SectionVisibilitySettings) : World :=
  let settingId := rule_id setting in
  if includes settingId sentEventIds then w
  else if num_ltb sectionView (rule_scrollDepth setting) then w
  else if num_ltb (ofZ elapsed) (rule_viewTime setting) then w
  else
    let payload :=
      ViewPayload (eventOf setting) (rule_section setting) (ofZ elapsed)
        sectionView in
    let w1 := _sendInternalGAEvent payload w in
    match jm_get id (sectionMap w1) with
    | None => w1
    | Some section =>
        let section' :=
          mkTracked (start section) (duration section)
            (minScrollDepth section) (maxScrollDepth section)
            (element section) (tracked_selector section)
            (tracked_id section) (Some (sentEventIds ++ [settingId])%list) in
        with_sectionMap (jm_set id section' (sectionMap w1)) w1
    end.

(** [handleElementScroll(section)].  The argument is an object that the map
    holds under [section.id]; the function is given that key and reads and
    writes the object through the map, which is what the assignments to the
    fields of the shared object amount to. *)
Definition handleElementScroll (now : Z) (viewportHeight : Q)
    (rects : nat -> DOMRect) (id : string) (w : World) : World :=
  match jm_get id (sectionMap w) with
  | None => w
  | Some section =>
      let rect := rects (element section) in
      match viewSelector w !! element section with
      | None => w
      | Some selector =>
          if negb (str_truthy selector) then w
          else
            let ratioTop := ratioTopOf rect in
            let depth := depthOf rect viewportHeight in
            let section1 :=
              mkTracked (start section) (duration section)
                (Math_min (minScrollDepth section) ratioTop)
                (Math_max (maxScrollDepth section) depth)
                (element section) (tracked_selector section)
                (tracked_id section) (_sentEventIds section) in
            let w1 := with_sectionMap (jm_set id section1 (sectionMap w)) w in
            let duration := (now - start section1)%Z in
            let sectionView :=
              num_sub (maxScrollDepth section1) (minScrollDepth section1) in
            let settings :=
              default [] (jm_get selector (selectorVisibilityMap w1)) in
            let sentEventIds := default [] (_sentEventIds section1) in
            fold_left (scrollRule id sentEventIds sectionView duration)
              settings w1
      end
  end.

(** The callback given to [requestAnimationFrame] by [onScroll]. *)
Definition onAnimationFrame (now : Z) (viewportHeight : Q)
    (rects : nat -> DOMRect) (w : World) : World :=
  if ticking w then
    let w1 := with_ticking false w in
    fold_left
      (fun w' section =>
         handleElementScroll now viewportHeight rects (tracked_id section) w')
      (jm_values (sectionMap w1)) w1
  else w.

(** [onScroll]: a frame is requested unless one is pending. *)
Definition onScroll (w : World) : World :=
  if ticking w then w else with_ticking true w.

(** [#_initScrollDepthTracking]: the two listeners, then a first [onScroll()]
    with a fresh [ticking]. *)
Definition _initScrollDepthTracking (w : World) : World :=
  onScroll
    (with_ticking false
       (with_resizeListeners (S (resizeListeners w))
          (with_scrollListeners (S (scrollListeners w)) w))).

(** [#_initVisibilityTracking] *)
Definition _initVisibilityTracking (w : World) : World :=
  if isVisibilityTrackingInitialized w then w
  else
    with_isVisibilityTrackingInitialized true
      (_initScrollDepthTracking (_initSectionVisibilityTracking w)).

(** ** Return visits *)

(** [handleCloseTab], armed by [trackUserReturn]: [Date.now().toString()] is
    the decimal writing of the time. *)
Definition onHandleCloseTab (h : Host) (now : Z) (w : World) : World :=
  _writeCookie h now (sessionKey w) (pretty now)
    {| opt_expires := Some (now + year_ms)%Z;
       opt_path := Some "/";
       opt_domain := Some (hostname h);
       opt_sameSite := Some "lax" |} w.

(** [trackUserReturn]; its result ([false] on the early exit, [undefined]
    otherwise) is not kept. *)
Definition trackUserReturn (h : Host) (now : Z) (w : World) : World :=
  match _readCookie h now (sessionKey w) w with
  | None => w
  | Some lastVisit =>
      if negb (str_truthy lastVisit) then w
      else
        let diff := num_sub (ofZ now) (Number h lastVisit) in
        let w1 := _sendInternalGAEvent (ReturnVisitPayload diff) w in
        with_beforeunload (beforeunload w1 ++ [handleCloseTab])%list w1
  end.

(** The page is abandoned: the [beforeunload] listeners run in order. *)
Definition onBeforeUnload (h : Host) (now : Z) (w : World) : World :=
  fold_left
    (fun w' handler =>
       match handler with
       | sendLastSection => onSendLastSection now w'
       | handleCloseTab => onHandleCloseTab h now w'
       end)
    (beforeunload w) w.

(** ** Element discovery *)

(** [#_trackSectionView]: the element is tagged with the selector and handed
    to [#sectionObserver]. *)
Definition _trackSectionView (section : nat) (seletionString : string)
    (w : World) : World :=
  with_observed ({[section]} ∪ observed w)
    (with_viewSelector (<[section := seletionString]> (viewSelector w)) w).

(** [querySelectorAll(selector)] over the elements of a document or of a
    subtree, given in document order; [None] when the selector does not
    parse, where the browser throws a [SyntaxError]. *)
Definition querySelectorAll (h : Host) (scope : list nat) (selector : string)
    : option (list nat) :=
  if parses h selector
  then Some (List.filter (fun n => matches h n selector) scope)
  else None.

(** [node.matches(selector)]; it throws on the same selectors. *)
Definition node_matches (h : Host) (n : nat) (selector : string)
    : option bool :=
  if parses h selector then Some (matches h n selector) else None.

(** How a piece of code that may throw ends: normally, or by an exception,
    in either case with the state it has reached. *)
Inductive Completion : Type :=
| Normal (w : World)
| Throw (w : World).

Definition world_of (c : Completion) : World :=
  match c with Normal w | Throw w => w end.

Definition thrown (c : Completion) : bool :=
  match c with Normal _ => false | Throw _ => true end.

(** A loop ([for ... of], [forEach]) whose body may throw: the exception
    leaves the loop, and the remaining elements are not visited. *)
Fixpoint forEach {A : Type} (body : World -> A -> Completion) (l : list A)
    (w : World) : Completion :=
  match l with
  | [] => Normal w
  | a :: l' =>
      match body w a with
      | Normal w1 => forEach body l' w1
      | Throw w1 => Throw w1
      end
  end.

(** [scope.querySelectorAll(selector).forEach(section =>
    this.#_trackSectionView(section, selector))] *)
Definition trackAll (h : Host) (scope : list nat) (w : World)
    (selector : string) : Completion :=
  match querySelectorAll h scope selector with
  | None => Throw w
  | Some sections =>
      Normal
        (fold_left (fun w' section => _trackSectionView section selector w')
           sections w)
  end.

(** A node of [m.addedNodes]: the element it is, if it is an [HTMLElement],
    and the elements below it. *)
Record AddedNode : Type := mkAdded {
  node_element : option nat;
  node_descendants : list nat
}.

(** [getRegisteredSelectors] *)
Definition getRegisteredSelectors (w : World) : list string :=
  jm_keys (selectorVisibilityMap w).

(** The body of the loop over [m.addedNodes]. *)
Definition onAddedNode (h : Host) (registeredSelectors : list string)
    (w : World) (node : AddedNode) : Completion :=
  match node_element node with
  | None => Normal w
  | Some n =>
      forEach
        (fun w' selector =>
           match node_matches h n selector with
           | None => Throw w'
           | Some isSection =>
               let w1 :=
                 if isSection then _trackSectionView n selector w' else w' in
               trackAll h (node_descendants node) w1 selector
           end)
        registeredSelectors w
  end.

(** The callback of one mutation observer.  An exception ends the callback;
    the state it has reached stays. *)
Definition onMutations (h : Host) (mutations : list (list AddedNode))
    (w : World) : World :=
  let registeredSelectors := getRegisteredSelectors w in
  world_of
    (forEach
       (fun w' m => forEach (onAddedNode h registeredSelectors) m w')
       mutations w).

(** [trackSectionVisibility]; [doc] lists the elements of the document.  An
    exception of the initial scan goes to the caller; the state the call has
    reached stays. *)
Definition trackSectionVisibility (h : Host) (doc : list nat) (w : World)
    : World :=
  let w1 := _initVisibilityTracking w in
  let w2 := with_mutationObservers (S (mutationObservers w1)) w1 in
  let initialSelectors := getRegisteredSelectors w2 in
  world_of (forEach (trackAll h doc) initialSelectors w2).

(** ** The event loop *)

(** The activations of the single-threaded loop: the calls of the public
    methods and the callbacks the browser runs.  Each carries what the
    browser provides during the activation: the time, the drawn UUIDs, the
    geometry. *)
Inductive Activation : Type :=
| CallAddSectionVisibility (uuid section : string) (settings : PartialSettings)
| CallDropSectionVisibility (id : string)
| CallTrackUserReturn (now : Z)
| CallTrackSectionVisibility (doc : list nat)
| Intersection (now : Z) (entries : list IntersectionEntry)
| Mutations (mutations : list (list AddedNode))
| ScrollEvent
| ResizeEvent
| AnimationFrame (now : Z) (innerHeight : Q) (rects : nat -> DOMRect)
| Timeout (k : nat)
| BeforeUnload (now : Z).

Definition step (h : Host) (w : World) (a : Activation) : World :=
  match a with
  | CallAddSectionVisibility uuid section settings =>
      snd (addSectionVisibility uuid section settings w)
  | CallDropSectionVisibility id => dropSectionVisibility id w
  | CallTrackUserReturn now => trackUserReturn h now w
  | CallTrackSectionVisibility doc => trackSectionVisibility h doc w
  | Intersection now entries =>
      if (0 <? intersectionObservers w)%nat then onIntersection now entries w
      else w
  | Mutations mutations =>
      Nat.iter (mutationObservers w) (onMutations h mutations) w
  | ScrollEvent => Nat.iter (scrollListeners w) onScroll w
  | ResizeEvent => Nat.iter (resizeListeners w) onScroll w
  | AnimationFrame now innerHeight rects =>
      onAnimationFrame now innerHeight rects w
  | Timeout k =>
      match timers w !! k with
      | None => w
      | Some t => onTimeout t (with_timers (delete k (timers w)) w)
      end
  | BeforeUnload now => onBeforeUnload h now w
  end.

Definition run (h : Host) (w : World) (trace : list Activation) : World :=
  fold_left (step h) trace w.

(** [new VnsGaUtil()]: the constructor only reads the tracking id, the value
    of the [GID] parameter of the script's URL; the page brings its cookies
    and its [dataLayer]. *)
Definition new_VnsGaUtil (gid : option string) (jar : list Cookie)
    (layer : option (list Payload)) : World :=
  {| trackingId := str_or gid EmptyString;
     sectionMap := [];
     sectionVisibility := [];
     selectorVisibilityMap := [];
     isVisibilityTrackingInitialized := false;
     intersectionObservers := 0;
     observed := ∅;
     mutationObservers := 0;
     scrollListeners := 0;
     resizeListeners := 0;
     ticking := false;
     beforeunload := [];
     timers := [];
     viewSelector := ∅;
     viewId := ∅;
     dataLayer := layer;
     cookies := jar |}.

(** ** Observations *)

(** The events on [window.dataLayer]. *)
Definition layer (w : World) : list Payload := default [] (dataLayer w).

(** How many events of a given name were pushed. *)
Definition count_event (name : string) (w : World) : nat :=
  length (List.filter (fun p => String.eqb (event_name p) name) (layer w)).

(** The rules marked as fired in an episode. *)
Definition sentOf (id : string) (w : World) : list string :=
  match jm_get id (sectionMap w) with
  | Some t => default [] (_sentEventIds t)
  | None => []
  end.

(** The scroll depths of the events sent so far. *)
Definition depths (w : World) : list number :=
  flat_map
    (fun p =>
       match p with
       | ViewPayload _ _ _ scroll_depth => [scroll_depth]
       | ReturnVisitPayload _ => []
       end)
    (layer w).

(** ** Scenarios

    The page of the README: element 1 is the section [how-it-works], element
    2 the section [hero], element 3 an empty (zero-height) section [hero];
    the viewport is 800 pixels high. *)

(** A string of decimal digits read as a number, most significant digit
    first; [None] on any other character. *)
Fixpoint digits (acc : Z) (s : string) : option Z :=
  match s with
  | EmptyString => Some acc
  | String c s' =>
      let n := nat_of_ascii c in
      if ((48 <=? n) && (n <=? 57))%nat
      then digits (10 * acc + Z.of_nat (n - 48)) s'
      else None
  end.

(** How often a character occurs in a string. *)
Fixpoint occurrences (c : ascii) (s : string) : nat :=
  match s with
  | EmptyString => 0
  | String a s' => (if Ascii.eqb a c then 1 else 0) + occurrences c s'
  end.

(** The host of the examples: a selector parses when it holds at most the
    two quotes of an attribute selector; the page is at the path [/] of
    [example.org]. *)
Definition exampleHost : Host :=
  {| parses := fun selector =>
       (occurrences "034"%char selector <=? 2)%nat;
     matches := fun n selector =>
       match n with
       | 1%nat => String.eqb selector (defaultSelector "how-it-works")
       | 2%nat | 3%nat => String.eqb selector (defaultSelector "hero")
       | _ => false
       end;
     Number := fun s =>
       match digits 0 s with Some z => ofZ z | None => NaN end;
     hostname := "example.org";
     domain_matches := fun domain => String.eqb domain "example.org";
     path_matches := fun path => String.eqb path "/" |}.

Definition noSettings : PartialSettings := mkPartial None None None None.

Definition thresholds (scrollDepth viewTime : Z) (customEvent : string)
    : PartialSettings :=
  mkPartial None (Some (ofZ scrollDepth)) (Some (ofZ viewTime))
    (Some customEvent).

Definition freshPage : World := new_VnsGaUtil (Some "G-1") [] None.

(** An element of height 800 whose top edge is at [top]. *)
Definition rectAt (top : Z) : DOMRect :=
  mkRect (inject_Z top) (inject_Z (top + 800)) 800.

(** A zero-height element at [top]. *)
Definition emptyRectAt (top : Z) : DOMRect :=
  mkRect (inject_Z top) (inject_Z top) 0.

Definition enters (n : nat) (uuid : string) (ratio : Q) (rect : DOMRect)
    : IntersectionEntry :=
  mkEntry n true ratio uuid rect.

Definition leaves (n : nat) (rect : DOMRect) : IntersectionEntry :=
  mkEntry n false 0 EmptyString rect.

(** The two [how-it-works] rules of the README.  The section enters view by
    its top edge and stays there: both timers find a depth of 10 and do
    nothing.  Then the user scrolls the section fully into view, and one
    more scroll sample follows a tenth of a second later. *)
Definition twoRulesOneEpisode : list Activation :=
  [ CallAddSectionVisibility "r1" "how-it-works"
      (thresholds 20 1000 "how-it-works_view");
    CallAddSectionVisibility "r2" "how-it-works"
      (thresholds 60 2000 "how-it-works_view_2000");
    CallTrackSectionVisibility [1%nat];
    AnimationFrame 0 800 (fun _ => rectAt 720);
    Intersection 0 [enters 1 "e1" (1 # 10) (rectAt 720)];
    Timeout 0;
    Timeout 0;
    ScrollEvent;
    AnimationFrame 2500 800 (fun _ => rectAt 0);
    ScrollEvent;
    AnimationFrame 2600 800 (fun _ => rectAt 0) ].

(** The [hero] rule of the README is dropped one second after the section
    came fully into view; its timer fires at three seconds. *)
Definition dropWhileArmed : list Activation :=
  [ CallAddSectionVisibility "r1" "hero" (thresholds 50 3000 "hero_view");
    CallTrackSectionVisibility [2%nat];
    AnimationFrame 0 800 (fun _ => rectAt 0);
    Intersection 0 [enters 2 "e1" 1 (rectAt 0)];
    CallDropSectionVisibility "r1";
    Timeout 0 ].

(** An empty section enters and leaves view. *)
Definition emptySection : list Activation :=
  [ CallAddSectionVisibility "r1" "hero" noSettings;
    CallTrackSectionVisibility [3%nat];
    AnimationFrame 0 800 (fun _ => emptyRectAt 100);
    Intersection 0 [enters 3 "e1" 1 (emptyRectAt 100)];
    Intersection 500 [leaves 3 (emptyRectAt (-10))] ].

(** The observer reports the section as intersecting, and by the time the
    callback reads the bounding box the page has been scrolled two section
    heights further. *)
Definition staleBox : list Activation :=
  [ CallAddSectionVisibility "r1" "hero" noSettings;
    CallTrackSectionVisibility [2%nat];
    AnimationFrame 0 800 (fun _ => rectAt 0);
    Intersection 0 [enters 2 "e1" (1 # 2) (rectAt (-1600))];
    Intersection 500 [leaves 2 (rectAt (-1600))] ].

(** A second visit: the session cookie holds the time of the first and
    expires a year after it. *)
Definition returningPage : World :=
  new_VnsGaUtil (Some "G-1")
    [mkCookie "__internal_ga_session_G-1__" "1000" (1000 + year_ms) "/"
       "example.org" "lax"]
    None.

(** The README page up to the first scroll sample of the section. *)
Definition scrolledIntoView : list Activation := take 8 twoRulesOneEpisode.

(** ** Predicates of the statements *)

(** A threshold that is zero. *)
Definition is_zero (a : number) : Prop :=
  match a with
  | Fin q => (q == 0)%Q
  | _ => False
  end.

(** A finite percentage: [0 <= a <= 100]. *)
Definition in_percent (a : number) : Prop :=
  num_le num0 a /\ num_le a num100.

(** The bounds of an episode are percentages and in order. *)
Definition episode_ok (t : SectionTrackedData) : Prop :=
  in_percent (minScrollDepth t) /\ in_percent (maxScrollDepth t)
  /\ num_le (minScrollDepth t) (maxScrollDepth t).

Definition episodes_ok (w : World) : Prop :=
  Forall episode_ok (jm_values (sectionMap w)).

(** The [scroll_depth] of a payload that has one is a percentage. *)
Definition payload_ok (p : Payload) : Prop :=
  match p with
  | ViewPayload _ _ _ scroll_depth => in_percent scroll_depth
  | ReturnVisitPayload _ => True
  end.

(** An entering entry is regular when the element has a positive height, its
    box has not passed the top of the viewport by more than that height, the
    ratio is not negative (no ratio an observer reports is), and the drawn
    UUID names no live episode. *)
Definition regular_entry (w : World) (e : IntersectionEntry) : Prop :=
  isIntersecting e = true ->
  (0 < rect_height (entry_rect e))%Q
  /\ (- rect_top (entry_rect e) <= rect_height (entry_rect e))%Q
  /\ (0 <= intersectionRatio e)%Q
  /\ jm_get (entry_uuid e) (sectionMap w) = None.

(** The elements of the live episodes have a positive height. *)
Definition measurable (rects : nat -> DOMRect) (w : World) : Prop :=
  forall id t,
    jm_get id (sectionMap w) = Some t ->
    (0 < rect_height (rects (element t)))%Q.

(** What is asked of the geometry an activation brings: of the entries of
    an intersection callback, and of the boxes a scroll sample measures. *)
Definition regular (w : World) (a : Activation) : Prop :=
  match a with
  | Intersection _ entries => Forall (regular_entry w) entries
  | AnimationFrame _ _ rects => measurable rects w
  | _ => True
  end.

Fixpoint regular_trace (h : Host) (w : World) (trace : list Activation)
    : Prop :=
  match trace with
  | [] => True
  | a :: trace' => regular w a /\ regular_trace h (step h w a) trace'
  end.

(** The interval of [t'] contains the interval of [t], on the same
    element. *)
Definition widened (t t' : SectionTrackedData) : Prop :=
  num_le (minScrollDepth t') (minScrollDepth t)
  /\ num_le (maxScrollDepth t) (maxScrollDepth t')
  /\ element t' = element t.

(** The episodes of [w'] are those of [w], each with a wider interval. *)
Definition widened_all (w w' : World) : Prop :=
  forall id,
    match jm_get id (sectionMap w), jm_get id (sectionMap w') with
    | Some t, Some t' => widened t t'
    | None, None => True
    | _, _ => False
    end.

(** [w'] has the events of [w] and then events whose depth is a
    percentage. *)
Definition appends_ok (w w' : World) : Prop :=
  exists news, layer w' = (layer w ++ news)%list /\ Forall payload_ok news.

(** An activation that neither starts nor ends an episode. *)
Definition sound_step (w w' : World) : Prop :=
  episodes_ok w ->
  episodes_ok w' /\ widened_all w w' /\ appends_ok w w'.

(** An activation that leaves the episodes and the events alone. *)
Definition same_episodes (w w' : World) : Prop :=
  sectionMap w' = sectionMap w /\ dataLayer w' = dataLayer w.

(** The registry is consistent: every rule listed under a selector is
    registered under its id with that selector. *)
Definition registry_wfb (w : World) : bool :=
  forallb
    (fun selector =>
       match jm_get selector (selectorVisibilityMap w) with
       | Some l =>
           forallb
             (fun s =>
                match jm_get (rule_id s) (sectionVisibility w) with
                | Some r => String.eqb (rule_selector r) selector
                | None => false
                end)
             l
       | None => true
       end)
    (jm_keys (selectorVisibilityMap w)).

Definition registry_wf (w : World) : Prop := registry_wfb w = true.

(** The calls of a trace that register a rule draw ids that are not
    registered at that time. *)
Fixpoint fresh_ids (h : Host) (w : World) (trace : list Activation) : Prop :=
  match trace with
  | [] => True
  | a :: trace' =>
      match a with
      | CallAddSectionVisibility uuid _ _ =>
          jm_get uuid (sectionVisibility w) = None
      | _ => True
      end
      /\ fresh_ids h (step h w a) trace'
  end.

(** The ids that the calls of [addSectionVisibility] of a trace have drawn
    from [window.crypto.randomUUID()], in the order of the calls. *)
Definition drawnIds (trace : list Activation) : list string :=
  flat_map
    (fun a =>
       match a with
       | CallAddSectionVisibility uuid _ _ => [uuid]
       | _ => []
       end)
    trace.

(** The two indices of the rule registry. *)
Definition registry (w : World)
    : JsMap SectionVisibilitySettings
      * JsMap (list SectionVisibilitySettings) :=
  (sectionVisibility w, selectorVisibilityMap w).

(** An activation that leaves the registry alone. *)
Definition same_registry (w w' : World) : Prop := registry w' = registry w.

(** No registered selector is the empty string. *)
Definition selectors_ok (w : World) : Prop :=
  Forall (fun s => str_truthy s = true) (getRegisteredSelectors w).

(** The tagging done by a sequence of [#_trackSectionView] calls: the last
    selector given to an element, if any. *)
Fixpoint assigned (ops : list (nat * string)) (n : nat) : option string :=
  match ops with
  | [] => None
  | (k, s) :: ops' =>
      match assigned ops' n with
      | Some s' => Some s'
      | None => if Nat.eqb k n then Some s else None
      end
  end.

(** The selectors a scan gets through: those before the first one that
    does not parse. *)
Fixpoint parsed (h : Host) (selectors : list string) : list string :=
  match selectors with
  | [] => []
  | selector :: selectors' =>
      if parses h selector then selector :: parsed h selectors' else []
  end.

(** The calls of [#_trackSectionView] made by a scan of [scope] for the
    given selectors, which parse, in order. *)
Definition scanOps (h : Host) (scope : list nat) (selectors : list string)
    : list (nat * string) :=
  flat_map (fun selector =>
              map (fun n => (n, selector))
                (List.filter (fun n => matches h n selector) scope))
    selectors.

(** One call of [#_trackSectionView], and the tags and the observation
    targets a sequence of calls leaves. *)
Definition trackOp (w : World) (op : nat * string) : World :=
  _trackSectionView (fst op) (snd op) w.

Definition tagsOf (ops : list (nat * string)) (m : gmap nat string)
    : gmap nat string :=
  fold_left (fun m' op => <[fst op := snd op]> m') ops m.

Definition targetsOf (ops : list (nat * string)) (X : gset nat) : gset nat :=
  fold_left (fun X' op => {[fst op]} ∪ X') ops X.

(** ** Further definitions

    What the statements about the rest of the class need: the fields an
    activation may write, the events a scroll sample and the unload flush
    send, and how a run uses [trackSectionVisibility]. *)

(** The fields of a world. *)
Inductive Field : Type :=
| F_trackingId
| F_sectionMap
| F_sectionVisibility
| F_selectorVisibilityMap
| F_isVisibilityTrackingInitialized
| F_intersectionObservers
| F_observed
| F_mutationObservers
| F_scrollListeners
| F_resizeListeners
| F_ticking
| F_beforeunload
| F_timers
| F_viewSelector
| F_viewId
| F_dataLayer
| F_cookies.

(** Two worlds have the same value in a field. *)
Definition field_same (f : Field) (w w' : World) : Prop :=
  match f with
  | F_trackingId => trackingId w' = trackingId w
  | F_sectionMap => sectionMap w' = sectionMap w
  | F_sectionVisibility => sectionVisibility w' = sectionVisibility w
  | F_selectorVisibilityMap =>
      selectorVisibilityMap w' = selectorVisibilityMap w
  | F_isVisibilityTrackingInitialized =>
      isVisibilityTrackingInitialized w' = isVisibilityTrackingInitialized w
  | F_intersectionObservers =>
      intersectionObservers w' = intersectionObservers w
  | F_observed => observed w' = observed w
  | F_mutationObservers => mutationObservers w' = mutationObservers w
  | F_scrollListeners => scrollListeners w' = scrollListeners w
  | F_resizeListeners => resizeListeners w' = resizeListeners w
  | F_ticking => ticking w' = ticking w
  | F_beforeunload => beforeunload w' = beforeunload w
  | F_timers => timers w' = timers w
  | F_viewSelector => viewSelector w' = viewSelector w
  | F_viewId => viewId w' = viewId w
  | F_dataLayer => dataLayer w' = dataLayer w
  | F_cookies => cookies w' = cookies w
  end.

(** [w'] differs from [w] in the fields [fs] at most. *)
Definition modifies (fs : list Field) (w w' : World) : Prop :=
  forall f, ~ In f fs -> field_same f w w'.

(** The fields an activation may write. *)
Definition footprint (a : Activation) : list Field :=
  match a with
  | CallAddSectionVisibility _ _ _ | CallDropSectionVisibility _ =>
      [F_sectionVisibility; F_selectorVisibilityMap]
  | CallTrackUserReturn _ => [F_dataLayer; F_beforeunload]
  | CallTrackSectionVisibility _ =>
      [F_isVisibilityTrackingInitialized; F_intersectionObservers;
       F_observed; F_mutationObservers; F_scrollListeners;
       F_resizeListeners; F_ticking; F_beforeunload; F_viewSelector]
  | Intersection _ _ => [F_viewId; F_sectionMap; F_timers; F_dataLayer]
  | Mutations _ => [F_viewSelector; F_observed]
  | ScrollEvent | ResizeEvent => [F_ticking]
  | AnimationFrame _ _ _ => [F_ticking; F_sectionMap; F_dataLayer]
  | Timeout _ => [F_timers; F_sectionMap; F_dataLayer]
  | BeforeUnload _ => [F_dataLayer; F_cookies]
  end.

(** The payload of a rule's event. *)
Definition ruleEvent (setting : SectionVisibilitySettings)
    (view_time scroll_depth : number) : Payload :=
  ViewPayload (eventOf setting) (rule_section setting) view_time scroll_depth.

(** The summary of an episode at time [now]. *)
Definition summaryOf (now : Z) (section : SectionTrackedData) : Payload :=
  ViewPayload "section_view" (tracked_selector section)
    (ofZ (now - start section))
    (num_sub (maxScrollDepth section) (minScrollDepth section)).

(** The test a scroll sample makes on a rule: it is not in the fired set
    read before the loop, and the width and the elapsed time reach its
    thresholds. *)
Definition eligible (sentEventIds : list string) (sectionView : number)
    (elapsed : Z) (setting : SectionVisibilitySettings) : bool :=
  negb (includes (rule_id setting) sentEventIds)
  && negb (num_ltb sectionView (rule_scrollDepth setting))
  && negb (num_ltb (ofZ elapsed) (rule_viewTime setting)).

(** The test a timeout makes on its rule. *)
Definition timer_fires (t : Timer) (section : SectionTrackedData) : bool :=
  negb (includes (rule_id (timer_setting t))
          (default [] (_sentEventIds section)))
  && negb (num_ltb
             (num_sub (maxScrollDepth section) (minScrollDepth section))
             (rule_scrollDepth (timer_setting t))).

Definition is_track (a : Activation) : bool :=
  match a with CallTrackSectionVisibility _ => true | _ => false end.

Definition is_flush (handler : UnloadHandler) : bool :=
  match handler with sendLastSection => true | handleCloseTab => false end.

(** A burst of scroll and resize events. *)
Definition is_scroll_or_resize (a : Activation) : bool :=
  match a with ScrollEvent | ResizeEvent => true | _ => false end.

(** What [trackSectionVisibility] has set up, [b] telling whether it was
    called: the flag, one intersection observer, one scroll and one resize
    listener, and one flush among the [beforeunload] listeners. *)
Definition infra (b : bool) (w : World) : Prop :=
  isVisibilityTrackingInitialized w = b
  /\ intersectionObservers w = (if b then 1 else 0)%nat
  /\ scrollListeners w = (if b then 1 else 0)%nat
  /\ resizeListeners w = (if b then 1 else 0)%nat
  /\ List.filter is_flush (beforeunload w)
     = if b then [sendLastSection] else [].

(** The events of [w'] are those of [w] and then some more. *)
Definition extends (w w' : World) : Prop :=
  exists sent, layer w' = (layer w ++ sent)%list.

(** The README page with the [hero] rule, the section fully in view and its
    timer armed. *)
Definition heroInView : World :=
  run exampleHost freshPage (take 4 dropWhileArmed).

Definition heroRule : SectionVisibilitySettings :=
  newSettings "r1" "hero" (thresholds 50 3000 "hero_view").

(** The two indices of the registry agree: a registered rule carries its
    id and is listed under its selector; a listed rule is the one registered
    under its id, and its selector is the one it is listed under; no list
    holds an id twice. *)
Definition registry_agree (w : World) : Prop :=
  (forall id r,
     jm_get id (sectionVisibility w) = Some r ->
     rule_id r = id
     /\ exists l, jm_get (rule_selector r) (selectorVisibilityMap w) = Some l
                  /\ In r l)
  /\ (forall selector l s,
        jm_get selector (selectorVisibilityMap w) = Some l -> In s l ->
        jm_get (rule_id s) (sectionVisibility w) = Some s
        /\ rule_selector s = selector)
  /\ (forall selector l,
        jm_get selector (selectorVisibilityMap w) = Some l ->
        List.NoDup (map rule_id l)).

(** The selector a scan of [scope] leaves on element [n]: the last of the
    selectors, in their order, that [n] matches, if [n] is in the scope. *)
Definition scanned (h : Host) (scope : list nat) (selectors : list string)
    (n : nat) : option string :=
  if existsb (fun k => Nat.eqb k n) scope
  then last (List.filter (fun selector => matches h n selector) selectors)
  else None.

(** The calls of [#_trackSectionView] made for one added node, for selectors
    that parse. *)
Definition nodeOps (h : Host) (selectors : list string) (node : AddedNode)
    : list (nat * string) :=
  match node_element node with
  | None => []
  | Some n => scanOps h (n :: node_descendants node) selectors
  end.

Definition is_element (node : AddedNode) : bool :=
  match node_element node with Some _ => true | None => false end.

(** The calls made by one run of the mutation callback.  When all the
    registered selectors parse, every added element is scanned.  Otherwise
    the first added element is scanned for the selectors before the first
    one that does not parse, and the exception ends the callback. *)
Definition mutationOps (h : Host) (selectors : list string)
    (mutations : list (list AddedNode)) : list (nat * string) :=
  if forallb (parses h) selectors
  then flat_map (flat_map (nodeOps h selectors)) mutations
  else
    match List.find is_element (concat mutations) with
    | Some node => nodeOps h (parsed h selectors) node
    | None => []
    end.

(** The depth of a sample in the first generation of the class
    ([InternalGA], [handleElementScroll]): the visible share of the element,
    and 100 once the element is above the viewport. *)
Definition InternalGA_scrollDepth (rect : DOMRect) (viewportHeight : Q)
    : number :=
  let elementTop := Fin (rect_top rect) in
  let elementBottom := Fin (rect_bottom rect) in
  let elementHeight := Fin (rect_height rect) in
  if num_ltb elementBottom num0 then num100
  else if num_gtb elementTop (Fin viewportHeight) then num0
  else
    let visibleTop := Math_max num0 (num_neg elementTop) in
    let visibleBottom :=
      Math_min elementHeight (num_sub (Fin viewportHeight) elementTop) in
    let visibleHeight :=
      Math_max num0 (num_sub visibleBottom visibleTop) in
    if num_gtb elementHeight num0
    then Math_round (num_mul (num_div visibleHeight elementHeight) num100)
    else num0.

(** The share of an element's height that lies above the bottom edge of the
    viewport, as a percentage, before any rounding or clamping. *)
Definition reached (rect : DOMRect) (viewportHeight : Q) : Q :=
  ((viewportHeight - rect_top rect) / rect_height rect * 100)%Q.

(** ** Cookie jars *)

(** The character [c] does not occur in [s]. *)
Fixpoint lacks (c : ascii) (s : string) : bool :=
  match s with
  | EmptyString => true
  | String a s' => negb (Ascii.eqb a c) && lacks c s'
  end.

(** A cookie as a browser stores one: no [;] in its name or value, no [=]
    in its name. *)
Definition name_ok (name : string) : bool :=
  lacks ";"%char name && lacks "="%char name.

Definition cookie_ok (c : Cookie) : bool :=
  name_ok (cookie_name c) && lacks ";"%char (cookie_value c).

Definition named (name : string) (c : Cookie) : bool :=
  String.eqb (cookie_name c) name.

(** [s] without its first [n] characters. *)
Fixpoint str_drop (n : nat) (s : string) : string :=
  match n, s with
  | O, _ => s
  | S _, EmptyString => EmptyString
  | S k, String _ s' => str_drop k s'
  end.

(** The pairs of [document.cookie], each after a ["; "]. *)
Fixpoint segments (pairs : list string) : string :=
  match pairs with
  | [] => EmptyString
  | p :: pairs' => "; " ++ p ++ segments pairs'
  end.

(** The pieces [split] cuts such a string into at ["; name="]: a pair that
    starts with [name=] ends the piece being read and starts the next one
    with what follows the [=]. *)
Fixpoint pieces (name cur : string) (pairs : list string) : list string :=
  match pairs with
  | [] => [cur]
  | p :: pairs' =>
      if String.prefix (name ++ "=") p
      then cur :: pieces name (str_drop (String.length (name ++ "=")) p) pairs'
      else pieces name (cur ++ "; " ++ p) pairs'
  end.

(** The key under which a jar holds a cookie. *)
Definition cookie_key (c : Cookie) : string * string * string :=
  (cookie_name c, cookie_domain c, cookie_path c).

(** The cookie that [#_writeCookie] hands to [document.cookie]: the expiry
    is the one of the options, or a year from [now], written to the second;
    the path defaults to [/], the domain to the host name, [SameSite] to
    [lax]. *)
Definition writtenCookie (h : Host) (now : Z) (name value : string)
    (options : CookieOptions) : Cookie :=
  mkCookie name value
    (match opt_expires options with
     | Some e => if Z.eqb e 0 then now + year_ms else e
     | None => now + year_ms
     end / 1000 * 1000)%Z
    (str_or (opt_path options) "/")
    (str_or (opt_domain options) (hostname h))
    (str_or (opt_sameSite options) "lax").

(** The ids in use, in the id map and in the lists of the selector map, are
    among [ids]. *)
Definition ids_among (ids : list string) (w : World) : Prop :=
  (forall k, jm_get k (sectionVisibility w) <> None -> In k ids)
  /\ (forall s l r, jm_get s (selectorVisibilityMap w) = Some l -> In r l ->
        In (rule_id r) ids).

(** The tags are in order: an observed element has a tag, and a tag is a
    registered selector that the element matches; no registered selector is
    empty. *)
Definition tags_ok (h : Host) (w : World) : Prop :=
  selectors_ok w
  /\ (forall n, n ∈ observed w -> is_Some (viewSelector w !! n))
  /\ (forall n s,
        viewSelector w !! n = Some s ->
        In s (getRegisteredSelectors w) /\ matches h n s = true).

(** Every episode is stored under its own id. *)
Definition episodes_keyed (w : World) : Prop :=
  forall id t, jm_get id (sectionMap w) = Some t -> tracked_id t = id.

(** The README page with its two [how-it-works] rules, the section in view
    by its top edge. *)
Definition howItWorksInView : World :=
  run exampleHost freshPage (take 5 twoRulesOneEpisode).

(** * Lemmas and theorems *)

(** ** Numbers *)

Lemma Qltb_true (a b : Q) : Qltb a b = true <-> (a < b)%Q.
Proof.
  unfold Qltb. rewrite Bool.negb_true_iff.
  split; intros H.
  - apply Qnot_le_lt. intros Hle. apply Qle_bool_iff in Hle. congruence.
  - destruct (Qle_bool b a) eqn:E; [|reflexivity].
    apply Qle_bool_iff in E. exfalso. lra.
Qed.

Lemma Qltb_false (a b : Q) : Qltb a b = false <-> (b <= a)%Q.
Proof.
  unfold Qltb. rewrite Bool.negb_false_iff. apply Qle_bool_iff.
Qed.

Lemma Qis0_true (a : Q) : Qis0 a = true <-> (a == 0)%Q.
Proof. unfold Qis0. apply Qeq_bool_iff. Qed.

Lemma Qis0_false (a : Q) : Qis0 a = false <-> ~ (a == 0)%Q.
Proof.
  unfold Qis0. split; intros H.
  - intros E. apply Qeq_bool_iff in E. congruence.
  - destruct (Qeq_bool a 0) eqn:E; [|reflexivity].
    apply Qeq_bool_iff in E. contradiction.
Qed.

(** Case analysis on a comparison of rationals. *)
Ltac cases_Q :=
  repeat match goal with
  | |- context [Qltb ?a ?b] =>
      let E := fresh "E" in
      destruct (Qltb a b) eqn:E;
      [apply Qltb_true in E | apply Qltb_false in E]; simpl
  | |- context [Qis0 ?a] =>
      let E := fresh "E" in
      destruct (Qis0 a) eqn:E;
      [apply Qis0_true in E | apply Qis0_false in E]; simpl
  end.

Lemma num_or_not_NaN (v : option number) (d : number) :
  isNaN d = false -> isNaN (num_or v d) = false.
Proof.
  intros Hd. unfold num_or. destruct v as [a|]; [|assumption].
  destruct (truthy a) eqn:E; [|assumption].
  destruct a; simpl in *; congruence.
Qed.

Lemma claim_in_percent (v : number) :
  isNaN v = false -> in_percent (_claim v num0 num100).
Proof.
  unfold in_percent, _claim, Math_min, Math_max, num0, num100.
  destruct v as [q| | |]; simpl; intros H; try discriminate H.
  - cases_Q; split; lra.
  - split; lra.
  - split; lra.
Qed.

Lemma claim_above (v : number) :
  num_ltb num100 v = true -> _claim v num0 num100 = num100.
Proof.
  unfold _claim, Math_min, Math_max, num0, num100.
  destruct v as [q| | |]; simpl; try discriminate; auto.
  intros H. apply Qltb_true in H. cases_Q; try reflexivity; lra.
Qed.

Lemma claim_below (v : number) :
  num_ltb v num0 = true -> _claim v num0 num100 = num0.
Proof.
  unfold _claim, Math_min, Math_max, num0, num100.
  destruct v as [q| | |]; simpl; try discriminate; auto.
  intros H. apply Qltb_true in H. cases_Q; try reflexivity; lra.
Qed.

Lemma floor_nonneg (v : number) :
  isNaN v = false -> num_le num0 (Math_max v num0).
Proof.
  unfold Math_max, num0.
  destruct v as [q| | |]; simpl; intros H; try discriminate H; try lra; auto.
  cases_Q; lra.
Qed.

Lemma floor_below (v : number) :
  num_ltb v num0 = true -> Math_max v num0 = num0.
Proof.
  unfold Math_max, num0. destruct v as [q| | |]; simpl; try discriminate; auto.
  intros H. rewrite H. reflexivity.
Qed.

(** ** Maps *)

Lemma jm_get_set_eq {V : Type} (k : string) (v : V) (m : JsMap V) :
  jm_get k (jm_set k v m) = Some v.
Proof.
  induction m as [|[k' v'] m IH]; simpl.
  - rewrite String.eqb_refl. reflexivity.
  - destruct (String.eqb k k') eqn:E; simpl; rewrite E; auto.
Qed.

Lemma jm_get_set_ne {V : Type} (k k' : string) (v : V) (m : JsMap V) :
  k' <> k -> jm_get k' (jm_set k v m) = jm_get k' m.
Proof.
  intros Hne. induction m as [|[k0 v0] m IH]; simpl.
  - destruct (String.eqb_spec k' k); [contradiction | reflexivity].
  - destruct (String.eqb_spec k k0) as [->|]; simpl.
    + destruct (String.eqb_spec k' k0); [contradiction | reflexivity].
    + rewrite IH. reflexivity.
Qed.

Lemma jm_get_delete_eq {V : Type} (k : string) (m : JsMap V) :
  jm_get k (jm_delete k m) = None.
Proof.
  unfold jm_delete. induction m as [|[k' v'] m IH]; simpl; [reflexivity|].
  destruct (String.eqb k k') eqn:E; simpl; [assumption|].
  rewrite E. assumption.
Qed.

Lemma jm_get_delete_ne {V : Type} (k k' : string) (m : JsMap V) :
  k' <> k -> jm_get k' (jm_delete k m) = jm_get k' m.
Proof.
  intros Hne. unfold jm_delete.
  induction m as [|[k0 v0] m IH]; simpl; [reflexivity|].
  destruct (String.eqb_spec k k0) as [->|]; simpl.
  - destruct (String.eqb_spec k' k0); [contradiction | assumption].
  - rewrite IH. reflexivity.
Qed.

Lemma jm_keys_set {V : Type} (k : string) (v : V) (m : JsMap V) :
  forall k', In k' (jm_keys m) -> In k' (jm_keys (jm_set k v m)).
Proof.
  intros k'. unfold jm_keys.
  induction m as [|[k0 v0] m IH]; simpl; [tauto|].
  destruct (String.eqb k k0); simpl; tauto.
Qed.

Lemma jm_get_keys {V : Type} (k : string) (v : V) (m : JsMap V) :
  jm_get k m = Some v -> In k (jm_keys m).
Proof.
  unfold jm_keys. induction m as [|[k0 v0] m IH]; simpl; [discriminate|].
  destruct (String.eqb_spec k k0); auto.
Qed.

Lemma jm_keys_set_present {V : Type} (k : string) (v v' : V) (m : JsMap V) :
  jm_get k m = Some v -> jm_keys (jm_set k v' m) = jm_keys m.
Proof.
  unfold jm_keys. induction m as [|[k0 v0] m IH]; simpl; [discriminate|].
  destruct (String.eqb k k0); simpl; [reflexivity|].
  intros H. rewrite IH; auto.
Qed.

Lemma str_truthy_true (s : string) : str_truthy s = true <-> s <> EmptyString.
Proof. destruct s; simpl; split; congruence. Qed.

Lemma str_or_given (s d : string) : s <> EmptyString -> str_or (Some s) d = s.
Proof. destruct s; [congruence | reflexivity]. Qed.

(** ** Worlds *)

(** The setters and the projections of [World], unfolded innermost first. *)
Ltac world_simpl :=
  cbv beta iota zeta delta [
    trackingId sectionMap sectionVisibility selectorVisibilityMap
    isVisibilityTrackingInitialized intersectionObservers observed
    mutationObservers scrollListeners resizeListeners ticking beforeunload
    timers viewSelector viewId dataLayer cookies with_sectionMap
    with_sectionVisibility with_selectorVisibilityMap
    with_isVisibilityTrackingInitialized with_intersectionObservers
    with_observed with_mutationObservers with_scrollListeners
    with_resizeListeners with_ticking with_beforeunload with_timers
    with_viewSelector with_viewId with_dataLayer with_cookies ].

Ltac world_simpl_in H :=
  cbv beta iota zeta delta [
    trackingId sectionMap sectionVisibility selectorVisibilityMap
    isVisibilityTrackingInitialized intersectionObservers observed
    mutationObservers scrollListeners resizeListeners ticking beforeunload
    timers viewSelector viewId dataLayer cookies with_sectionMap
    with_sectionVisibility with_selectorVisibilityMap
    with_isVisibilityTrackingInitialized with_intersectionObservers
    with_observed with_mutationObservers with_scrollListeners
    with_resizeListeners with_ticking with_beforeunload with_timers
    with_viewSelector with_viewId with_dataLayer with_cookies ] in H.


(** ** Scans and exceptions *)

(** A sequence of [#_trackSectionView] calls changes the tags and the
    observation targets, and nothing else. *)
Lemma ops_shape (ops : list (nat * string)) (w : World) :
  fold_left trackOp ops w
  = with_observed (targetsOf ops (observed w))
      (with_viewSelector (tagsOf ops (viewSelector w)) w).
Proof.
  revert w. induction ops as [|[n s] ops IH]; intros w; simpl.
  - destruct w; reflexivity.
  - rewrite IH. destruct w; reflexivity.
Qed.

Lemma parsed_all (h : Host) (selectors : list string) :
  forallb (parses h) selectors = true -> parsed h selectors = selectors.
Proof.
  induction selectors as [|s l IH]; cbn [forallb parsed]; [reflexivity|].
  destruct (parses h s); [|discriminate]. intros H. rewrite (IH H).
  reflexivity.
Qed.

Lemma parsed_In (h : Host) (selectors : list string) (s : string) :
  In s (parsed h selectors) -> In s selectors /\ parses h s = true.
Proof.
  induction selectors as [|s0 l IH]; cbn [parsed In]; [tauto|].
  destruct (parses h s0) eqn:E; [|intros []].
  intros [<-|H]; [auto|]. destruct (IH H). auto.
Qed.

(** The scan of one selector: it throws when the selector does not parse,
    before anything is tagged. *)
Lemma trackAll_ops (h : Host) (scope : list nat) (w : World)
    (selector : string) :
  trackAll h scope w selector
  = if parses h selector
    then Normal
           (fold_left trackOp
              (map (fun n => (n, selector))
                 (List.filter (fun n => matches h n selector) scope)) w)
    else Throw w.
Proof.
  unfold trackAll, querySelectorAll.
  destruct (parses h selector); [|reflexivity]. f_equal.
  generalize (List.filter (fun n => matches h n selector) scope) as l.
  intros l. revert w. induction l as [|n l IH]; intros w; simpl; auto.
Qed.

(** The scan of a list of selectors stops at the first one that does not
    parse. *)
Lemma scan_forEach (h : Host) (scope : list nat) (selectors : list string)
    (w : World) :
  forEach (trackAll h scope) selectors w
  = (if forallb (parses h) selectors then Normal else Throw)
      (fold_left trackOp (scanOps h scope (parsed h selectors)) w).
Proof.
  unfold scanOps. revert w.
  induction selectors as [|s l IH]; intros w;
    cbn [forEach forallb parsed]; [reflexivity|].
  rewrite trackAll_ops. destruct (parses h s); [|reflexivity].
  cbn [andb flat_map]. rewrite fold_left_app. apply IH.
Qed.

Lemma scan_ops (h : Host) (scope : list nat) (selectors : list string)
    (w : World) :
  world_of (forEach (trackAll h scope) selectors w)
  = fold_left trackOp (scanOps h scope (parsed h selectors)) w.
Proof.
  rewrite scan_forEach. destruct (forallb (parses h) selectors); reflexivity.
Qed.

(** One added node: an element is scanned with its descendants, up to the
    first selector that does not parse. *)
Lemma onAddedNode_ops (h : Host) (selectors : list string) (w : World)
    (node : AddedNode) :
  onAddedNode h selectors w node
  = (if is_element node && negb (forallb (parses h) selectors)
     then Throw else Normal)
      (fold_left trackOp (nodeOps h (parsed h selectors) node) w).
Proof.
  unfold onAddedNode, nodeOps, is_element.
  destruct (node_element node) as [n|]; [|reflexivity]. cbn [andb].
  unfold scanOps. revert w.
  induction selectors as [|s l IH]; intros w;
    cbn [forEach forallb parsed]; [reflexivity|].
  unfold node_matches. destruct (parses h s) eqn:E; [|reflexivity].
  cbv zeta. rewrite trackAll_ops, E, IH. cbn [andb flat_map List.filter].
  rewrite fold_left_app. f_equal. f_equal.
  destruct (matches h n s); reflexivity.
Qed.

Lemma find_app {A : Type} (p : A -> bool) (l1 l2 : list A) :
  List.find p (l1 ++ l2)
  = match List.find p l1 with
    | Some x => Some x
    | None => List.find p l2
    end.
Proof.
  induction l1 as [|a l1 IH]; cbn [app List.find]; [reflexivity|].
  destruct (p a); [reflexivity | exact IH].
Qed.

Lemma nodes_forEach (h : Host) (selectors : list string)
    (nodes : list AddedNode) (w : World) :
  forEach (onAddedNode h selectors) nodes w
  = if forallb (parses h) selectors
    then Normal (fold_left trackOp (flat_map (nodeOps h selectors) nodes) w)
    else match List.find is_element nodes with
         | Some node =>
             Throw (fold_left trackOp (nodeOps h (parsed h selectors) node) w)
         | None => Normal w
         end.
Proof.
  revert w. induction nodes as [|node nodes IH]; intros w;
    cbn [forEach flat_map List.find].
  - destruct (forallb (parses h) selectors); reflexivity.
  - rewrite onAddedNode_ops.
    destruct (forallb (parses h) selectors) eqn:E.
    + rewrite andb_false_r, IH, fold_left_app, (parsed_all h selectors E).
      reflexivity.
    + rewrite andb_true_r.
      destruct (is_element node) eqn:En; [reflexivity|].
      rewrite IH. unfold nodeOps, is_element in *.
      destruct (node_element node); [discriminate En | reflexivity].
Qed.

(** One run of the mutation callback. *)
Lemma onMutations_ops (h : Host) (mutations : list (list AddedNode))
    (w : World) :
  onMutations h mutations w
  = fold_left trackOp
      (mutationOps h (getRegisteredSelectors w) mutations) w.
Proof.
  unfold onMutations, mutationOps. cbv zeta.
  generalize (getRegisteredSelectors w). intros selectors.
  assert (H : forEach
                (fun w' m => forEach (onAddedNode h selectors) m w')
                mutations w
              = if forallb (parses h) selectors
                then Normal
                       (fold_left trackOp
                          (flat_map (flat_map (nodeOps h selectors))
                             mutations) w)
                else match List.find is_element (concat mutations) with
                     | Some node =>
                         Throw
                           (fold_left trackOp
                              (nodeOps h (parsed h selectors) node) w)
                     | None => Normal w
                     end).
  { revert w. induction mutations as [|m ms IH]; intros w;
      cbn [forEach flat_map concat List.find].
    - destruct (forallb (parses h) selectors); reflexivity.
    - rewrite nodes_forEach, find_app.
      destruct (forallb (parses h) selectors).
      + rewrite IH, fold_left_app. reflexivity.
      + destruct (List.find is_element m); [reflexivity | apply IH]. }
  rewrite H. destruct (forallb (parses h) selectors); [reflexivity|].
  destruct (List.find is_element (concat mutations)); reflexivity.
Qed.

(** [trackSectionVisibility] as a sequence of [#_trackSectionView] calls. *)
Lemma trackSectionVisibility_ops (h : Host) (doc : list nat) (w : World) :
  trackSectionVisibility h doc w
  = let wi := _initVisibilityTracking w in
    let wm := with_mutationObservers (S (mutationObservers wi)) wi in
    fold_left trackOp
      (scanOps h doc (parsed h (getRegisteredSelectors wm))) wm.
Proof. unfold trackSectionVisibility. cbv zeta. apply scan_ops. Qed.

(** C9, as the code has it.  An explicit 0 for [scrollDepth] or [viewTime] is
    replaced by the default, 70 or 3000; and a rule gets a zero threshold
    through the public call exactly when the value passed is negative, which
    is clamped to 0. *)
Theorem zero_is_defaulted_negative_is_zero (uuid section : string)
    (settings : PartialSettings) :
  let r := newSettings uuid section settings in
  (forall q, (q == 0)%Q -> p_scrollDepth settings = Some (Fin q) ->
   rule_scrollDepth r = Fin 70)
  /\ (forall q, (q == 0)%Q -> p_viewTime settings = Some (Fin q) ->
      rule_viewTime r = Fin 3000)
  /\ (is_zero (rule_scrollDepth r) <->
      exists v, p_scrollDepth settings = Some v /\ num_ltb v num0 = true)
  /\ (is_zero (rule_viewTime r) <->
      exists v, p_viewTime settings = Some v /\ num_ltb v num0 = true).
Proof.
  intros r. subst r. simpl. repeat split.
  - intros q Hq ->. simpl. apply Qis0_true in Hq. rewrite Hq. reflexivity.
  - intros q Hq ->. simpl. apply Qis0_true in Hq. rewrite Hq. reflexivity.
  - destruct (p_scrollDepth settings) as [[q| | |]|]; simpl;
      unfold _claim, Math_min, Math_max, num0, num100; simpl.
    + cases_Q; intros H; simpl in H; try lra.
      exists (Fin q). split; [reflexivity|]. apply Qltb_true. lra.
    + intros H. lra.
    + intros _. exists NegInfinity. split; reflexivity.
    + intros H. lra.
    + intros H. lra.
  - intros (v & -> & Hv).
    assert (E : num_or (Some v) (Fin 70) = v).
    { destruct v as [q| | |]; simpl in *; try discriminate; auto.
      apply Qltb_true in Hv. cases_Q; auto. lra. }
    rewrite E, (claim_below v Hv). simpl. lra.
  - destruct (p_viewTime settings) as [[q| | |]|]; simpl;
      unfold Math_max, num0; simpl.
    + cases_Q; intros H; simpl in H; try lra.
      exists (Fin q). split; [reflexivity|]. apply Qltb_true. lra.
    + intros [].
    + intros _. exists NegInfinity. split; reflexivity.
    + intros H. lra.
    + intros H. lra.
  - intros (v & -> & Hv).
    assert (E : num_or (Some v) (Fin 3000) = v).
    { destruct v as [q| | |]; simpl in *; try discriminate; auto.
      apply Qltb_true in Hv. cases_Q; auto. lra. }
    rewrite E, (floor_below v Hv). simpl. lra.
Qed.

(** C9, as stated, fails: a zero threshold is configured through
    [addSectionVisibility] by passing a negative value. *)
Lemma negative_threshold_gives_zero :
  rule_scrollDepth
    (newSettings "u" "x" (mkPartial None (Some (Fin (-10))) None None))
  = Fin 0
  /\ rule_viewTime
       (newSettings "u" "x" (mkPartial None None (Some (Fin (-500))) None))
     = Fin 0.
Proof. split; reflexivity. Qed.

(** ** Viewport geometry *)

(** C6 fails on the code.  For a rectangle of height 0 the depth of a scroll
    sample is never 0: it is [NaN] when the top edge is at or below the top
    of the viewport (0 / 0), and 100 when it is above (a positive number
    divided by 0 is [Infinity], capped at 100). *)
Theorem zero_height_depth (top bottom viewportHeight : Q) :
  depthOf (mkRect top bottom 0) viewportHeight
  = if Qle_bool 0 top then NaN else num100.
Proof.
  assert (Hv : visibleRatioOf (mkRect top bottom 0) viewportHeight = num0).
  { unfold visibleRatioOf. simpl.
    cases_Q; reflexivity. }
  unfold depthOf. rewrite Hv.
  unfold ratioTopOf, visibleTopOf, Math_max, num0, num100. simpl.
  destruct (Qle_bool 0 top) eqn:E.
  - apply Qle_bool_iff in E.
    assert (Hn : Qltb 0 (- top) = false) by (apply Qltb_false; lra).
    rewrite Hn. reflexivity.
  - assert (Hn : Qltb 0 (- top) = true).
    { apply Qltb_true. destruct (Qlt_le_dec 0 (- top)) as [|Hle]; auto.
      exfalso. assert (Ht : (0 <= top)%Q) by lra.
      apply Qle_bool_iff in Ht. congruence. }
    rewrite Hn. simpl.
    assert (Hz : Qis0 (- top) = false).
    { apply Qis0_false. apply Qltb_true in Hn. lra. }
    rewrite Hz, Hn. reflexivity.
Qed.

(** ** Firing paths *)

(** C1 fails on the code.  With the two [how-it-works] rules of the README,
    one scroll sample fires both rules and keeps only the second in the
    episode's fired set (each assignment extends the array read before the
    loop); the next sample of the same episode fires the first rule again. *)
Theorem rule_fires_twice_in_one_episode :
  let w9 := run exampleHost freshPage (take 9 twoRulesOneEpisode) in
  let w := run exampleHost freshPage twoRulesOneEpisode in
  count_event "how-it-works_view" w9 = 1%nat
  /\ count_event "how-it-works_view_2000" w9 = 1%nat
  /\ sentOf "e1" w9 = ["r2"]
  /\ jm_keys (sectionMap w) = ["e1"]
  /\ count_event "how-it-works_view" w = 2%nat.
Proof. vm_compute. repeat split. Qed.

(** C3 fails on the code.  A rule dropped while its timer is armed is gone
    from both indices, and its event is still sent when the timer fires. *)
Theorem dropped_rule_fires_late :
  let w5 := run exampleHost freshPage (take 5 dropWhileArmed) in
  let w := run exampleHost freshPage dropWhileArmed in
  jm_get "r1" (sectionVisibility w5) = None
  /\ jm_get (defaultSelector "hero") (selectorVisibilityMap w5) = Some []
  /\ layer w5 = []
  /\ map event_name (layer w) = ["hero_view"].
Proof. vm_compute. repeat split. Qed.

(** ** Return visits *)

Lemma trackUserReturn_no_cookie (h : Host) (now : Z) (w : World) :
  _readCookie h now (sessionKey w) w = None -> trackUserReturn h now w = w.
Proof. intros H. unfold trackUserReturn. rewrite H. reflexivity. Qed.

(** C2 fails on the code.  On a first visit (no session cookie)
    [trackUserReturn] returns before it registers [handleCloseTab]: closing
    the tab writes no cookie.  On a page that has the cookie the handler is
    registered and the cookie is rewritten. *)
Theorem first_visit_writes_no_cookie :
  let w1 := step exampleHost freshPage (CallTrackUserReturn 1000) in
  let w2 := step exampleHost w1 (BeforeUnload 6000) in
  let v1 := step exampleHost returningPage (CallTrackUserReturn 6000) in
  let v2 := step exampleHost v1 (BeforeUnload 7000) in
  _readCookie exampleHost 1000 (sessionKey freshPage) freshPage = None
  /\ layer w1 = []
  /\ beforeunload w1 = []
  /\ cookies w2 = []
  /\ layer v1 = [ReturnVisitPayload (num_sub (ofZ 6000) (ofZ 1000))]
  /\ beforeunload v1 = [handleCloseTab]
  /\ map cookie_value (cookies v2) = ["7000"].
Proof. vm_compute. repeat split. Qed.

(** ** Removing a rule *)

Lemma registry_wf_spec (w : World) :
  registry_wf w <->
  forall selector l s,
    jm_get selector (selectorVisibilityMap w) = Some l -> In s l ->
    exists r, jm_get (rule_id s) (sectionVisibility w) = Some r
              /\ rule_selector r = selector.
Proof.
  unfold registry_wf, registry_wfb. rewrite forallb_forall. split.
  - intros H selector l s Hl Hs.
    specialize (H selector (jm_get_keys _ _ _ Hl)). rewrite Hl in H.
    rewrite forallb_forall in H. specialize (H s Hs).
    destruct (jm_get (rule_id s) (sectionVisibility w)) as [r|];
      [|discriminate].
    exists r. split; [reflexivity|]. apply String.eqb_eq, H.
  - intros H selector _.
    destruct (jm_get selector (selectorVisibilityMap w)) as [l|] eqn:Hl;
      [|reflexivity].
    apply forallb_forall. intros s Hs.
    destruct (H selector l s Hl Hs) as (r & -> & Hr).
    apply String.eqb_eq, Hr.
Qed.

Lemma drop_absent (id : string) (w : World) :
  jm_get id (sectionVisibility w) = None -> dropSectionVisibility id w = w.
Proof. intros H. unfold dropSectionVisibility. rewrite H. reflexivity. Qed.

(** What [dropSectionVisibility] does to the two indices when the rule is
    registered. *)
Lemma drop_present (id : string) (w : World) (r : SectionVisibilitySettings) :
  jm_get id (sectionVisibility w) = Some r ->
  sectionVisibility (dropSectionVisibility id w)
  = jm_delete id (sectionVisibility w)
  /\ selectorVisibilityMap (dropSectionVisibility id w)
     = match jm_get (rule_selector r) (selectorVisibilityMap w) with
       | Some (s :: l) =>
           jm_set (rule_selector r)
             (List.filter (fun s' => negb (String.eqb (rule_id s') id))
                (s :: l))
             (selectorVisibilityMap w)
       | _ => selectorVisibilityMap w
       end.
Proof.
  intros H. unfold dropSectionVisibility. rewrite H. simpl.
  destruct (jm_get (rule_selector r) (selectorVisibilityMap w)) as [[|s l]|];
    simpl; split; reflexivity.
Qed.

(** What [dropSectionVisibility] leaves of a registered rule in a
    consistent registry. *)
Lemma drop_registered (id : string) (w : World)
    (r : SectionVisibilitySettings) :
  registry_wf w -> jm_get id (sectionVisibility w) = Some r ->
  jm_get id (sectionVisibility (dropSectionVisibility id w)) = None
  /\ (forall selector l s,
        jm_get selector (selectorVisibilityMap (dropSectionVisibility id w))
        = Some l ->
        In s l -> rule_id s <> id)
  /\ (forall k, k <> id ->
        jm_get k (sectionVisibility (dropSectionVisibility id w))
        = jm_get k (sectionVisibility w))
  /\ (forall selector, selector <> rule_selector r ->
        jm_get selector (selectorVisibilityMap (dropSectionVisibility id w))
        = jm_get selector (selectorVisibilityMap w)).
Proof.
  intros Hwf Hr.
  destruct (drop_present id w r Hr) as [Hsv Hsm]. rewrite Hsv, Hsm.
  rewrite registry_wf_spec in Hwf.
  assert (Hother : forall selector l s,
            jm_get selector (selectorVisibilityMap w) = Some l -> In s l ->
            rule_id s = id -> selector = rule_selector r).
  { intros selector l s Hl Hs Hid.
    destruct (Hwf selector l s Hl Hs) as (r' & Hr' & <-).
    rewrite Hid in Hr'. congruence. }
  repeat split.
  - apply jm_get_delete_eq.
  - intros selector l s Hl Hs Hid.
    destruct (jm_get (rule_selector r) (selectorVisibilityMap w))
      as [[|s0 l0]|] eqn:Hold.
    + rewrite (Hother _ _ _ Hl Hs Hid) in Hl. rewrite Hold in Hl.
      injection Hl as <-. destruct Hs.
    + destruct (String.eqb_spec selector (rule_selector r)) as [->|Hne].
      * rewrite jm_get_set_eq in Hl. injection Hl as <-.
        apply (filter_In (fun s' => negb (String.eqb (rule_id s') id)) s
                 (s0 :: l0)) in Hs. destruct Hs as [_ Hs].
        rewrite Hid, String.eqb_refl in Hs. discriminate.
      * rewrite jm_get_set_ne in Hl by assumption.
        apply Hne. eapply Hother; eauto.
    + rewrite (Hother _ _ _ Hl Hs Hid) in Hl. congruence.
  - intros k Hk. apply jm_get_delete_ne, Hk.
  - intros selector Hne.
    destruct (jm_get (rule_selector r) (selectorVisibilityMap w))
      as [[|s0 l0]|]; try reflexivity.
    apply jm_get_set_ne, Hne.
Qed.

(** C7.  In a consistent registry, [dropSectionVisibility] with an id that
    is not registered returns the state it was given; with a registered id
    it removes the rule from the id-keyed map and from every list of the
    selector-keyed map, and touches no other rule and no other selector. *)
Theorem dropSectionVisibility_removes (id : string) (w : World) :
  registry_wf w ->
  (jm_get id (sectionVisibility w) = None -> dropSectionVisibility id w = w)
  /\ (forall r, jm_get id (sectionVisibility w) = Some r ->
      let w' := dropSectionVisibility id w in
      jm_get id (sectionVisibility w') = None
      /\ (forall selector l s,
            jm_get selector (selectorVisibilityMap w') = Some l -> In s l ->
            rule_id s <> id)
      /\ (forall k, k <> id ->
            jm_get k (sectionVisibility w') = jm_get k (sectionVisibility w))
      /\ (forall selector, selector <> rule_selector r ->
            jm_get selector (selectorVisibilityMap w')
            = jm_get selector (selectorVisibilityMap w))).
Proof.
  intros Hwf. split; [apply drop_absent|].
  intros r Hr w'. exact (drop_registered id w r Hwf Hr).
Qed.

Lemma dropSectionVisibility_removes_witness :
  let w := snd (addSectionVisibility "r1" "hero" noSettings freshPage) in
  registry_wf w
  /\ jm_get "r1" (sectionVisibility (dropSectionVisibility "r1" w)) = None.
Proof.
  intros w.
  assert (Hwf : registry_wf w) by reflexivity.
  split; [exact Hwf|].
  pose proof (dropSectionVisibility_removes "r1" w Hwf) as [_ H].
  destruct (H (newSettings "r1" "hero" noSettings)) as [H1 _];
    [reflexivity | exact H1].
Defined.

(** ** The registry along a run *)

Lemma same_registry_refl (w : World) : same_registry w w.
Proof. reflexivity. Qed.

Lemma same_registry_trans (w1 w2 w3 : World) :
  same_registry w1 w2 -> same_registry w2 w3 -> same_registry w1 w3.
Proof. unfold same_registry. congruence. Qed.

Lemma same_registry_fold {A : Type} (f : World -> A -> World) (l : list A) :
  (forall w a, same_registry w (f w a)) ->
  forall w, same_registry w (fold_left f l w).
Proof.
  intros Hf. induction l as [|a l IH]; intros w; simpl.
  - apply same_registry_refl.
  - eapply same_registry_trans; [apply Hf | apply IH].
Qed.

Lemma same_registry_iter (f : World -> World) (n : nat) :
  (forall w, same_registry w (f w)) ->
  forall w, same_registry w (Nat.iter n f w).
Proof.
  intros Hf. induction n as [|n IH]; intros w; simpl.
  - apply same_registry_refl.
  - eapply same_registry_trans; [apply IH | apply Hf].
Qed.

(** A state built from [w] by setters that do not touch the registry. *)
Ltac registry_frame w := destruct w; reflexivity.

Lemma onIntersectionEntry_registry (now : Z) (w : World)
    (e : IntersectionEntry) :
  same_registry w (onIntersectionEntry now w e).
Proof.
  unfold onIntersectionEntry.
  destruct (viewSelector w !! target e) as [selector|];
    [|apply same_registry_refl].
  destruct (negb (str_truthy selector)); [apply same_registry_refl|].
  destruct (isIntersecting e); [registry_frame w|].
  destruct (viewId w !! target e) as [outId|]; [|apply same_registry_refl].
  destruct (negb (str_truthy outId)); [apply same_registry_refl|].
  destruct (jm_get outId (sectionMap w)); [registry_frame w|].
  apply same_registry_refl.
Qed.

Lemma onTimeout_registry (t : Timer) (w : World) :
  same_registry w (onTimeout t w).
Proof.
  unfold onTimeout.
  destruct (jm_get (timer_episode t) (sectionMap w));
    [|apply same_registry_refl].
  destruct (includes _ _); [apply same_registry_refl|].
  destruct (num_ltb _ _); [apply same_registry_refl | registry_frame w].
Qed.

Lemma scrollRule_registry (id : string) (sentEventIds : list string)
    (sectionView : number) (elapsed : Z) (w : World)
    (setting : SectionVisibilitySettings) :
  same_registry w (scrollRule id sentEventIds sectionView elapsed w setting).
Proof.
  unfold scrollRule.
  destruct (includes _ _); [apply same_registry_refl|].
  destruct (num_ltb sectionView _); [apply same_registry_refl|].
  destruct (num_ltb (ofZ elapsed) _); [apply same_registry_refl|].
  cbv zeta. destruct (jm_get id (sectionMap _)); registry_frame w.
Qed.

Lemma handleElementScroll_registry (now : Z) (viewportHeight : Q)
    (rects : nat -> DOMRect) (id : string) (w : World) :
  same_registry w (handleElementScroll now viewportHeight rects id w).
Proof.
  unfold handleElementScroll.
  destruct (jm_get id (sectionMap w)) as [s|]; [|apply same_registry_refl].
  destruct (viewSelector w !! element s) as [selector|];
    [|apply same_registry_refl].
  destruct (negb (str_truthy selector)); [apply same_registry_refl|].
  cbv zeta.
  eapply same_registry_trans;
    [|apply same_registry_fold; intros; apply scrollRule_registry].
  registry_frame w.
Qed.

Lemma onAnimationFrame_registry (now : Z) (viewportHeight : Q)
    (rects : nat -> DOMRect) (w : World) :
  same_registry w (onAnimationFrame now viewportHeight rects w).
Proof.
  unfold onAnimationFrame.
  destruct (ticking w); [|apply same_registry_refl]. cbv zeta.
  eapply same_registry_trans;
    [|apply same_registry_fold; intros; apply handleElementScroll_registry].
  registry_frame w.
Qed.

Lemma onBeforeUnload_registry (h : Host) (now : Z) (w : World) :
  same_registry w (onBeforeUnload h now w).
Proof.
  unfold onBeforeUnload. apply same_registry_fold. intros w0 [|].
  - unfold onSendLastSection. apply same_registry_fold.
    intros w1 s. registry_frame w1.
  - registry_frame w0.
Qed.

Lemma trackUserReturn_registry (h : Host) (now : Z) (w : World) :
  same_registry w (trackUserReturn h now w).
Proof.
  unfold trackUserReturn.
  destruct (_readCookie h now (sessionKey w) w) as [lastVisit|];
    [|apply same_registry_refl].
  destruct (negb (str_truthy lastVisit));
    [apply same_registry_refl | registry_frame w].
Qed.

Lemma ops_registry (ops : list (nat * string)) (w : World) :
  same_registry w (fold_left trackOp ops w).
Proof.
  apply same_registry_fold. intros w0 op. unfold trackOp. registry_frame w0.
Qed.

Lemma trackSectionVisibility_registry (h : Host) (doc : list nat)
    (w : World) :
  same_registry w (trackSectionVisibility h doc w).
Proof.
  rewrite trackSectionVisibility_ops. cbv zeta.
  eapply same_registry_trans; [|apply ops_registry].
  unfold _initVisibilityTracking.
  destruct (isVisibilityTrackingInitialized w); [registry_frame w|].
  unfold _initScrollDepthTracking, _initSectionVisibilityTracking, onScroll.
  destruct w. world_simpl. reflexivity.
Qed.

Lemma onMutations_registry (h : Host) (mutations : list (list AddedNode))
    (w : World) :
  same_registry w (onMutations h mutations w).
Proof. rewrite onMutations_ops. apply ops_registry. Qed.

Lemma onScroll_registry (w : World) : same_registry w (onScroll w).
Proof. unfold onScroll. destruct (ticking w); registry_frame w. Qed.

Lemma same_registry_wf (w w' : World) :
  same_registry w w' ->
  (registry_wf w -> registry_wf w') /\ (selectors_ok w -> selectors_ok w').
Proof.
  unfold same_registry, registry. intros E. injection E as E1 E2.
  unfold registry_wf, registry_wfb, selectors_ok, getRegisteredSelectors.
  rewrite E1, E2. tauto.
Qed.

Lemma jm_keys_set_incl {V : Type} (k k' : string) (v : V) (m : JsMap V) :
  In k' (jm_keys (jm_set k v m)) -> k' = k \/ In k' (jm_keys m).
Proof.
  unfold jm_keys. induction m as [|[k0 v0] m IH]; simpl.
  - intros [<-|[]]. auto.
  - destruct (String.eqb k k0); simpl; intros [<-|H]; auto.
    destruct (IH H); auto.
Qed.

Lemma str_or_truthy (v : option string) (d : string) :
  str_truthy d = true -> str_truthy (str_or v d) = true.
Proof. intros Hd. destruct v as [[|c s]|]; auto. Qed.

(** Registering a rule under an id that is not in use keeps the registry
    consistent. *)
Lemma addSectionVisibility_wf (uuid section : string)
    (settings : PartialSettings) (w : World) :
  jm_get uuid (sectionVisibility w) = None ->
  registry_wf w -> selectors_ok w ->
  registry_wf (snd (addSectionVisibility uuid section settings w))
  /\ selectors_ok (snd (addSectionVisibility uuid section settings w)).
Proof.
  intros Hfresh Hwf Hsel.
  set (r := newSettings uuid section settings).
  assert (Hr : str_truthy (rule_selector r) = true)
    by (apply str_or_truthy; reflexivity).
  assert (Esv : sectionVisibility
                  (snd (addSectionVisibility uuid section settings w))
                = jm_set uuid r (sectionVisibility w))
    by (destruct w; reflexivity).
  assert (Esm : selectorVisibilityMap
                  (snd (addSectionVisibility uuid section settings w))
                = jm_set (rule_selector r)
                    (default [] (jm_get (rule_selector r)
                                   (selectorVisibilityMap w)) ++ [r])%list
                    (selectorVisibilityMap w))
    by (destruct w; reflexivity).
  split.
  - rewrite registry_wf_spec in *. rewrite Esv, Esm.
    assert (Hold : forall selector l s,
              jm_get selector (selectorVisibilityMap w) = Some l -> In s l ->
              exists r0,
                jm_get (rule_id s) (jm_set uuid r (sectionVisibility w))
                = Some r0
                /\ rule_selector r0 = selector).
    { intros selector l s Hl Hs.
      destruct (Hwf selector l s Hl Hs) as (r0 & Hr0 & Hs0).
      exists r0. split; [|exact Hs0].
      rewrite jm_get_set_ne; [exact Hr0 | congruence]. }
    intros selector l s Hl Hs.
    destruct (String.eqb_spec selector (rule_selector r)) as [->|Hne].
    + rewrite jm_get_set_eq in Hl. injection Hl as <-.
      apply in_app_or in Hs. destruct Hs as [Hs|[<-|[]]].
      * change (str_or (p_selector settings) (defaultSelector section))
          with (rule_selector r) in Hs.
        destruct (jm_get (rule_selector r) (selectorVisibilityMap w))
          as [l0|] eqn:E; [|exact (False_ind _ Hs)].
        exact (Hold _ l0 s E Hs).
      * exists r. split; [apply jm_get_set_eq | reflexivity].
    + rewrite jm_get_set_ne in Hl by exact Hne. eapply Hold; eauto.
  - unfold selectors_ok, getRegisteredSelectors in *. rewrite Esm.
    rewrite List.Forall_forall in *. intros s Hs.
    apply jm_keys_set_incl in Hs. destruct Hs as [->|Hs]; auto.
Qed.

(** Dropping a rule keeps the registry consistent. *)
Lemma dropSectionVisibility_wf (id : string) (w : World) :
  registry_wf w -> selectors_ok w ->
  registry_wf (dropSectionVisibility id w)
  /\ selectors_ok (dropSectionVisibility id w).
Proof.
  intros Hwf Hsel.
  destruct (jm_get id (sectionVisibility w)) as [r|] eqn:Hr;
    [|rewrite (drop_absent id w Hr); auto].
  destruct (drop_registered id w r Hwf Hr) as (_ & Hids & Hsv & Hsm).
  destruct (drop_present id w r Hr) as [_ Esm].
  split.
  - rewrite registry_wf_spec in *. intros selector l s Hl Hs.
    assert (Hid : rule_id s <> id) by (eapply Hids; eauto).
    rewrite (Hsv _ Hid).
    destruct (String.eqb_spec selector (rule_selector r)) as [->|Hne].
    + rewrite Esm in Hl.
      destruct (jm_get (rule_selector r) (selectorVisibilityMap w))
        as [[|s0 l0]|] eqn:E.
      * rewrite E in Hl. injection Hl as <-. destruct Hs.
      * rewrite jm_get_set_eq in Hl. injection Hl as <-.
        apply (filter_In (fun s' => negb (String.eqb (rule_id s') id)) s
                 (s0 :: l0)) in Hs.
        destruct Hs as [Hs _]. eapply Hwf; eauto.
      * rewrite E in Hl. discriminate.
    + rewrite (Hsm _ Hne) in Hl. eapply Hwf; eauto.
  - unfold selectors_ok, getRegisteredSelectors in *. rewrite Esm.
    destruct (jm_get (rule_selector r) (selectorVisibilityMap w))
      as [[|s0 l0]|] eqn:E; try exact Hsel.
    rewrite (jm_keys_set_present _ _ _ _ E). exact Hsel.
Qed.

(** Every state reached from a new instance by a run whose registrations
    draw unused ids has a consistent registry with no empty selector. *)
Lemma reachable_registry (h : Host) (trace : list Activation) (w : World) :
  fresh_ids h w trace -> registry_wf w -> selectors_ok w ->
  registry_wf (run h w trace) /\ selectors_ok (run h w trace).
Proof.
  revert w. induction trace as [|a trace IH]; intros w;
    cbn [fresh_ids run fold_left]; [tauto|].
  intros [Ha Htr] Hwf Hsel.
  assert (H : registry_wf (step h w a) /\ selectors_ok (step h w a)).
  { assert (Hsame : same_registry w (step h w a) ->
                    registry_wf (step h w a) /\ selectors_ok (step h w a)).
    { intros E. destruct (same_registry_wf _ _ E). auto. }
    destruct a as [uuid section settings|id|now|doc|now entries|mutations| |
                   |now innerHeight rects|k|now]; cbn [step].
    - apply addSectionVisibility_wf; assumption.
    - apply dropSectionVisibility_wf; assumption.
    - apply Hsame, trackUserReturn_registry.
    - apply Hsame, trackSectionVisibility_registry.
    - apply Hsame. cbn [step].
      destruct (0 <? intersectionObservers w)%nat;
        [|apply same_registry_refl].
      apply same_registry_fold. intros. apply onIntersectionEntry_registry.
    - apply Hsame. cbn [step]. apply same_registry_iter.
      intros. apply onMutations_registry.
    - apply Hsame, same_registry_iter, onScroll_registry.
    - apply Hsame, same_registry_iter, onScroll_registry.
    - apply Hsame, onAnimationFrame_registry.
    - apply Hsame. cbn [step].
      destruct (timers w !! k) as [t|]; [|apply same_registry_refl].
      eapply same_registry_trans; [|apply onTimeout_registry].
      registry_frame w.
    - apply Hsame, onBeforeUnload_registry. }
  destruct H as [H1 H2]. apply (IH (step h w a)); assumption.
Qed.

(** The registry of a new instance is consistent, and stays so. *)
Lemma run_registry (h : Host) (gid : option string) (jar : list Cookie)
    (dl : option (list Payload)) (trace : list Activation) :
  fresh_ids h (new_VnsGaUtil gid jar dl) trace ->
  registry_wf (run h (new_VnsGaUtil gid jar dl) trace)
  /\ selectors_ok (run h (new_VnsGaUtil gid jar dl) trace).
Proof.
  intros H. apply reachable_registry; [exact H | reflexivity | constructor].
Qed.

(** ** Element discovery *)

Lemma tagsOf_lookup (ops : list (nat * string)) (m : gmap nat string)
    (n : nat) :
  tagsOf ops m !! n
  = match assigned ops n with Some s => Some s | None => m !! n end.
Proof.
  revert m. induction ops as [|[k s] ops IH]; intros m; simpl; [reflexivity|].
  unfold tagsOf in *. simpl. rewrite IH.
  destruct (assigned ops n); [reflexivity|].
  destruct (Nat.eqb_spec k n) as [->|Hne].
  - apply lookup_insert_eq.
  - apply lookup_insert_ne, Hne.
Qed.

Lemma tagsOf_idem (ops : list (nat * string)) (m : gmap nat string) :
  tagsOf ops (tagsOf ops m) = tagsOf ops m.
Proof.
  apply map_eq. intros n. rewrite !tagsOf_lookup.
  destruct (assigned ops n); reflexivity.
Qed.

Lemma targetsOf_elem (ops : list (nat * string)) (X : gset nat) (n : nat) :
  n ∈ targetsOf ops X <-> In n (map fst ops) \/ n ∈ X.
Proof.
  revert X. induction ops as [|[k s] ops IH]; intros X; simpl.
  - tauto.
  - unfold targetsOf in *. cbn [fold_left fst map]. rewrite IH.
    rewrite elem_of_union, elem_of_singleton. cbn [In]. intuition congruence.
Qed.

Lemma targetsOf_idem (ops : list (nat * string)) (X : gset nat) :
  targetsOf ops (targetsOf ops X) = targetsOf ops X.
Proof.
  apply set_eq. intros n. rewrite !targetsOf_elem. tauto.
Qed.

Lemma init_once (w : World) :
  isVisibilityTrackingInitialized w = true -> _initVisibilityTracking w = w.
Proof. intros H. unfold _initVisibilityTracking. rewrite H. reflexivity. Qed.

(** C8, as the code has it.  The first call of [trackSectionVisibility]
    creates the intersection observer, the flush on [beforeunload] and the
    scroll and resize listeners, once; every call adds a mutation observer
    and scans the document again.  A second call on the same document
    changes nothing but the number of mutation observers: same observer,
    same listeners, same tags, same observation targets, same registry,
    same episodes, same events. *)
Theorem trackSectionVisibility_twice (h : Host) (doc : list nat) (w : World) :
  isVisibilityTrackingInitialized w = false ->
  let w1 := trackSectionVisibility h doc w in
  let w2 := trackSectionVisibility h doc w1 in
  intersectionObservers w1 = S (intersectionObservers w)
  /\ scrollListeners w1 = S (scrollListeners w)
  /\ resizeListeners w1 = S (resizeListeners w)
  /\ beforeunload w1 = (beforeunload w ++ [sendLastSection])%list
  /\ mutationObservers w1 = S (mutationObservers w)
  /\ w2 = with_mutationObservers (S (mutationObservers w1)) w1.
Proof.
  intros Hflag w1 w2.
  assert (E1 : w1 =
    let wi := _initVisibilityTracking w in
    let wm := with_mutationObservers (S (mutationObservers wi)) wi in
    let ops := scanOps h doc (parsed h (getRegisteredSelectors wm)) in
    with_observed (targetsOf ops (observed wm))
      (with_viewSelector (tagsOf ops (viewSelector wm)) wm)).
  { subst w1. unfold trackSectionVisibility. cbv zeta.
    rewrite scan_ops, ops_shape. reflexivity. }
  assert (E2 : w2 =
    let wm := with_mutationObservers (S (mutationObservers w1)) w1 in
    let ops := scanOps h doc (parsed h (getRegisteredSelectors wm)) in
    with_observed (targetsOf ops (observed wm))
      (with_viewSelector (tagsOf ops (viewSelector wm)) wm)).
  { subst w2. unfold trackSectionVisibility. cbv zeta.
    rewrite init_once.
    - rewrite scan_ops, ops_shape. reflexivity.
    - rewrite E1. unfold _initVisibilityTracking. rewrite Hflag.
      reflexivity. }
  rewrite E2. clear E2 w2. rewrite E1. clear E1 w1.
  unfold _initVisibilityTracking. rewrite Hflag.
  destruct w. unfold _initSectionVisibilityTracking, _initScrollDepthTracking,
    onScroll, getRegisteredSelectors.
  world_simpl. rewrite tagsOf_idem, targetsOf_idem. repeat split.
Qed.

Lemma trackSectionVisibility_twice_witness :
  let w1 := trackSectionVisibility exampleHost [1%nat] freshPage in
  isVisibilityTrackingInitialized freshPage = false
  /\ trackSectionVisibility exampleHost [1%nat] w1
     = with_mutationObservers (S (mutationObservers w1)) w1.
Proof.
  split; [reflexivity|].
  pose proof (trackSectionVisibility_twice exampleHost [1%nat] freshPage
                eq_refl) as (_ & _ & _ & _ & _ & H).
  exact H.
Defined.

(** C8, as stated, fails: a second call registers a second mutation
    observer, so the state after two calls is not the state after one. *)
Lemma second_call_adds_a_mutation_observer :
  let w0 :=
    snd (addSectionVisibility "r1" "how-it-works" noSettings freshPage) in
  let w1 := trackSectionVisibility exampleHost [1%nat] w0 in
  let w2 := trackSectionVisibility exampleHost [1%nat] w1 in
  mutationObservers w1 = 1%nat /\ mutationObservers w2 = 2%nat /\ w2 <> w1.
Proof.
  intros w0 w1 w2.
  assert (H1 : mutationObservers w1 = 1%nat) by (vm_compute; reflexivity).
  assert (H2 : mutationObservers w2 = 2%nat) by (vm_compute; reflexivity).
  repeat split; try assumption.
  intros H. rewrite H in H2. congruence.
Qed.

Lemma In_scanOps (h : Host) (scope : list nat) (selectors : list string)
    (n : nat) (s : string) :
  In (n, s) (scanOps h scope selectors)
  <-> In s selectors /\ In n scope /\ matches h n s = true.
Proof.
  unfold scanOps. rewrite in_flat_map. split.
  - intros (s' & Hs' & Hin). apply in_map_iff in Hin.
    destruct Hin as (n' & E & Hn'). injection E as -> ->.
    apply filter_In in Hn'. tauto.
  - intros (Hs & Hn & Hm). exists s. split; [assumption|].
    apply in_map_iff. exists n. split; [reflexivity|].
    apply filter_In. tauto.
Qed.

Lemma assigned_In (ops : list (nat * string)) (n : nat) (s : string) :
  assigned ops n = Some s -> In (n, s) ops.
Proof.
  induction ops as [|[k s0] ops IH]; simpl; [discriminate|].
  destruct (assigned ops n) as [s'|].
  - intros E. injection E as ->. right. apply IH. reflexivity.
  - destruct (Nat.eqb_spec k n) as [->|]; [|discriminate].
    intros E. injection E as ->. left. reflexivity.
Qed.



(** An element tagged with a selector that enters view and leaves it sends
    one [section_view] summary, whatever the rules of the selector. *)
Lemma enter_then_leave (w : World) (n : nat) (selector uuid : string)
    (now1 now2 : Z) (ratio : Q) (rect : DOMRect) (e' : IntersectionEntry) :
  viewSelector w !! n = Some selector -> str_truthy selector = true ->
  str_truthy uuid = true -> target e' = n -> isIntersecting e' = false ->
  layer (onIntersection now2 [e']
           (onIntersection now1 [mkEntry n true ratio uuid rect] w))
  = (layer w
     ++ [ViewPayload "section_view" selector (ofZ (now2 - now1))
           (num_sub
              (Math_min
                 (num_add (ratioTopOf rect) (num_mul (Fin ratio) num100))
                 num100)
              (ratioTopOf rect))])%list.
Proof.
  intros Hsel Hs Hu Ht Hi.
  unfold onIntersection. cbn [fold_left].
  set (w1 := onIntersectionEntry now1 w (mkEntry n true ratio uuid rect)).
  set (tracked :=
         {| start := now1; duration := 0;
            minScrollDepth := ratioTopOf rect;
            maxScrollDepth :=
              Math_min
                (num_add (ratioTopOf rect) (num_mul (Fin ratio) num100))
                num100;
            element := n; tracked_selector := selector; tracked_id := uuid;
            _sentEventIds := None |}).
  assert (E1 : viewSelector w1 = viewSelector w
               /\ viewId w1 !! n = Some uuid
               /\ jm_get uuid (sectionMap w1) = Some tracked
               /\ layer w1 = layer w).
  { subst w1. unfold onIntersectionEntry.
    cbn [target isIntersecting entry_uuid entry_rect intersectionRatio].
    rewrite Hsel, Hs. cbn [negb]. destruct w. unfold layer. world_simpl.
    repeat split.
    - apply lookup_insert_eq.
    - apply jm_get_set_eq. }
  destruct E1 as (Ea & Eb & Ec & Ed).
  unfold onIntersectionEntry. rewrite Ht, Hi, Ea, Hsel, Hs, Eb, Hu, Ec.
  cbn [negb start maxScrollDepth minScrollDepth tracked].
  rewrite <- Ed. generalize w1. intros w0. destruct w0.
  unfold layer, _sendInternalGAEvent. world_simpl. reflexivity.
Qed.


(** ** The scroll-depth interval *)

Lemma in_percent_fin (a : number) :
  in_percent a <-> exists q, a = Fin q /\ (0 <= q)%Q /\ (q <= 100)%Q.
Proof.
  unfold in_percent, num0, num100. split.
  - destruct a as [q| | |]; simpl; intros [H1 H2]; try contradiction.
    exists q. auto.
  - intros (q & -> & H1 & H2). simpl. auto.
Qed.

Lemma num_le_refl (a : number) : in_percent a -> num_le a a.
Proof.
  intros H. apply in_percent_fin in H. destruct H as (q & -> & _).
  simpl. lra.
Qed.

Lemma num_le_trans (a b c : number) : num_le a b -> num_le b c -> num_le a c.
Proof.
  destruct a, b, c; simpl; try tauto. intros. lra.
Qed.

Lemma Math_min_fin (a b : Q) :
  Math_min (Fin a) (Fin b) = Fin (if Qltb b a then b else a).
Proof. unfold Math_min. simpl. destruct (Qltb b a); reflexivity. Qed.

Lemma Math_max_fin (a b : Q) :
  Math_max (Fin a) (Fin b) = Fin (if Qltb a b then b else a).
Proof. unfold Math_max. simpl. destruct (Qltb a b); reflexivity. Qed.

Lemma floor_half_nonneg (q : Q) : (0 <= q)%Q -> (0 <= Qfloor (q + (1 # 2)))%Z.
Proof.
  intros H. change 0%Z with (Qfloor 0). apply Qfloor_resp_le. lra.
Qed.

Lemma floor_half_le (q : Q) (z : Z) :
  (q <= inject_Z z)%Q -> (Qfloor (q + (1 # 2)) <= z)%Z.
Proof.
  intros H.
  assert (Hlt : (inject_Z (Qfloor (q + (1 # 2))) < inject_Z (z + 1))%Q).
  { eapply Qle_lt_trans; [apply Qfloor_le|].
    rewrite inject_Z_plus. change (inject_Z 1) with 1%Q.
    generalize dependent (inject_Z z). intros x ?. lra. }
  rewrite <- Zlt_Qlt in Hlt. lia.
Qed.

(** [+x.toFixed(2)] keeps a number between 0 and 100 there. *)
Lemma toFixed2_range (q : Q) :
  (0 <= q)%Q ->
  exists q', toFixed2 (Fin q) = Fin q' /\ (0 <= q')%Q
             /\ ((q <= 100)%Q -> (q' <= 100)%Q).
Proof.
  intros H. unfold toFixed2.
  assert (E : Qltb q 0 = false) by (apply Qltb_false; exact H).
  rewrite E. eexists. split; [reflexivity|]. unfold round_half_up_100.
  split.
  - assert (Hz : (0 <= Qfloor (q * 100 + (1 # 2)))%Z)
      by (apply floor_half_nonneg; lra).
    rewrite Zle_Qle in Hz. change (inject_Z 0) with 0%Q in Hz.
    apply Qle_shift_div_l; lra.
  - intros Hq.
    assert (Hz : (Qfloor (q * 100 + (1 # 2)) <= 10000)%Z)
      by (apply floor_half_le; change (inject_Z 10000) with 10000%Q; lra).
    rewrite Zle_Qle in Hz. change (inject_Z 10000) with 10000%Q in Hz.
    apply Qle_shift_div_r; lra.
Qed.

(** [Math.max(0, -elementTop)] is a finite number, not negative, and at most
    the height when the box has not passed the top by more. *)
Lemma visibleTop_range (rect : DOMRect) :
  exists v, visibleTopOf rect = Fin v /\ (0 <= v)%Q
            /\ ((- rect_top rect <= rect_height rect)%Q ->
                (0 <= rect_height rect)%Q -> (v <= rect_height rect)%Q).
Proof.
  unfold visibleTopOf, num0. cbn [num_neg]. rewrite Math_max_fin.
  eexists. split; [reflexivity|]. cases_Q; split; intros; lra.
Qed.

Lemma ratioTop_range (rect : DOMRect) :
  (0 < rect_height rect)%Q ->
  exists q, ratioTopOf rect = Fin q /\ (0 <= q)%Q
            /\ ((- rect_top rect <= rect_height rect)%Q -> (q <= 100)%Q).
Proof.
  intros Hh. unfold ratioTopOf.
  destruct (visibleTop_range rect) as (v & -> & Hv & Hvh).
  assert (E : Qis0 (rect_height rect) = false) by (apply Qis0_false; lra).
  unfold num100. cbn [num_div]. rewrite E. cbn [num_mul].
  assert (H0 : (0 <= v / rect_height rect)%Q)
    by (apply Qle_shift_div_l; lra).
  destruct (toFixed2_range (v / rect_height rect * 100)) as (q & -> & Hq & Hq').
  { generalize dependent (v / rect_height rect)%Q. intros x ?. lra. }
  exists q. repeat split; auto.
  intros Htop. apply Hq'.
  assert (H1 : (v / rect_height rect <= 1)%Q)
    by (apply Qle_shift_div_r; [lra | specialize (Hvh Htop); lra]).
  generalize dependent (v / rect_height rect)%Q. intros x ? ?. lra.
Qed.

Lemma visibleRatio_range (rect : DOMRect) (viewportHeight : Q) :
  (0 < rect_height rect)%Q ->
  exists q, visibleRatioOf rect viewportHeight = Fin q /\ (0 <= q)%Q.
Proof.
  intros Hh. unfold visibleRatioOf.
  destruct (num_ltb (Fin (rect_bottom rect)) num0);
    [exists 0%Q; split; [reflexivity | lra]|].
  destruct (num_gtb (Fin (rect_top rect)) (Fin viewportHeight));
    [exists 0%Q; split; [reflexivity | lra]|].
  destruct (visibleTop_range rect) as (v & -> & Hv & _).
  assert (E : num_gtb (Fin (rect_height rect)) num0 = true)
    by (apply Qltb_true; exact Hh).
  rewrite E. cbn [num_sub num_neg num_add]. rewrite Math_min_fin.
  cbn [num_sub num_neg num_add]. unfold num0. rewrite Math_max_fin.
  set (x := if Qltb 0 _ then _ else 0%Q).
  assert (Hx : (0 <= x)%Q) by (subst x; cases_Q; lra).
  assert (E0 : Qis0 (rect_height rect) = false) by (apply Qis0_false; lra).
  unfold num100. cbn [num_div]. rewrite E0. cbn [num_mul Math_round].
  eexists. split; [reflexivity|].
  assert (H0 : (0 <= x / rect_height rect)%Q)
    by (apply Qle_shift_div_l; lra).
  unfold ofZ. change 0%Q with (inject_Z 0). rewrite <- Zle_Qle.
  apply floor_half_nonneg.
  generalize dependent (x / rect_height rect)%Q. intros y ?. lra.
Qed.

(** The depth of a sample of an element of positive height is a
    percentage. *)
Lemma depth_range (rect : DOMRect) (viewportHeight : Q) :
  (0 < rect_height rect)%Q -> in_percent (depthOf rect viewportHeight).
Proof.
  intros Hh. unfold depthOf.
  destruct (ratioTop_range rect Hh) as (a & -> & Ha & _).
  destruct (visibleRatio_range rect viewportHeight Hh) as (b & -> & Hb).
  unfold num100. cbn [num_add]. rewrite Math_min_fin.
  apply in_percent_fin. eexists. split; [reflexivity|]. cases_Q; lra.
Qed.

Lemma episode_ok_fin (t : SectionTrackedData) :
  episode_ok t <->
  exists lo hi,
    minScrollDepth t = Fin lo /\ maxScrollDepth t = Fin hi
    /\ (0 <= lo)%Q /\ (lo <= hi)%Q /\ (hi <= 100)%Q.
Proof.
  unfold episode_ok. rewrite !in_percent_fin. split.
  - intros ((lo & Hlo & ? & ?) & (hi & Hhi & ? & ?) & Hle).
    rewrite Hlo, Hhi in Hle. simpl in Hle. exists lo, hi. tauto.
  - intros (lo & hi & Hlo & Hhi & ? & ? & ?). rewrite Hlo, Hhi.
    repeat split.
    + exists lo. repeat split; auto. lra.
    + exists hi. repeat split; auto. lra.
    + simpl. assumption.
Qed.

(** The width of the interval of an episode is a percentage. *)
Lemma width_ok (t : SectionTrackedData) :
  episode_ok t ->
  in_percent (num_sub (maxScrollDepth t) (minScrollDepth t)).
Proof.
  intros H. apply episode_ok_fin in H.
  destruct H as (lo & hi & -> & -> & ? & ? & ?).
  apply in_percent_fin. eexists. split; [reflexivity|]. lra.
Qed.

Lemma widened_refl (t : SectionTrackedData) : episode_ok t -> widened t t.
Proof.
  intros (H1 & H2 & _).
  split; [|split]; [apply num_le_refl, H1 | apply num_le_refl, H2 |].
  reflexivity.
Qed.

Lemma widened_trans (t1 t2 t3 : SectionTrackedData) :
  widened t1 t2 -> widened t2 t3 -> widened t1 t3.
Proof.
  intros (A1 & A2 & A3) (B1 & B2 & B3). split; [|split].
  - eapply num_le_trans; eauto.
  - eapply num_le_trans; eauto.
  - congruence.
Qed.

(** The episode created when an element enters view. *)
Lemma new_episode_ok (now : Z) (n : nat) (selector id : string) (ratio : Q)
    (rect : DOMRect) :
  (0 < rect_height rect)%Q -> (- rect_top rect <= rect_height rect)%Q ->
  (0 <= ratio)%Q ->
  episode_ok
    {| start := now; duration := 0;
       minScrollDepth := ratioTopOf rect;
       maxScrollDepth :=
         Math_min (num_add (ratioTopOf rect) (num_mul (Fin ratio) num100))
           num100;
       element := n; tracked_selector := selector; tracked_id := id;
       _sentEventIds := None |}.
Proof.
  intros Hh Htop Hr. apply episode_ok_fin. cbn [minScrollDepth maxScrollDepth].
  destruct (ratioTop_range rect Hh) as (q & -> & Hq & Hq').
  specialize (Hq' Htop). unfold num100. cbn [num_mul num_add].
  rewrite Math_min_fin. do 2 eexists. split; [reflexivity|].
  split; [reflexivity|]. cases_Q; repeat split; lra.
Qed.

(** The update of the interval by one scroll sample. *)
Lemma sample_widens (t : SectionTrackedData) (rect : DOMRect)
    (viewportHeight : Q) (sent : option (list string)) :
  (0 < rect_height rect)%Q -> episode_ok t ->
  let t' :=
    mkTracked (start t) (duration t)
      (Math_min (minScrollDepth t) (ratioTopOf rect))
      (Math_max (maxScrollDepth t) (depthOf rect viewportHeight))
      (element t) (tracked_selector t) (tracked_id t) sent in
  episode_ok t' /\ widened t t'.
Proof.
  intros Hh Hok t'. subst t'. unfold widened.
  cbn [minScrollDepth maxScrollDepth element].
  apply episode_ok_fin in Hok.
  destruct Hok as (lo & hi & -> & -> & ? & ? & ?).
  destruct (ratioTop_range rect Hh) as (q & -> & Hq & _).
  pose proof (depth_range rect viewportHeight Hh) as Hd.
  apply in_percent_fin in Hd. destruct Hd as (d & -> & ? & ?).
  rewrite Math_min_fin, Math_max_fin. split.
  - apply episode_ok_fin. do 2 eexists. split; [reflexivity|].
    split; [reflexivity|]. cases_Q; repeat split; lra.
  - simpl. cases_Q; repeat split; lra.
Qed.

(** *** Episodes in the map *)

Lemma jm_get_values {V : Type} (k : string) (v : V) (m : JsMap V) :
  jm_get k m = Some v -> In v (jm_values m).
Proof.
  unfold jm_values. induction m as [|[k0 v0] m IH]; simpl; [discriminate|].
  destruct (String.eqb k k0).
  - intros E. injection E as ->. left. reflexivity.
  - intros E. right. apply IH, E.
Qed.

Lemma Forall_values_set {V : Type} (P : V -> Prop) (k : string) (v : V)
    (m : JsMap V) :
  P v -> Forall P (jm_values m) -> Forall P (jm_values (jm_set k v m)).
Proof.
  unfold jm_values. intros Hv. induction m as [|[k0 v0] m IH]; simpl.
  - intros _. repeat constructor. exact Hv.
  - intros H. apply List.Forall_cons_iff in H. destruct H as [H0 H].
    destruct (String.eqb k k0); simpl; constructor; auto.
Qed.

Lemma Forall_values_delete {V : Type} (P : V -> Prop) (k : string)
    (m : JsMap V) :
  Forall P (jm_values m) -> Forall P (jm_values (jm_delete k m)).
Proof.
  unfold jm_values, jm_delete. induction m as [|[k0 v0] m IH]; simpl.
  - auto.
  - intros H. apply List.Forall_cons_iff in H. destruct H as [H0 H].
    destruct (String.eqb k k0); simpl; [|constructor]; auto.
Qed.

Lemma episodes_ok_get (w : World) (id : string) (t : SectionTrackedData) :
  episodes_ok w -> jm_get id (sectionMap w) = Some t -> episode_ok t.
Proof.
  unfold episodes_ok. rewrite List.Forall_forall. intros H E.
  apply H. eapply jm_get_values, E.
Qed.

(** *** The relations between two states *)

Lemma appends_ok_refl (w : World) : appends_ok w w.
Proof. exists []. split; [symmetry; apply app_nil_r | constructor]. Qed.

Lemma appends_ok_trans (w1 w2 w3 : World) :
  appends_ok w1 w2 -> appends_ok w2 w3 -> appends_ok w1 w3.
Proof.
  intros (l1 & E1 & H1) (l2 & E2 & H2). exists (l1 ++ l2)%list. split.
  - rewrite E2, E1. symmetry. apply app_assoc.
  - apply List.Forall_app. split; assumption.
Qed.

Lemma widened_all_refl (w : World) : episodes_ok w -> widened_all w w.
Proof.
  intros Hok id. destruct (jm_get id (sectionMap w)) as [t|] eqn:E; [|exact I].
  apply widened_refl. eapply episodes_ok_get; eauto.
Qed.

Lemma widened_all_trans (w1 w2 w3 : World) :
  widened_all w1 w2 -> widened_all w2 w3 -> widened_all w1 w3.
Proof.
  intros H1 H2 id. specialize (H1 id). specialize (H2 id).
  destruct (jm_get id (sectionMap w1)), (jm_get id (sectionMap w2)),
    (jm_get id (sectionMap w3)); try tauto.
  eapply widened_trans; eauto.
Qed.

Lemma sound_step_refl (w : World) : sound_step w w.
Proof.
  intros Hok. split; [exact Hok|].
  split; [apply widened_all_refl, Hok | apply appends_ok_refl].
Qed.

Lemma sound_step_trans (w1 w2 w3 : World) :
  sound_step w1 w2 -> sound_step w2 w3 -> sound_step w1 w3.
Proof.
  intros H1 H2 Hok. destruct (H1 Hok) as (Hok2 & Hw1 & Ha1).
  destruct (H2 Hok2) as (Hok3 & Hw2 & Ha2).
  split; [exact Hok3|]. split.
  - eapply widened_all_trans; eauto.
  - eapply appends_ok_trans; eauto.
Qed.

Lemma sound_fold {A : Type} (f : World -> A -> World) (l : list A) :
  (forall w a, sound_step w (f w a)) ->
  forall w, sound_step w (fold_left f l w).
Proof.
  intros Hf. induction l as [|a l IH]; intros w; simpl.
  - apply sound_step_refl.
  - eapply sound_step_trans; [apply Hf | apply IH].
Qed.

Lemma measurable_widened (rects : nat -> DOMRect) (w w' : World) :
  widened_all w w' -> measurable rects w -> measurable rects w'.
Proof.
  intros Hw Hm id t' Ht'. specialize (Hw id). rewrite Ht' in Hw.
  destruct (jm_get id (sectionMap w)) as [t|] eqn:Ht; [|contradiction].
  destruct Hw as (_ & _ & ->). exact (Hm id t Ht).
Qed.

(** A loop whose body is sound as long as the measured elements have
    a positive height. *)
Lemma sound_fold_measurable {A : Type} (rects : nat -> DOMRect)
    (f : World -> A -> World) (l : list A) :
  (forall w a, measurable rects w -> sound_step w (f w a)) ->
  forall w, measurable rects w -> sound_step w (fold_left f l w).
Proof.
  intros Hf. induction l as [|a l IH]; intros w Hm; simpl.
  - apply sound_step_refl.
  - intros Hok. destruct (Hf w a Hm Hok) as (Hok1 & Hw1 & Ha1).
    destruct (IH (f w a) (measurable_widened rects _ _ Hw1 Hm) Hok1)
      as (Hok2 & Hw2 & Ha2).
    split; [exact Hok2|]. split.
    + eapply widened_all_trans; eauto.
    + eapply appends_ok_trans; eauto.
Qed.

Lemma same_episodes_refl (w : World) : same_episodes w w.
Proof. split; reflexivity. Qed.

Lemma same_episodes_trans (w1 w2 w3 : World) :
  same_episodes w1 w2 -> same_episodes w2 w3 -> same_episodes w1 w3.
Proof. intros [A B] [C D]. split; congruence. Qed.

Lemma same_fold {A : Type} (f : World -> A -> World) (l : list A) :
  (forall w a, same_episodes w (f w a)) ->
  forall w, same_episodes w (fold_left f l w).
Proof.
  intros Hf. induction l as [|a l IH]; intros w; simpl.
  - apply same_episodes_refl.
  - eapply same_episodes_trans; [apply Hf | apply IH].
Qed.

Lemma same_iter (f : World -> World) (n : nat) :
  (forall w, same_episodes w (f w)) ->
  forall w, same_episodes w (Nat.iter n f w).
Proof.
  intros Hf. induction n as [|n IH]; intros w; simpl.
  - apply same_episodes_refl.
  - eapply same_episodes_trans; [apply IH | apply Hf].
Qed.

Lemma same_sound (w w' : World) : same_episodes w w' -> sound_step w w'.
Proof.
  intros [Hm Hd] Hok. unfold episodes_ok, widened_all, appends_ok, layer.
  rewrite Hm, Hd. split; [exact Hok|]. split.
  - apply widened_all_refl, Hok.
  - apply appends_ok_refl.
Qed.

(** *** The callbacks that keep the episodes *)

Lemma send_layer (p : Payload) (w : World) :
  layer (_sendInternalGAEvent p w) = (layer w ++ [p])%list.
Proof. destruct w; reflexivity. Qed.

Lemma send_sectionMap (p : Payload) (w : World) :
  sectionMap (_sendInternalGAEvent p w) = sectionMap w.
Proof. destruct w; reflexivity. Qed.

Lemma with_sectionMap_sectionMap (m : JsMap SectionTrackedData) (w : World) :
  sectionMap (with_sectionMap m w) = m.
Proof. destruct w; reflexivity. Qed.

Lemma with_sectionMap_layer (m : JsMap SectionTrackedData) (w : World) :
  layer (with_sectionMap m w) = layer w.
Proof. destruct w; reflexivity. Qed.

Lemma send_sound (p : Payload) (w : World) :
  payload_ok p -> sound_step w (_sendInternalGAEvent p w).
Proof.
  intros Hp Hok. unfold episodes_ok, widened_all.
  rewrite send_sectionMap. split; [exact Hok|]. split.
  - apply widened_all_refl, Hok.
  - exists [p]. split; [apply send_layer|].
    constructor; [exact Hp | constructor].
Qed.

(** Replacing an episode by one with a wider interval. *)
Lemma set_sound (w w' : World) (id : string) (t t' : SectionTrackedData) :
  jm_get id (sectionMap w) = Some t ->
  sectionMap w' = jm_set id t' (sectionMap w) ->
  (episode_ok t -> episode_ok t' /\ widened t t') ->
  (episodes_ok w -> appends_ok w w') ->
  sound_step w w'.
Proof.
  intros Hget Hm Ht Ha Hok.
  destruct (Ht (episodes_ok_get w id t Hok Hget)) as [Hok' Hw].
  split; [|split; [|apply Ha, Hok]].
  - unfold episodes_ok. rewrite Hm. apply Forall_values_set; assumption.
  - intros id0. rewrite Hm.
    destruct (String.eqb_spec id0 id) as [->|Hne].
    + rewrite Hget, jm_get_set_eq. exact Hw.
    + rewrite jm_get_set_ne by exact Hne.
      destruct (jm_get id0 (sectionMap w)) as [t0|] eqn:E; [|exact I].
      apply widened_refl. eapply episodes_ok_get; eauto.
Qed.

Lemma onTimeout_sound (t : Timer) (w : World) : sound_step w (onTimeout t w).
Proof.
  unfold onTimeout.
  destruct (jm_get (timer_episode t) (sectionMap w)) as [s|] eqn:E;
    [|apply sound_step_refl].
  destruct (includes _ _); [apply sound_step_refl|].
  destruct (num_ltb _ _); [apply sound_step_refl|].
  eapply set_sound; [exact E | | |].
  - rewrite with_sectionMap_sectionMap, send_sectionMap. reflexivity.
  - intros Hs. split; [exact Hs | exact (widened_refl s Hs)].
  - intros Hok.
    eexists. rewrite with_sectionMap_layer, send_layer.
    split; [reflexivity|]. constructor; [|constructor].
    apply width_ok. exact (episodes_ok_get w _ s Hok E).
Qed.

Lemma scrollRule_sound (id : string) (sentEventIds : list string)
    (sectionView : number) (elapsed : Z) (w : World)
    (setting : SectionVisibilitySettings) :
  in_percent sectionView ->
  sound_step w (scrollRule id sentEventIds sectionView elapsed w setting).
Proof.
  intros Hv. unfold scrollRule.
  destruct (includes _ _); [apply sound_step_refl|].
  destruct (num_ltb sectionView _); [apply sound_step_refl|].
  destruct (num_ltb (ofZ elapsed) _); [apply sound_step_refl|].
  rewrite send_sectionMap.
  destruct (jm_get id (sectionMap w)) as [s|] eqn:E.
  - eapply set_sound; [exact E | | |].
    + rewrite with_sectionMap_sectionMap. reflexivity.
    + intros Hs. split; [exact Hs | exact (widened_refl s Hs)].
    + intros _. eexists. rewrite with_sectionMap_layer, send_layer.
      split; [reflexivity|]. constructor; [exact Hv | constructor].
  - apply send_sound. exact Hv.
Qed.

Lemma handleElementScroll_sound (now : Z) (viewportHeight : Q)
    (rects : nat -> DOMRect) (id : string) (w : World) :
  measurable rects w ->
  sound_step w (handleElementScroll now viewportHeight rects id w).
Proof.
  intros Hr. unfold handleElementScroll.
  destruct (jm_get id (sectionMap w)) as [s|] eqn:E;
    [|apply sound_step_refl].
  specialize (Hr id s E).
  destruct (viewSelector w !! element s) as [selector|];
    [|apply sound_step_refl].
  destruct (negb (str_truthy selector)); [apply sound_step_refl|].
  cbv zeta.
  set (s1 := mkTracked _ _ _ _ _ _ _ _).
  set (w1 := with_sectionMap (jm_set id s1 (sectionMap w)) w).
  assert (H1 : sound_step w w1).
  { eapply set_sound; [exact E | | |].
    - apply with_sectionMap_sectionMap.
    - intros Hs. apply sample_widens; [exact Hr | exact Hs].
    - intros _. exists []. subst w1. rewrite with_sectionMap_layer.
      split; [symmetry; apply app_nil_r | constructor]. }
  eapply sound_step_trans; [exact H1|].
  intros Hok1.
  assert (Hp : in_percent (num_sub (maxScrollDepth s1) (minScrollDepth s1))).
  { apply width_ok. apply (episodes_ok_get w1 id); [exact Hok1|].
    subst w1. rewrite with_sectionMap_sectionMap. apply jm_get_set_eq. }
  revert Hok1. apply sound_fold. intros w0 setting.
  apply scrollRule_sound, Hp.
Qed.

Lemma onAnimationFrame_sound (now : Z) (viewportHeight : Q)
    (rects : nat -> DOMRect) (w : World) :
  measurable rects w ->
  sound_step w (onAnimationFrame now viewportHeight rects w).
Proof.
  intros Hr. unfold onAnimationFrame.
  destruct (ticking w); [|apply sound_step_refl].
  eapply sound_step_trans.
  - apply same_sound. instantiate (1 := with_ticking false w).
    destruct w; split; reflexivity.
  - apply (sound_fold_measurable rects).
    + intros w0 s. apply handleElementScroll_sound.
    + destruct w; exact Hr.
Qed.

Lemma onSendLastSection_sound (now : Z) (w : World) :
  sound_step w (onSendLastSection now w).
Proof.
  intros Hok. unfold onSendLastSection.
  set (g := fun s : SectionTrackedData =>
              ViewPayload "section_view" (tracked_selector s)
                (ofZ (now - start s))
                (num_sub (maxScrollDepth s) (minScrollDepth s))).
  assert (Hf : forall l w0,
             sectionMap (fold_left (fun w' s => _sendInternalGAEvent (g s) w')
                           l w0) = sectionMap w0
             /\ layer (fold_left (fun w' s => _sendInternalGAEvent (g s) w')
                         l w0) = (layer w0 ++ map g l)%list).
  { induction l as [|s l IH]; intros w0; cbn [fold_left map].
    - split; [reflexivity | symmetry; apply app_nil_r].
    - destruct (IH (_sendInternalGAEvent (g s) w0)) as [-> ->].
      rewrite send_sectionMap, send_layer, <- app_assoc. split; reflexivity. }
  destruct (Hf (jm_values (sectionMap w)) w) as [Hm Hl].
  change (fold_left _ _ w)
    with (fold_left (fun w' s => _sendInternalGAEvent (g s) w')
            (jm_values (sectionMap w)) w).
  split; [|split].
  - unfold episodes_ok. rewrite Hm. exact Hok.
  - unfold widened_all. rewrite Hm. apply widened_all_refl, Hok.
  - eexists. split; [exact Hl|]. apply List.Forall_map.
    unfold episodes_ok in Hok. revert Hok. apply List.Forall_impl.
    intros s Hs. apply width_ok, Hs.
Qed.

Lemma onHandleCloseTab_same (h : Host) (now : Z) (w : World) :
  same_episodes w (onHandleCloseTab h now w).
Proof. destruct w; split; reflexivity. Qed.

Lemma onBeforeUnload_sound (h : Host) (now : Z) (w : World) :
  sound_step w (onBeforeUnload h now w).
Proof.
  unfold onBeforeUnload. apply sound_fold. intros w0 [|].
  - apply onSendLastSection_sound.
  - apply same_sound, onHandleCloseTab_same.
Qed.

Lemma trackUserReturn_sound (h : Host) (now : Z) (w : World) :
  sound_step w (trackUserReturn h now w).
Proof.
  unfold trackUserReturn.
  destruct (_readCookie h now (sessionKey w) w) as [lastVisit|];
    [|apply sound_step_refl].
  destruct (negb (str_truthy lastVisit)); [apply sound_step_refl|].
  eapply sound_step_trans;
    [apply (send_sound
              (ReturnVisitPayload (num_sub (ofZ now) (Number h lastVisit)))
              w I)|].
  apply same_sound.
  generalize (_sendInternalGAEvent
                (ReturnVisitPayload (num_sub (ofZ now) (Number h lastVisit)))
                w).
  intros w0. destruct w0; split; reflexivity.
Qed.

Lemma addSectionVisibility_same (uuid section : string)
    (settings : PartialSettings) (w : World) :
  same_episodes w (snd (addSectionVisibility uuid section settings w)).
Proof. destruct w; split; reflexivity. Qed.

Lemma dropSectionVisibility_same (id : string) (w : World) :
  same_episodes w (dropSectionVisibility id w).
Proof.
  unfold dropSectionVisibility.
  destruct (jm_get id (sectionVisibility w)) as [r|];
    [|apply same_episodes_refl].
  cbv zeta.
  destruct (jm_get _ (selectorVisibilityMap _)) as [l|];
    [destruct (length l <=? 0)%nat|]; destruct w; split; reflexivity.
Qed.

Lemma trackSectionView_same (n : nat) (s : string) (w : World) :
  same_episodes w (_trackSectionView n s w).
Proof. destruct w; split; reflexivity. Qed.

Lemma ops_same (ops : list (nat * string)) (w : World) :
  same_episodes w (fold_left trackOp ops w).
Proof.
  apply same_fold. intros w0 op. unfold trackOp. apply trackSectionView_same.
Qed.

Lemma initVisibilityTracking_same (w : World) :
  same_episodes w (_initVisibilityTracking w).
Proof.
  unfold _initVisibilityTracking.
  destruct (isVisibilityTrackingInitialized w) eqn:E;
    [apply same_episodes_refl|].
  unfold _initScrollDepthTracking, _initSectionVisibilityTracking, onScroll.
  destruct w. world_simpl. split; reflexivity.
Qed.

Lemma trackSectionVisibility_same (h : Host) (doc : list nat) (w : World) :
  same_episodes w (trackSectionVisibility h doc w).
Proof.
  rewrite trackSectionVisibility_ops. cbv zeta.
  eapply same_episodes_trans; [apply initVisibilityTracking_same|].
  eapply same_episodes_trans; [|apply ops_same].
  generalize (_initVisibilityTracking w). intros w0.
  destruct w0; split; reflexivity.
Qed.

Lemma onMutations_same (h : Host) (mutations : list (list AddedNode))
    (w : World) :
  same_episodes w (onMutations h mutations w).
Proof. rewrite onMutations_ops. apply ops_same. Qed.

Lemma onScroll_same (w : World) : same_episodes w (onScroll w).
Proof.
  unfold onScroll. destruct (ticking w); destruct w; split; reflexivity.
Qed.

(** *** The intersection callback *)

(** The summary sent when a tracked element leaves view. *)
Lemma leave_payload (now : Z) (w : World) (e : IntersectionEntry)
    (selector outId : string) (t : SectionTrackedData) :
  isIntersecting e = false ->
  viewSelector w !! target e = Some selector -> str_truthy selector = true ->
  viewId w !! target e = Some outId -> str_truthy outId = true ->
  jm_get outId (sectionMap w) = Some t ->
  layer (onIntersectionEntry now w e)
  = (layer w
     ++ [ViewPayload "section_view" selector (ofZ (now - start t))
           (num_sub (maxScrollDepth t) (minScrollDepth t))])%list
  /\ sectionMap (onIntersectionEntry now w e)
     = jm_delete outId (sectionMap w).
Proof.
  intros Hi Hs Hst Ho Hot Ht. unfold onIntersectionEntry.
  rewrite Hs, Hst, Hi, Ho, Hot, Ht. cbn [negb].
  destruct w; split; reflexivity.
Qed.

(** One entry: the episodes stay in range, the events are in range, and an
    episode that is neither started nor ended by the entry is untouched. *)
Lemma onIntersectionEntry_ok (now : Z) (w w0 : World) (e : IntersectionEntry) :
  regular_entry w0 e -> episodes_ok w ->
  episodes_ok (onIntersectionEntry now w e)
  /\ appends_ok w (onIntersectionEntry now w e)
  /\ forall id,
       jm_get id (sectionMap (onIntersectionEntry now w e))
       = jm_get id (sectionMap w)
       \/ jm_get id (sectionMap (onIntersectionEntry now w e)) = None
       \/ jm_get id (sectionMap w0) = None.
Proof.
  intros Hreg Hok.
  assert (Hsame : episodes_ok w /\ appends_ok w w
                  /\ forall id, jm_get id (sectionMap w)
                                = jm_get id (sectionMap w)
                                \/ jm_get id (sectionMap w) = None
                                \/ jm_get id (sectionMap w0) = None).
  { split; [exact Hok|]. split; [apply appends_ok_refl | auto]. }
  unfold onIntersectionEntry.
  destruct (viewSelector w !! target e) as [selector|] eqn:Hs; [|exact Hsame].
  destruct (str_truthy selector) eqn:Hst; cbn [negb]; [|exact Hsame].
  destruct (isIntersecting e) eqn:Hi.
  - destruct (Hreg Hi) as (Hh & Htop & Hr & Hfresh). cbv zeta.
    set (t := mkTracked _ _ _ _ _ _ _ _).
    assert (Ht : episode_ok t) by (apply new_episode_ok; assumption).
    destruct w. unfold episodes_ok, appends_ok, layer in *.
    world_simpl. world_simpl_in Hok. split; [|split].
    + apply Forall_values_set; assumption.
    + exists []. split; [symmetry; apply app_nil_r | constructor].
    + intros id. destruct (String.eqb_spec id (entry_uuid e)) as [->|Hne].
      * right. right. exact Hfresh.
      * left. apply jm_get_set_ne, Hne.
  - destruct (viewId w !! target e) as [outId|] eqn:Ho; [|exact Hsame].
    destruct (str_truthy outId) eqn:Hot; cbn [negb]; [|exact Hsame].
    destruct (jm_get outId (sectionMap w)) as [t|] eqn:Ht; [|exact Hsame].
    cbv zeta.
    set (p := ViewPayload _ _ _ _).
    split; [|split].
    + unfold episodes_ok. rewrite with_sectionMap_sectionMap, send_sectionMap.
      apply Forall_values_delete, Hok.
    + exists [p]. rewrite with_sectionMap_layer, send_layer.
      split; [reflexivity|]. constructor; [|constructor].
      apply width_ok. exact (episodes_ok_get w _ t Hok Ht).
    + intros id. rewrite send_sectionMap.
      destruct (String.eqb_spec id outId) as [->|Hne].
      * right. left. apply jm_get_delete_eq.
      * left. apply jm_get_delete_ne, Hne.
Qed.

Lemma onIntersection_ok (now : Z) (entries : list IntersectionEntry)
    (w : World) :
  Forall (regular_entry w) entries -> episodes_ok w ->
  episodes_ok (onIntersection now entries w)
  /\ appends_ok w (onIntersection now entries w)
  /\ forall id t t',
       jm_get id (sectionMap w) = Some t ->
       jm_get id (sectionMap (onIntersection now entries w)) = Some t' ->
       t' = t.
Proof.
  intros Hreg Hok. unfold onIntersection.
  assert (H : forall w1,
            episodes_ok w1 -> appends_ok w w1 ->
            (forall id t, jm_get id (sectionMap w) = Some t ->
               jm_get id (sectionMap w1) = Some t
               \/ jm_get id (sectionMap w1) = None) ->
            let w' := fold_left (onIntersectionEntry now) entries w1 in
            episodes_ok w' /\ appends_ok w w'
            /\ (forall id t, jm_get id (sectionMap w) = Some t ->
                  jm_get id (sectionMap w') = Some t
                  \/ jm_get id (sectionMap w') = None)).
  { induction Hreg as [|e entries He _ IH]; intros w1 Hok1 Ha1 Hk1;
      cbn [fold_left].
    - auto.
    - destruct (onIntersectionEntry_ok now w1 w e He Hok1)
        as (Hok2 & Ha2 & Hk2).
      apply IH; [exact Hok2 | eapply appends_ok_trans; eauto |].
      intros id t Ht. destruct (Hk2 id) as [E|[E|E]].
      + rewrite E. apply Hk1, Ht.
      + right. exact E.
      + congruence. }
  destruct (H w Hok (appends_ok_refl w) (fun id t Ht => or_introl Ht))
    as (H1 & H2 & H3).
  split; [exact H1|]. split; [exact H2|].
  intros id t t' Ht Ht'. destruct (H3 id t Ht) as [E|E]; congruence.
Qed.

Lemma sound_result (w w' : World) :
  sound_step w w' -> episodes_ok w ->
  episodes_ok w'
  /\ (forall id t t',
        jm_get id (sectionMap w) = Some t ->
        jm_get id (sectionMap w') = Some t' -> widened t t')
  /\ appends_ok w w'.
Proof.
  intros H Hok. destruct (H Hok) as (H1 & H2 & H3).
  split; [exact H1|]. split; [|exact H3].
  intros id t t' Ht Ht'. specialize (H2 id). rewrite Ht, Ht' in H2. exact H2.
Qed.

(** One activation with regular geometry keeps the intervals in range,
    only widens the interval of a live episode, and sends only depths in
    range. *)
Lemma step_ok (h : Host) (w : World) (a : Activation) :
  episodes_ok w -> regular w a ->
  episodes_ok (step h w a)
  /\ (forall id t t',
        jm_get id (sectionMap w) = Some t ->
        jm_get id (sectionMap (step h w a)) = Some t' -> widened t t')
  /\ appends_ok w (step h w a).
Proof.
  intros Hok Hreg.
  destruct a as [uuid section settings|id|now|doc|now entries|mutations| |
                 |now innerHeight rects|k|now]; cbn [step regular] in *.
  - apply sound_result, Hok. apply same_sound, addSectionVisibility_same.
  - apply sound_result, Hok. apply same_sound, dropSectionVisibility_same.
  - apply sound_result, Hok. apply trackUserReturn_sound.
  - apply sound_result, Hok. apply same_sound, trackSectionVisibility_same.
  - destruct (0 <? intersectionObservers w)%nat;
      [|apply sound_result, Hok; apply sound_step_refl].
    destruct (onIntersection_ok now entries w Hreg Hok) as (H1 & H2 & H3).
    split; [exact H1|]. split; [|exact H2].
    intros id t t' Ht Ht'. rewrite (H3 id t t' Ht Ht').
    apply widened_refl. exact (episodes_ok_get w id t Hok Ht).
  - apply sound_result, Hok. apply same_sound, same_iter.
    intros w0. apply onMutations_same.
  - apply sound_result, Hok. apply same_sound, same_iter, onScroll_same.
  - apply sound_result, Hok. apply same_sound, same_iter, onScroll_same.
  - apply sound_result, Hok. apply onAnimationFrame_sound, Hreg.
  - apply sound_result, Hok.
    destruct (timers w !! k) as [t|]; [|apply sound_step_refl].
    eapply sound_step_trans; [|apply onTimeout_sound].
    apply same_sound. destruct w; split; reflexivity.
  - apply sound_result, Hok. apply onBeforeUnload_sound.
Qed.

Lemma regular_trace_app (h : Host) (trace : list Activation) (a : Activation)
    (w : World) :
  regular_trace h w (trace ++ [a])
  <-> regular_trace h w trace /\ regular (run h w trace) a.
Proof.
  revert w. induction trace as [|b trace IH]; intros w;
    cbn [app regular_trace run fold_left].
  - tauto.
  - unfold run in IH. rewrite IH. tauto.
Qed.

Lemma run_ok (h : Host) (trace : list Activation) (w : World) :
  regular_trace h w trace -> episodes_ok w -> episodes_ok (run h w trace).
Proof.
  revert w. induction trace as [|a trace IH]; intros w;
    cbn [regular_trace run fold_left]; [tauto|].
  intros [Ha Htr] Hok. apply IH; [exact Htr|].
  apply step_ok; assumption.
Qed.

(** X26.  The scroll interval on regular geometry.  Along every run from
    a new instance in which every entry that reports an element as
    intersecting brings a box of positive height, not further above the top
    of the viewport than that height, an intersection ratio that is not
    negative, and a drawn UUID that names no live episode, and in which
    every scroll sample finds a positive height for the element of each
    live episode: the bounds of every live episode are percentages with
    [minScrollDepth <= maxScrollDepth]; an activation never raises the
    minimum nor lowers the maximum of a live episode; every depth it sends
    is a percentage; and the summary sent when an element leaves view
    carries [maxScrollDepth - minScrollDepth] of its episode, a
    percentage. *)
Theorem scroll_interval_regular (h : Host) (gid : option string)
    (jar : list Cookie) (dl : option (list Payload))
    (trace : list Activation) (a : Activation) :
  regular_trace h (new_VnsGaUtil gid jar dl) (trace ++ [a]) ->
  let w := run h (new_VnsGaUtil gid jar dl) trace in
  let w' := step h w a in
  (forall id t, jm_get id (sectionMap w) = Some t -> episode_ok t)
  /\ (forall id t t',
        jm_get id (sectionMap w) = Some t ->
        jm_get id (sectionMap w') = Some t' ->
        num_le (minScrollDepth t') (minScrollDepth t)
        /\ num_le (maxScrollDepth t) (maxScrollDepth t'))
  /\ (exists news,
        layer w' = (layer w ++ news)%list /\ Forall payload_ok news)
  /\ (forall now e selector outId t,
        isIntersecting e = false ->
        viewSelector w !! target e = Some selector ->
        str_truthy selector = true ->
        viewId w !! target e = Some outId -> str_truthy outId = true ->
        jm_get outId (sectionMap w) = Some t ->
        layer (onIntersectionEntry now w e)
        = (layer w
           ++ [ViewPayload "section_view" selector (ofZ (now - start t))
                 (num_sub (maxScrollDepth t) (minScrollDepth t))])%list
        /\ in_percent (num_sub (maxScrollDepth t) (minScrollDepth t))).
Proof.
  intros Hreg w w'. apply regular_trace_app in Hreg.
  destruct Hreg as [Htr Ha].
  assert (Hok : episodes_ok w).
  { apply run_ok; [exact Htr | constructor]. }
  destruct (step_ok h w a Hok Ha) as (H1 & H2 & H3).
  split; [intros id t; apply episodes_ok_get, Hok|].
  split; [intros id t t' Ht Ht'; split; apply (H2 id t t' Ht Ht')|].
  split; [exact H3|].
  intros now e selector outId t Hi Hs Hst Ho Hot Ht. split.
  - exact (proj1 (leave_payload now w e selector outId t Hi Hs Hst Ho Hot
                    Ht)).
  - apply width_ok. exact (episodes_ok_get w outId t Hok Ht).
Qed.

Lemma scroll_interval_regular_witness :
  regular_trace exampleHost (new_VnsGaUtil (Some "G-1") [] None)
    (scrolledIntoView ++ [AnimationFrame 2500 800 (fun _ => rectAt 0)])
  /\ forall id t,
       jm_get id
         (sectionMap
            (run exampleHost (new_VnsGaUtil (Some "G-1") [] None)
               scrolledIntoView)) = Some t ->
       episode_ok t.
Proof.
  assert (Hreg : regular_trace exampleHost (new_VnsGaUtil (Some "G-1") [] None)
            (scrolledIntoView
             ++ [AnimationFrame 2500 800 (fun _ => rectAt 0)])).
  { vm_compute. repeat split; try discriminate.
    constructor; [|constructor]. intros _. repeat split; discriminate. }
  split; [exact Hreg|].
  exact (proj1 (scroll_interval_regular exampleHost (Some "G-1") [] None
                  scrolledIntoView
                  (AnimationFrame 2500 800 (fun _ => rectAt 0)) Hreg)).
Defined.

(** C5 fails on the code.  The intersection callback stores
    [minScrollDepth = ratioTop] without a cap, where the maximum beside it
    is capped at 100.  On the page [staleBox] the observer reports the
    section as intersecting and the callback reads a box two heights above
    the viewport: the episode starts with a minimum of 200 above its maximum
    of 100, and the summary sent when the section leaves view carries a
    depth of -100.  On the page [emptySection] the section has height 0:
    the division by the height gives [NaN], and the summary carries
    [NaN]. *)
Theorem scroll_depth_not_a_percentage :
  (exists lo hi q,
     (minScrollDepth <$> jm_get "e1"
        (sectionMap (run exampleHost freshPage (take 4 staleBox))))
     = Some (Fin lo)
     /\ (maxScrollDepth <$> jm_get "e1"
          (sectionMap (run exampleHost freshPage (take 4 staleBox))))
        = Some (Fin hi)
     /\ (lo == 200)%Q /\ (hi == 100)%Q
     /\ depths (run exampleHost freshPage staleBox) = [Fin q]
     /\ (q == -100)%Q
     /\ ~ in_percent (Fin lo) /\ ~ in_percent (Fin q))
  /\ depths (run exampleHost freshPage emptySection) = [NaN]
  /\ ~ in_percent NaN.
Proof.
  split.
  - eexists. eexists. eexists.
    split; [vm_compute; reflexivity|].
    split; [vm_compute; reflexivity|].
    split; [reflexivity|].
    split; [reflexivity|].
    split; [vm_compute; reflexivity|].
    split; [reflexivity|].
    split; intros [H1 H2]; cbn [num_le num0 num100] in H1, H2;
      vm_compute in H1, H2; auto.
  - split; [vm_compute; reflexivity|]. intros [H _]. exact H.
Qed.

(** * Further properties of the class *)

(** ** What an activation writes *)

Lemma modifies_refl (fs : list Field) (w : World) : modifies fs w w.
Proof. intros [] _; reflexivity. Qed.

Lemma modifies_trans (fs : list Field) (w1 w2 w3 : World) :
  modifies fs w1 w2 -> modifies fs w2 w3 -> modifies fs w1 w3.
Proof.
  intros H1 H2 f Hf. specialize (H1 f Hf). specialize (H2 f Hf).
  destruct f; cbn [field_same] in *; congruence.
Qed.

Lemma modifies_weaken (fs fs' : list Field) (w w' : World) :
  (forall f, In f fs -> In f fs') -> modifies fs w w' -> modifies fs' w w'.
Proof. intros Hin H f Hf. apply H. intros Hf'. apply Hf, Hin, Hf'. Qed.

Lemma modifies_fold {A : Type} (fs : list Field) (f : World -> A -> World)
    (l : list A) :
  (forall w a, modifies fs w (f w a)) ->
  forall w, modifies fs w (fold_left f l w).
Proof.
  intros Hf. induction l as [|a l IH]; intros w; cbn [fold_left].
  - apply modifies_refl.
  - eapply modifies_trans; [apply Hf | apply IH].
Qed.

Lemma modifies_iter (fs : list Field) (f : World -> World) (n : nat) :
  (forall w, modifies fs w (f w)) ->
  forall w, modifies fs w (Nat.iter n f w).
Proof.
  intros Hf. induction n as [|n IH]; intros w; cbn [Nat.iter nat_rect].
  - apply modifies_refl.
  - eapply modifies_trans; [apply IH | apply Hf].
Qed.

(** A state built from [w] by setters: every field outside the list is
    read off the record, every field in it is excused. *)
Ltac footprint w :=
  let f := fresh "f" in
  let Hf := fresh "Hf" in
  intros f Hf; destruct f;
  try (destruct w; reflexivity);
  exfalso; apply Hf; cbn [footprint In]; tauto.

Lemma send_modifies (p : Payload) (w : World) :
  modifies [F_dataLayer] w (_sendInternalGAEvent p w).
Proof. footprint w. Qed.

Lemma onIntersectionEntry_modifies (now : Z) (w : World)
    (e : IntersectionEntry) :
  modifies [F_viewId; F_sectionMap; F_timers; F_dataLayer] w
    (onIntersectionEntry now w e).
Proof.
  unfold onIntersectionEntry.
  destruct (viewSelector w !! target e) as [selector|];
    [|apply modifies_refl].
  destruct (negb (str_truthy selector)); [apply modifies_refl|].
  destruct (isIntersecting e); [footprint w|].
  destruct (viewId w !! target e) as [outId|]; [|apply modifies_refl].
  destruct (negb (str_truthy outId)); [apply modifies_refl|].
  destruct (jm_get outId (sectionMap w)); [footprint w|].
  apply modifies_refl.
Qed.

Lemma onTimeout_modifies (t : Timer) (w : World) :
  modifies [F_sectionMap; F_dataLayer] w (onTimeout t w).
Proof.
  unfold onTimeout.
  destruct (jm_get (timer_episode t) (sectionMap w)); [|apply modifies_refl].
  destruct (includes _ _); [apply modifies_refl|].
  destruct (num_ltb _ _); [apply modifies_refl | footprint w].
Qed.

Lemma scrollRule_modifies (id : string) (sentEventIds : list string)
    (sectionView : number) (elapsed : Z) (w : World)
    (setting : SectionVisibilitySettings) :
  modifies [F_sectionMap; F_dataLayer] w
    (scrollRule id sentEventIds sectionView elapsed w setting).
Proof.
  unfold scrollRule.
  destruct (includes _ _); [apply modifies_refl|].
  destruct (num_ltb sectionView _); [apply modifies_refl|].
  destruct (num_ltb (ofZ elapsed) _); [apply modifies_refl|].
  cbv zeta. destruct (jm_get id (sectionMap _)); footprint w.
Qed.

Lemma handleElementScroll_modifies (now : Z) (viewportHeight : Q)
    (rects : nat -> DOMRect) (id : string) (w : World) :
  modifies [F_sectionMap; F_dataLayer] w
    (handleElementScroll now viewportHeight rects id w).
Proof.
  unfold handleElementScroll.
  destruct (jm_get id (sectionMap w)) as [s|]; [|apply modifies_refl].
  destruct (viewSelector w !! element s) as [selector|];
    [|apply modifies_refl].
  destruct (negb (str_truthy selector)); [apply modifies_refl|].
  cbv zeta.
  eapply modifies_trans;
    [|apply modifies_fold; intros; apply scrollRule_modifies].
  footprint w.
Qed.

Lemma onAnimationFrame_modifies (now : Z) (viewportHeight : Q)
    (rects : nat -> DOMRect) (w : World) :
  modifies [F_ticking; F_sectionMap; F_dataLayer] w
    (onAnimationFrame now viewportHeight rects w).
Proof.
  unfold onAnimationFrame.
  destruct (ticking w); [|apply modifies_refl]. cbv zeta.
  eapply modifies_trans; [instantiate (1 := with_ticking false w)|].
  - footprint w.
  - apply modifies_fold. intros w0 s.
    eapply modifies_weaken; [|apply handleElementScroll_modifies].
    cbn [In]. tauto.
Qed.

Lemma onBeforeUnload_modifies (h : Host) (now : Z) (w : World) :
  modifies [F_dataLayer; F_cookies] w (onBeforeUnload h now w).
Proof.
  unfold onBeforeUnload. apply modifies_fold. intros w0 [|].
  - unfold onSendLastSection. apply modifies_fold. intros w1 s.
    footprint w1.
  - footprint w0.
Qed.

Lemma trackUserReturn_modifies (h : Host) (now : Z) (w : World) :
  modifies [F_dataLayer; F_beforeunload] w (trackUserReturn h now w).
Proof.
  unfold trackUserReturn.
  destruct (_readCookie h now (sessionKey w) w) as [lastVisit|];
    [|apply modifies_refl].
  destruct (negb (str_truthy lastVisit)); [apply modifies_refl | footprint w].
Qed.

Lemma dropSectionVisibility_modifies (id : string) (w : World) :
  modifies [F_sectionVisibility; F_selectorVisibilityMap] w
    (dropSectionVisibility id w).
Proof.
  unfold dropSectionVisibility.
  destruct (jm_get id (sectionVisibility w)); [|apply modifies_refl].
  cbv zeta.
  destruct (jm_get _ (selectorVisibilityMap _)) as [l|];
    [destruct (length l <=? 0)%nat|]; footprint w.
Qed.

Lemma ops_modifies (ops : list (nat * string)) (w : World) :
  modifies [F_viewSelector; F_observed] w (fold_left trackOp ops w).
Proof.
  apply modifies_fold. intros w0 op. unfold trackOp. footprint w0.
Qed.

Lemma trackSectionVisibility_modifies (h : Host) (doc : list nat)
    (w : World) :
  modifies (footprint (CallTrackSectionVisibility doc)) w
    (trackSectionVisibility h doc w).
Proof.
  rewrite trackSectionVisibility_ops. cbv zeta.
  eapply modifies_trans;
    [|eapply modifies_weaken; [|apply ops_modifies];
      cbn [footprint In]; intros f [<-|[<-|[]]]; tauto].
  unfold _initVisibilityTracking.
  destruct (isVisibilityTrackingInitialized w); [footprint w|].
  unfold _initScrollDepthTracking, _initSectionVisibilityTracking, onScroll.
  intros f Hf. destruct f;
    try (destruct w; unfold field_same; world_simpl; reflexivity);
    exfalso; apply Hf; cbn [footprint In]; tauto.
Qed.

Lemma onMutations_modifies (h : Host) (mutations : list (list AddedNode))
    (w : World) :
  modifies [F_viewSelector; F_observed] w (onMutations h mutations w).
Proof. rewrite onMutations_ops. apply ops_modifies. Qed.

Lemma onScroll_modifies (w : World) : modifies [F_ticking] w (onScroll w).
Proof. unfold onScroll. destruct (ticking w); footprint w. Qed.

Lemma step_modifies (h : Host) (w : World) (a : Activation) :
  modifies (footprint a) w (step h w a).
Proof.
  destruct a as [uuid section settings|id|now|doc|now entries|mutations| |
                 |now innerHeight rects|k|now]; cbn [step footprint].
  - footprint w.
  - apply dropSectionVisibility_modifies.
  - apply trackUserReturn_modifies.
  - apply trackSectionVisibility_modifies.
  - destruct (0 <? intersectionObservers w)%nat; [|apply modifies_refl].
    apply modifies_fold. intros. apply onIntersectionEntry_modifies.
  - apply modifies_iter. intros. apply onMutations_modifies.
  - apply modifies_iter, onScroll_modifies.
  - apply modifies_iter, onScroll_modifies.
  - apply onAnimationFrame_modifies.
  - destruct (timers w !! k) as [t|]; [|apply modifies_refl].
    apply (modifies_trans _ _ (with_timers (delete k (timers w)) w)).
    + footprint w.
    + eapply modifies_weaken; [|apply onTimeout_modifies].
      cbn [In]. tauto.
  - apply onBeforeUnload_modifies.
Qed.

(** X1.  Every activation writes only the fields of its footprint: the
    public calls that register and drop rules write the two indices of the
    registry and nothing else; only the unload handlers write cookies; only
    [trackSectionVisibility] creates observers and listeners; the
    intersection callback, the timeouts and the scroll samples never touch
    the registry; and nothing ever changes the tracking id. *)
Theorem activation_footprint (h : Host) (w : World) (a : Activation) :
  modifies (footprint a) w (step h w a)
  /\ trackingId (step h w a) = trackingId w
  /\ (cookies (step h w a) <> cookies w -> exists now, a = BeforeUnload now)
  /\ (registry (step h w a) <> registry w ->
      (exists uuid section settings,
         a = CallAddSectionVisibility uuid section settings)
      \/ exists id, a = CallDropSectionVisibility id).
Proof.
  pose proof (step_modifies h w a) as H. split; [exact H|]. split; [|split].
  - apply (H F_trackingId). destruct a; cbn [footprint In];
      intuition discriminate.
  - intros Hc. destruct a; try (eexists; reflexivity); exfalso; apply Hc;
      apply (H F_cookies); cbn [footprint In]; intuition discriminate.
  - intros Hr.
    destruct a; try (left; do 3 eexists; reflexivity);
      try (right; eexists; reflexivity); exfalso; apply Hr; unfold registry;
      rewrite (H F_sectionVisibility), (H F_selectorVisibilityMap);
      try reflexivity; cbn [footprint In]; intuition discriminate.
Qed.

(** ** The clamp *)

(** X2.  [#_claim] with finite bounds [lo <= hi] is a clamp: the result lies
    between the bounds, a value between them is kept, a value below gives
    [lo] and a value above gives [hi]; the infinities go to the bounds, and
    [NaN] is not clamped. *)
Theorem claim_clamps (v lo hi : Q) :
  (lo <= hi)%Q ->
  (exists q, _claim (Fin v) (Fin lo) (Fin hi) = Fin q
             /\ (lo <= q <= hi)%Q
             /\ ((lo <= v <= hi)%Q -> (q == v)%Q)
             /\ ((v < lo)%Q -> (q == lo)%Q)
             /\ ((hi < v)%Q -> (q == hi)%Q))
  /\ _claim Infinity (Fin lo) (Fin hi) = Fin hi
  /\ (exists q, _claim NegInfinity (Fin lo) (Fin hi) = Fin q /\ (q == lo)%Q)
  /\ _claim NaN (Fin lo) (Fin hi) = NaN.
Proof.
  intros Hb. unfold _claim, Math_min, Math_max. cbn [isNaN orb num_ltb].
  split; [|split; [reflexivity|split; [|reflexivity]]].
  - cases_Q; eexists; (split; [reflexivity|]); repeat split; intros; lra.
  - cases_Q; eexists; (split; [reflexivity|]); lra.
Qed.

Lemma claim_clamps_witness :
  (0 <= 100)%Q
  /\ _claim Infinity (Fin 0) (Fin 100) = Fin 100.
Proof.
  split; [lra|]. apply (claim_clamps 150 0 100). lra.
Defined.

(** ** Timeouts *)


Lemma onTimeout_layer (t : Timer) (w : World) (section : SectionTrackedData) :
  jm_get (timer_episode t) (sectionMap w) = Some section ->
  layer (onTimeout t w)
  = (layer w
     ++ if timer_fires t section
        then [ruleEvent (timer_setting t) (rule_viewTime (timer_setting t))
                (num_sub (maxScrollDepth section) (minScrollDepth section))]
        else [])%list.
Proof.
  intros Hg. unfold onTimeout, timer_fires. rewrite Hg.
  destruct (includes _ _); cbn [negb andb]; [symmetry; apply app_nil_r|].
  destruct (num_ltb _ _); cbn [negb]; [symmetry; apply app_nil_r|].
  destruct w; reflexivity.
Qed.



(** X4.  Once an element has left view, the timeouts armed for its episode
    do nothing. *)
Theorem timeout_after_leave (now : Z) (w : World) (e : IntersectionEntry)
    (selector outId : string) (tracked : SectionTrackedData) (t : Timer) :
  isIntersecting e = false ->
  viewSelector w !! target e = Some selector -> str_truthy selector = true ->
  viewId w !! target e = Some outId -> str_truthy outId = true ->
  jm_get outId (sectionMap w) = Some tracked ->
  timer_episode t = outId ->
  onTimeout t (onIntersectionEntry now w e) = onIntersectionEntry now w e.
Proof.
  intros Hi Hs Hst Ho Hot Hg Ht.
  destruct (leave_payload now w e selector outId tracked Hi Hs Hst Ho Hot Hg)
    as [_ Hm].
  unfold onTimeout. rewrite Ht, Hm, jm_get_delete_eq. reflexivity.
Qed.

(** ** Scroll samples *)

Lemma scrollRule_layer (id : string) (sentEventIds : list string)
    (sectionView : number) (elapsed : Z) (w : World)
    (setting : SectionVisibilitySettings) :
  layer (scrollRule id sentEventIds sectionView elapsed w setting)
  = (layer w
     ++ if eligible sentEventIds sectionView elapsed setting
        then [ruleEvent setting (ofZ elapsed) sectionView] else [])%list.
Proof.
  unfold scrollRule, eligible.
  destruct (includes _ _); cbn [negb andb]; [symmetry; apply app_nil_r|].
  destruct (num_ltb sectionView _); cbn [negb andb];
    [symmetry; apply app_nil_r|].
  destruct (num_ltb (ofZ elapsed) _); cbn [negb andb];
    [symmetry; apply app_nil_r|].
  cbv zeta. destruct (jm_get id (sectionMap _)).
  - rewrite with_sectionMap_layer. apply send_layer.
  - apply send_layer.
Qed.

Lemma scrollRules_layer (id : string) (sentEventIds : list string)
    (sectionView : number) (elapsed : Z)
    (settings : list SectionVisibilitySettings) (w : World) :
  layer (fold_left (scrollRule id sentEventIds sectionView elapsed) settings w)
  = (layer w
     ++ map (fun setting => ruleEvent setting (ofZ elapsed) sectionView)
          (List.filter (eligible sentEventIds sectionView elapsed)
             settings))%list.
Proof.
  revert w. induction settings as [|a l IH]; intros w;
    cbn [fold_left List.filter map].
  - symmetry. apply app_nil_r.
  - rewrite IH, scrollRule_layer.
    destruct (eligible _ _ _ a); cbn [map].
    + rewrite <- app_assoc. reflexivity.
    + rewrite app_nil_r. reflexivity.
Qed.






(** ** The unload flush *)

Lemma onSendLastSection_fold (now : Z) (l : list SectionTrackedData)
    (w : World) :
  let w' :=
    fold_left
      (fun w0 section =>
         _sendInternalGAEvent
           (ViewPayload "section_view" (tracked_selector section)
              (ofZ (now - start section))
              (num_sub (maxScrollDepth section) (minScrollDepth section)))
           w0) l w in
  layer w' = (layer w ++ map (summaryOf now) l)%list
  /\ sectionMap w' = sectionMap w.
Proof.
  revert w. induction l as [|a l IH]; intros w; cbn [fold_left map].
  - split; [symmetry; apply app_nil_r | reflexivity].
  - destruct (IH (_sendInternalGAEvent (summaryOf now a) w)) as [E1 E2].
    cbv zeta in E1, E2. unfold summaryOf in E1 at 1, E2.
    cbv zeta. rewrite E1, E2, send_layer, send_sectionMap, <- app_assoc.
    split; reflexivity.
Qed.

Lemma onSendLastSection_layer (now : Z) (w : World) :
  layer (onSendLastSection now w)
  = (layer w ++ map (summaryOf now) (jm_values (sectionMap w)))%list
  /\ sectionMap (onSendLastSection now w) = sectionMap w.
Proof. apply onSendLastSection_fold. Qed.

(** X6.  The unload flush sends one summary per live episode, in the order
    of the episode map, each with the time since the episode's start and the
    width of its bounds; it ends no episode, and it sends no rule's event. *)
Theorem flush_summaries (now : Z) (w : World) :
  layer (onSendLastSection now w)
  = (layer w ++ map (summaryOf now) (jm_values (sectionMap w)))%list
  /\ sectionMap (onSendLastSection now w) = sectionMap w
  /\ count_event "section_view" (onSendLastSection now w)
     = (count_event "section_view" w + length (sectionMap w))%nat.
Proof.
  destruct (onSendLastSection_layer now w) as [E1 E2].
  split; [exact E1|]. split; [exact E2|].
  unfold count_event. rewrite E1, List.filter_app, length_app. f_equal.
  unfold jm_values. generalize (sectionMap w). intros m.
  induction m as [|[k v] m IH]; [reflexivity|].
  cbn [map List.filter summaryOf event_name length].
  cbn [map List.filter summaryOf event_name length] in IH.
  rewrite String.eqb_refl. cbn [length]. rewrite IH. reflexivity.
Qed.

(** ** Episodes *)

Lemma timeout_after_leave_witness :
  onTimeout (mkTimer "e1" heroRule (ofZ 3000))
    (onIntersectionEntry 500 heroInView (leaves 2 (rectAt (-900))))
  = onIntersectionEntry 500 heroInView (leaves 2 (rectAt (-900))).
Proof.
  eapply (timeout_after_leave 500 heroInView (leaves 2 (rectAt (-900)))
            (defaultSelector "hero") "e1").
  - reflexivity.
  - vm_compute. reflexivity.
  - reflexivity.
  - vm_compute. reflexivity.
  - reflexivity.
  - vm_compute. reflexivity.
  - reflexivity.
Defined.

Lemma onIntersection_viewSelector (now : Z) (entries : list IntersectionEntry)
    (w : World) :
  viewSelector (onIntersection now entries w) = viewSelector w.
Proof.
  unfold onIntersection.
  apply (modifies_fold [F_viewId; F_sectionMap; F_timers; F_dataLayer]
           (onIntersectionEntry now) entries
           (fun w0 e => onIntersectionEntry_modifies now w0 e) w
           F_viewSelector).
  cbn [In]. intuition discriminate.
Qed.

(** X7.  An element that leaves view and comes back starts a new episode:
    each stay sends its own summary, the second one with the time since the
    element came back and the width measured when it came back. *)
Theorem reentry_new_episode (w : World) (n : nat)
    (selector uuid1 uuid2 : string) (t1 t2 t3 t4 : Z) (ratio1 ratio2 : Q)
    (rect1 rect2 : DOMRect) (out1 out2 : IntersectionEntry) :
  viewSelector w !! n = Some selector -> str_truthy selector = true ->
  str_truthy uuid1 = true -> str_truthy uuid2 = true ->
  target out1 = n -> isIntersecting out1 = false ->
  target out2 = n -> isIntersecting out2 = false ->
  layer
    (onIntersection t4 [out2]
       (onIntersection t3 [mkEntry n true ratio2 uuid2 rect2]
          (onIntersection t2 [out1]
             (onIntersection t1 [mkEntry n true ratio1 uuid1 rect1] w))))
  = (layer w
     ++ [ViewPayload "section_view" selector (ofZ (t2 - t1))
           (num_sub
              (Math_min
                 (num_add (ratioTopOf rect1) (num_mul (Fin ratio1) num100))
                 num100)
              (ratioTopOf rect1));
         ViewPayload "section_view" selector (ofZ (t4 - t3))
           (num_sub
              (Math_min
                 (num_add (ratioTopOf rect2) (num_mul (Fin ratio2) num100))
                 num100)
              (ratioTopOf rect2))])%list.
Proof.
  intros Hsel Hs Hu1 Hu2 Ho1 Hi1 Ho2 Hi2.
  rewrite (enter_then_leave _ n selector uuid2 t3 t4 ratio2 rect2 out2);
    try assumption.
  - rewrite (enter_then_leave w n selector uuid1 t1 t2 ratio1 rect1 out1);
      try assumption.
    rewrite <- app_assoc. reflexivity.
  - rewrite !onIntersection_viewSelector. exact Hsel.
Qed.

Lemma reentry_new_episode_witness :
  count_event "section_view"
    (onIntersection 900 [leaves 2 (rectAt (-900))]
       (onIntersection 700 [enters 2 "e3" 1 (rectAt 0)]
          (onIntersection 500 [leaves 2 (rectAt (-900))]
             (onIntersection 100 [enters 2 "e2" 1 (rectAt 0)]
                (run exampleHost freshPage (take 3 dropWhileArmed))))))
  = 2%nat.
Proof.
  unfold count_event, enters.
  rewrite (reentry_new_episode
             (run exampleHost freshPage (take 3 dropWhileArmed)) 2
             (defaultSelector "hero") "e2" "e3" 100 500 700 900 1 1
             (rectAt 0) (rectAt 0) (leaves 2 (rectAt (-900)))
             (leaves 2 (rectAt (-900))));
    reflexivity.
Defined.

(** ** Scroll and resize events *)

Lemma onScroll_idem (w : World) : onScroll (onScroll w) = onScroll w.
Proof.
  unfold onScroll. destruct (ticking w) eqn:E.
  - rewrite E. reflexivity.
  - destruct w; reflexivity.
Qed.

Lemma onScroll_listeners (w : World) :
  scrollListeners (onScroll w) = scrollListeners w
  /\ resizeListeners (onScroll w) = resizeListeners w.
Proof.
  split.
  - apply (onScroll_modifies w F_scrollListeners). cbn [In].
    intuition discriminate.
  - apply (onScroll_modifies w F_resizeListeners). cbn [In].
    intuition discriminate.
Qed.

Lemma scroll_burst (h : Host) (burst : list Activation) (w : World) :
  scrollListeners w = 1%nat -> resizeListeners w = 1%nat ->
  forallb is_scroll_or_resize burst = true ->
  run h (onScroll w) burst = onScroll w.
Proof.
  intros Hs Hr. induction burst as [|a l IH]; [reflexivity|].
  cbn [forallb]. intros H. apply andb_prop in H. destruct H as [Ha Hl].
  unfold run. cbn [fold_left]. fold (run h (step h (onScroll w) a) l).
  destruct (onScroll_listeners w) as [Es Er].
  assert (E : step h (onScroll w) a = onScroll w).
  { destruct a; try discriminate Ha; cbn [step].
    - rewrite Es, Hs. cbn [Nat.iter nat_rect]. apply onScroll_idem.
    - rewrite Er, Hr. cbn [Nat.iter nat_rect]. apply onScroll_idem. }
  rewrite E. apply IH, Hl.
Qed.

Lemma onAnimationFrame_ticking (now : Z) (viewportHeight : Q)
    (rects : nat -> DOMRect) (w : World) :
  ticking (onAnimationFrame now viewportHeight rects w) = false.
Proof.
  unfold onAnimationFrame. destruct (ticking w) eqn:E; [|exact E].
  cbv zeta.
  rewrite (modifies_fold [F_sectionMap; F_dataLayer]
             (fun w' section =>
                handleElementScroll now viewportHeight rects
                  (tracked_id section) w')
             (jm_values (sectionMap (with_ticking false w)))
             (fun w0 s =>
                handleElementScroll_modifies now viewportHeight rects
                  (tracked_id s) w0)
             (with_ticking false w) F_ticking).
  - destruct w; reflexivity.
  - cbn [In]. intuition discriminate.
Qed.

(** X8.  Scroll sampling is debounced.  With the one scroll and the one
    resize listener that the class installs, a burst of scroll and resize
    events requests one frame: it leaves the state that a single [onScroll]
    leaves.  The frame samples once; a further frame with no event in
    between does nothing. *)
Theorem scroll_debounce (h : Host) (w : World) (a : Activation)
    (burst : list Activation) (now1 now2 : Z) (height1 height2 : Q)
    (rects1 rects2 : nat -> DOMRect) :
  scrollListeners w = 1%nat -> resizeListeners w = 1%nat ->
  forallb is_scroll_or_resize (a :: burst) = true ->
  run h w (a :: burst) = onScroll w
  /\ run h w
       ((a :: burst)
        ++ [AnimationFrame now1 height1 rects1;
            AnimationFrame now2 height2 rects2])
     = onAnimationFrame now1 height1 rects1 (onScroll w).
Proof.
  intros Hs Hr Hb.
  assert (E : run h w (a :: burst) = onScroll w).
  { cbn [forallb] in Hb. apply andb_prop in Hb. destruct Hb as [Ha Hl].
    unfold run. cbn [fold_left]. fold (run h (step h w a) burst).
    assert (E0 : step h w a = onScroll w).
    { destruct a; try discriminate Ha; cbn [step].
      - rewrite Hs. reflexivity.
      - rewrite Hr. reflexivity. }
    rewrite E0. apply scroll_burst; assumption. }
  split; [exact E|].
  unfold run in *. rewrite fold_left_app, E. cbn [fold_left step].
  unfold onAnimationFrame at 1.
  rewrite onAnimationFrame_ticking. reflexivity.
Qed.

Lemma scroll_debounce_witness :
  let w := run exampleHost freshPage (take 5 twoRulesOneEpisode) in
  run exampleHost w [ScrollEvent; ResizeEvent; ScrollEvent] = onScroll w.
Proof.
  intros w.
  destruct (scroll_debounce exampleHost w ScrollEvent
              [ResizeEvent; ScrollEvent] 0 0 0 0 (fun _ => rectAt 0)
              (fun _ => rectAt 0)) as [H _].
  - vm_compute. reflexivity.
  - vm_compute. reflexivity.
  - reflexivity.
  - exact H.
Defined.

(** ** What [trackSectionVisibility] sets up, along a run *)

Lemma infra_same (b : bool) (w w' : World) :
  isVisibilityTrackingInitialized w' = isVisibilityTrackingInitialized w ->
  intersectionObservers w' = intersectionObservers w ->
  scrollListeners w' = scrollListeners w ->
  resizeListeners w' = resizeListeners w ->
  List.filter is_flush (beforeunload w')
  = List.filter is_flush (beforeunload w) ->
  infra b w -> infra b w'.
Proof. unfold infra. intros -> -> -> -> ->. tauto. Qed.

Lemma trackSectionVisibility_infra (h : Host) (doc : list nat) (w : World)
    (b : bool) :
  infra b w ->
  infra true (trackSectionVisibility h doc w)
  /\ mutationObservers (trackSectionVisibility h doc w)
     = S (mutationObservers w).
Proof.
  intros (Hf & Hio & Hsl & Hrl & Hbu).
  rewrite trackSectionVisibility_ops. cbv zeta.
  set (w2 := with_mutationObservers _ _).
  pose proof (ops_modifies
                (scanOps h doc (parsed h (getRegisteredSelectors w2))) w2)
    as H.
  assert (Hw2 : infra true w2 /\ mutationObservers w2 = S (mutationObservers w)).
  { subst w2. unfold _initVisibilityTracking. rewrite Hf.
    destruct b.
    - destruct w; cbv [infra] in *; world_simpl; world_simpl_in Hio;
        world_simpl_in Hsl; world_simpl_in Hrl; world_simpl_in Hbu. tauto.
    - unfold _initScrollDepthTracking, _initSectionVisibilityTracking,
        onScroll.
      destruct w; cbv [infra] in *; world_simpl; world_simpl_in Hio;
        world_simpl_in Hsl; world_simpl_in Hrl; world_simpl_in Hbu.
      subst. rewrite List.filter_app, Hbu. cbn. tauto. }
  destruct Hw2 as [Hi Hm]. split.
  - apply (infra_same true w2); [..|exact Hi].
    + apply (H F_isVisibilityTrackingInitialized). cbn [In].
      intuition discriminate.
    + apply (H F_intersectionObservers). cbn [In]. intuition discriminate.
    + apply (H F_scrollListeners). cbn [In]. intuition discriminate.
    + apply (H F_resizeListeners). cbn [In]. intuition discriminate.
    + f_equal. apply (H F_beforeunload). cbn [In]. intuition discriminate.
  - rewrite <- Hm. apply (H F_mutationObservers). cbn [In].
    intuition discriminate.
Qed.

Lemma trackUserReturn_flushes (h : Host) (now : Z) (w : World) :
  List.filter is_flush (beforeunload (trackUserReturn h now w))
  = List.filter is_flush (beforeunload w).
Proof.
  unfold trackUserReturn.
  destruct (_readCookie h now (sessionKey w) w) as [lastVisit|]; [|reflexivity].
  destruct (negb (str_truthy lastVisit)); [reflexivity|].
  cbv zeta.
  assert (E : forall l w0,
            beforeunload (with_beforeunload l w0) = l)
    by (intros l w0; destruct w0; reflexivity).
  rewrite E, List.filter_app. cbn [List.filter is_flush]. apply app_nil_r.
Qed.

Lemma infra_step (h : Host) (w : World) (a : Activation) (b : bool) :
  infra b w ->
  infra (b || is_track a) (step h w a)
  /\ mutationObservers (step h w a)
     = (mutationObservers w + if is_track a then 1 else 0)%nat.
Proof.
  intros Hi. pose proof (step_modifies h w a) as H.
  destruct (is_track a) eqn:Ea.
  - destruct a; try discriminate Ea. cbn [step]. rewrite orb_true_r.
    rewrite Nat.add_1_r. eapply trackSectionVisibility_infra, Hi.
  - rewrite orb_false_r, Nat.add_0_r. split.
    + apply (infra_same b w); [..|exact Hi].
      * apply (H F_isVisibilityTrackingInitialized).
        destruct a; try discriminate Ea; cbn [footprint In];
          intuition discriminate.
      * apply (H F_intersectionObservers).
        destruct a; try discriminate Ea; cbn [footprint In];
          intuition discriminate.
      * apply (H F_scrollListeners).
        destruct a; try discriminate Ea; cbn [footprint In];
          intuition discriminate.
      * apply (H F_resizeListeners).
        destruct a; try discriminate Ea; cbn [footprint In];
          intuition discriminate.
      * destruct a; try discriminate Ea;
          try (f_equal; apply (H F_beforeunload); cbn [footprint In];
               intuition discriminate).
        cbn [step]. apply trackUserReturn_flushes.
    + apply (H F_mutationObservers).
      destruct a; try discriminate Ea; cbn [footprint In];
        intuition discriminate.
Qed.

Lemma infra_run (h : Host) (trace : list Activation) (w : World) (b : bool) :
  infra b w ->
  infra (b || existsb is_track trace) (run h w trace)
  /\ mutationObservers (run h w trace)
     = (mutationObservers w + length (List.filter is_track trace))%nat.
Proof.
  revert w b. induction trace as [|a l IH]; intros w b Hi.
  - cbn [existsb run fold_left List.filter length].
    rewrite orb_false_r, Nat.add_0_r. split; [exact Hi | reflexivity].
  - destruct (infra_step h w a b Hi) as [Hs Hm].
    destruct (IH _ _ Hs) as [Hs' Hm'].
    unfold run in *. cbn [fold_left existsb List.filter].
    rewrite orb_assoc. split; [exact Hs'|].
    rewrite Hm', Hm. destruct (is_track a); cbn [length]; lia.
Qed.

Lemma infra_new (gid : option string) (jar : list Cookie)
    (dl : option (list Payload)) :
  infra false (new_VnsGaUtil gid jar dl).
Proof. repeat split. Qed.

(** X9.  Along any run from a new instance, however often
    [trackSectionVisibility] is called: there is one intersection observer,
    one scroll listener, one resize listener and one flush on [beforeunload]
    if it was called at all, and none otherwise; and there are as many
    mutation observers as calls. *)
Theorem infrastructure_once (h : Host) (gid : option string)
    (jar : list Cookie) (dl : option (list Payload))
    (trace : list Activation) :
  let w := run h (new_VnsGaUtil gid jar dl) trace in
  let called := existsb is_track trace in
  isVisibilityTrackingInitialized w = called
  /\ intersectionObservers w = (if called then 1 else 0)%nat
  /\ scrollListeners w = (if called then 1 else 0)%nat
  /\ resizeListeners w = (if called then 1 else 0)%nat
  /\ List.filter is_flush (beforeunload w)
     = (if called then [sendLastSection] else [])
  /\ mutationObservers w = length (List.filter is_track trace).
Proof.
  intros w called.
  destruct (infra_run h trace _ false (infra_new gid jar dl)) as [Hi Hm].
  cbn [orb] in Hi. destruct Hi as (H1 & H2 & H3 & H4 & H5).
  repeat split; assumption.
Qed.

Lemma onBeforeUnload_fold (h : Host) (now : Z)
    (handlers : list UnloadHandler) (w : World) :
  let w' :=
    fold_left
      (fun w0 handler =>
         match handler with
         | sendLastSection => onSendLastSection now w0
         | handleCloseTab => onHandleCloseTab h now w0
         end) handlers w in
  layer w'
  = (layer w
     ++ flat_map
          (fun _ => map (summaryOf now) (jm_values (sectionMap w)))
          (List.filter is_flush handlers))%list
  /\ sectionMap w' = sectionMap w.
Proof.
  revert w. induction handlers as [|a l IH]; intros w;
    cbn [fold_left List.filter flat_map].
  - split; [symmetry; apply app_nil_r | reflexivity].
  - destruct a; cbn [is_flush flat_map].
    + destruct (IH (onSendLastSection now w)) as [E1 E2].
      destruct (onSendLastSection_layer now w) as [F1 F2].
      cbv zeta in *. rewrite E1, E2, F1, F2, <- app_assoc.
      split; reflexivity.
    + destruct (IH (onHandleCloseTab h now w)) as [E1 E2].
      cbv zeta in *. rewrite E1, E2.
      assert (F : layer (onHandleCloseTab h now w) = layer w
                  /\ sectionMap (onHandleCloseTab h now w) = sectionMap w)
        by (destruct w; split; reflexivity).
      destruct F as [-> ->]. split; reflexivity.
Qed.

(** X10.  When the page is abandoned, each live episode gets exactly one
    summary, whatever the run before: the calls of [trackSectionVisibility]
    register one flush among them, the handler of [trackUserReturn] sends
    nothing, and a page that never called [trackSectionVisibility] sends
    nothing at all. *)
Theorem unload_summaries_once (h : Host) (gid : option string)
    (jar : list Cookie) (dl : option (list Payload))
    (trace : list Activation) (now : Z) :
  let w := run h (new_VnsGaUtil gid jar dl) trace in
  layer (step h w (BeforeUnload now))
  = (layer w
     ++ if existsb is_track trace
        then map (summaryOf now) (jm_values (sectionMap w)) else [])%list.
Proof.
  intros w. cbn [step]. unfold onBeforeUnload.
  destruct (onBeforeUnload_fold h now (beforeunload w) w) as [E _].
  cbv zeta in E. rewrite E.
  destruct (infra_run h trace _ false (infra_new gid jar dl))
    as [(_ & _ & _ & _ & Hb) _].
  fold w in Hb. rewrite Hb. cbn [orb].
  destruct (existsb is_track trace); cbn [flat_map]; [|reflexivity].
  rewrite app_nil_r. reflexivity.
Qed.

(** ** Events are only ever appended *)

Lemma extends_refl (w : World) : extends w w.
Proof. exists []. symmetry. apply app_nil_r. Qed.

Lemma extends_trans (w1 w2 w3 : World) :
  extends w1 w2 -> extends w2 w3 -> extends w1 w3.
Proof.
  intros [l1 E1] [l2 E2]. exists (l1 ++ l2)%list.
  rewrite E2, E1, app_assoc. reflexivity.
Qed.

Lemma extends_same (w w' : World) : dataLayer w' = dataLayer w -> extends w w'.
Proof.
  intros E. exists []. unfold layer. rewrite E. symmetry. apply app_nil_r.
Qed.

Lemma extends_fold {A : Type} (f : World -> A -> World) (l : list A) :
  (forall w a, extends w (f w a)) -> forall w, extends w (fold_left f l w).
Proof.
  intros Hf. induction l as [|a l IH]; intros w; cbn [fold_left].
  - apply extends_refl.
  - eapply extends_trans; [apply Hf | apply IH].
Qed.

Lemma onIntersectionEntry_extends (now : Z) (w : World)
    (e : IntersectionEntry) :
  extends w (onIntersectionEntry now w e).
Proof.
  unfold onIntersectionEntry.
  destruct (viewSelector w !! target e) as [selector|];
    [|apply extends_refl].
  destruct (negb (str_truthy selector)); [apply extends_refl|].
  destruct (isIntersecting e).
  - apply extends_same. destruct w; reflexivity.
  - destruct (viewId w !! target e) as [outId|]; [|apply extends_refl].
    destruct (negb (str_truthy outId)); [apply extends_refl|].
    destruct (jm_get outId (sectionMap w)); [|apply extends_refl].
    eexists. destruct w; reflexivity.
Qed.

Lemma handleElementScroll_extends (now : Z) (viewportHeight : Q)
    (rects : nat -> DOMRect) (id : string) (w : World) :
  extends w (handleElementScroll now viewportHeight rects id w).
Proof.
  unfold handleElementScroll.
  destruct (jm_get id (sectionMap w)) as [s|]; [|apply extends_refl].
  destruct (viewSelector w !! element s) as [selector|];
    [|apply extends_refl].
  destruct (negb (str_truthy selector)); [apply extends_refl|].
  cbv zeta. eexists. rewrite scrollRules_layer, with_sectionMap_layer.
  reflexivity.
Qed.

Lemma step_extends (h : Host) (w : World) (a : Activation) :
  extends w (step h w a).
Proof.
  pose proof (step_modifies h w a) as H.
  destruct a as [uuid section settings|id|now|doc|now entries|mutations| |
                 |now innerHeight rects|k|now];
    try (apply extends_same; apply (H F_dataLayer); cbn [footprint In];
         intuition discriminate);
    cbn [step].
  - unfold trackUserReturn.
    destruct (_readCookie h now (sessionKey w) w) as [lastVisit|];
      [|apply extends_refl].
    destruct (negb (str_truthy lastVisit)); [apply extends_refl|].
    eexists. destruct w; reflexivity.
  - destruct (0 <? intersectionObservers w)%nat; [|apply extends_refl].
    apply extends_fold. intros. apply onIntersectionEntry_extends.
  - unfold onAnimationFrame. destruct (ticking w); [|apply extends_refl].
    cbv zeta. apply (extends_trans _ (with_ticking false w)).
    + apply extends_same. destruct w; reflexivity.
    + apply extends_fold. intros. apply handleElementScroll_extends.
  - destruct (timers w !! k) as [t|]; [|apply extends_refl].
    apply (extends_trans _ (with_timers (delete k (timers w)) w)).
    + apply extends_same. destruct w; reflexivity.
    + generalize (with_timers (delete k (timers w)) w). intros w0.
      destruct (jm_get (timer_episode t) (sectionMap w0)) as [s|] eqn:Hg.
      * eexists. apply (onTimeout_layer t w0 s Hg).
      * unfold onTimeout. rewrite Hg. apply extends_refl.
  - eexists. apply (onBeforeUnload_fold h now (beforeunload w) w).
Qed.

(** X11.  No activation removes or rewrites an event that was pushed: along
    any run the events on [window.dataLayer] are those that were there, in
    the same order, followed by the new ones. *)
Theorem events_append_only (h : Host) (w : World) (trace : list Activation) :
  exists sent, layer (run h w trace) = (layer w ++ sent)%list.
Proof.
  unfold run. apply (extends_fold (step h) trace (step_extends h) w).
Qed.

(** ** The registry along a run *)

Lemma NoDup_snoc {A : Type} (l : list A) (x : A) :
  List.NoDup l -> ~ In x l -> List.NoDup (l ++ [x]).
Proof.
  induction 1 as [|y l Hy Hl IH]; intros Hx; cbn [app].
  - constructor; [intros []|constructor].
  - constructor.
    + intros Hin. apply in_app_or in Hin. destruct Hin as [Hin|[->|[]]].
      * apply Hy, Hin.
      * apply Hx. left. reflexivity.
    + apply IH. intros Hin. apply Hx. right. exact Hin.
Qed.

Lemma NoDup_map_filter {A B : Type} (f : A -> B) (p : A -> bool)
    (l : list A) :
  List.NoDup (map f l) -> List.NoDup (map f (List.filter p l)).
Proof.
  induction l as [|a l IH]; cbn [map List.filter]; [auto|].
  intros H. inversion H as [|x l' Hx Hl]; subst.
  destruct (p a); cbn [map]; [|apply IH, Hl].
  constructor; [|apply IH, Hl].
  intros Hin. apply Hx. apply in_map_iff in Hin.
  destruct Hin as (b & Eb & Hb). apply in_map_iff. exists b.
  split; [exact Eb|]. apply (filter_In p b l) in Hb. tauto.
Qed.

Lemma registry_agree_same (w w' : World) :
  registry w' = registry w -> registry_agree w -> registry_agree w'.
Proof.
  unfold registry, registry_agree. intros E. injection E as -> ->. tauto.
Qed.

Lemma addSectionVisibility_agree (uuid section : string)
    (settings : PartialSettings) (w : World) :
  jm_get uuid (sectionVisibility w) = None ->
  registry_agree w ->
  registry_agree (snd (addSectionVisibility uuid section settings w)).
Proof.
  intros Hfresh (H1 & H2 & H3).
  set (r := newSettings uuid section settings).
  assert (Esv : sectionVisibility
                  (snd (addSectionVisibility uuid section settings w))
                = jm_set uuid r (sectionVisibility w))
    by (destruct w; reflexivity).
  assert (Esm : selectorVisibilityMap
                  (snd (addSectionVisibility uuid section settings w))
                = jm_set (rule_selector r)
                    (default [] (jm_get (rule_selector r)
                                   (selectorVisibilityMap w)) ++ [r])%list
                    (selectorVisibilityMap w))
    by (destruct w; reflexivity).
  assert (Hold : forall s,
            In s (default [] (jm_get (rule_selector r)
                                (selectorVisibilityMap w))) ->
            jm_get (rule_id s) (sectionVisibility w) = Some s
            /\ rule_selector s = rule_selector r).
  { intros s Hs.
    destruct (jm_get (rule_selector r) (selectorVisibilityMap w))
      as [l|] eqn:El; [|destruct Hs].
    apply (H2 _ _ _ El Hs). }
  assert (Hnd : List.NoDup
                  (map rule_id
                     (default [] (jm_get (rule_selector r)
                                    (selectorVisibilityMap w))))).
  { destruct (jm_get (rule_selector r) (selectorVisibilityMap w))
      as [l|] eqn:El; [apply (H3 _ _ El) | constructor]. }
  unfold registry_agree. rewrite Esv, Esm. split; [|split].
  - intros id r0 Hg.
    destruct (String.eqb_spec id uuid) as [->|Hne].
    + rewrite jm_get_set_eq in Hg. injection Hg as <-.
      split; [reflexivity|]. rewrite jm_get_set_eq. eexists.
      split; [reflexivity|]. apply in_or_app. right. left. reflexivity.
    + rewrite jm_get_set_ne in Hg by exact Hne.
      destruct (H1 _ _ Hg) as (Hid & l & Hl & Hin). split; [exact Hid|].
      destruct (String.eqb_spec (rule_selector r0) (rule_selector r))
        as [E|Hs].
      * rewrite E, jm_get_set_eq. eexists. split; [reflexivity|].
        rewrite E in Hl. rewrite Hl. apply in_or_app. left. exact Hin.
      * rewrite jm_get_set_ne by exact Hs. exists l. auto.
  - intros selector l s Hl Hs.
    assert (Hreg : jm_get (rule_id s) (sectionVisibility w) = Some s ->
                   jm_get (rule_id s) (jm_set uuid r (sectionVisibility w))
                   = Some s).
    { intros Hg. rewrite jm_get_set_ne; [exact Hg | congruence]. }
    destruct (String.eqb_spec selector (rule_selector r)) as [->|Hne].
    + rewrite jm_get_set_eq in Hl. injection Hl as <-.
      apply in_app_or in Hs. destruct Hs as [Hs|[<-|[]]].
      * destruct (Hold s Hs). auto.
      * split; [apply jm_get_set_eq | reflexivity].
    + rewrite jm_get_set_ne in Hl by exact Hne.
      destruct (H2 _ _ _ Hl Hs). auto.
  - intros selector l Hl.
    destruct (String.eqb_spec selector (rule_selector r)) as [->|Hne].
    + rewrite jm_get_set_eq in Hl. injection Hl as <-.
      rewrite map_app. apply NoDup_snoc.
      * exact Hnd.
      * intros Hin. apply in_map_iff in Hin. destruct Hin as (s & Es & Hs).
        destruct (Hold s Hs) as [Hg _]. cbn [rule_id r newSettings] in Es.
        congruence.
    + rewrite jm_get_set_ne in Hl by exact Hne. apply (H3 _ _ Hl).
Qed.

Lemma dropSectionVisibility_agree (id : string) (w : World) :
  registry_agree w -> registry_agree (dropSectionVisibility id w).
Proof.
  intros (H1 & H2 & H3). unfold dropSectionVisibility.
  destruct (jm_get id (sectionVisibility w)) as [r|] eqn:Hg;
    [|unfold registry_agree; auto].
  destruct (H1 _ _ Hg) as (Hid & l0 & Hl0 & Hin0). cbv zeta.
  assert (E : selectorVisibilityMap
                (with_sectionVisibility
                   (jm_delete id (sectionVisibility w)) w)
              = selectorVisibilityMap w) by (destruct w; reflexivity).
  rewrite E, Hl0.
  destruct l0 as [|s0 l0']; [destruct Hin0|]. cbn [length Nat.leb].
  set (l0 := s0 :: l0') in *.
  set (l1 := List.filter (fun s => negb (String.eqb (rule_id s) id)) l0).
  assert (Esv : sectionVisibility
                  (with_selectorVisibilityMap
                     (jm_set (rule_selector r) l1 (selectorVisibilityMap w))
                     (with_sectionVisibility
                        (jm_delete id (sectionVisibility w)) w))
                = jm_delete id (sectionVisibility w))
    by (destruct w; reflexivity).
  assert (Esm : selectorVisibilityMap
                  (with_selectorVisibilityMap
                     (jm_set (rule_selector r) l1 (selectorVisibilityMap w))
                     (with_sectionVisibility
                        (jm_delete id (sectionVisibility w)) w))
                = jm_set (rule_selector r) l1 (selectorVisibilityMap w))
    by (destruct w; reflexivity).
  unfold registry_agree. rewrite Esv, Esm. split; [|split].
  - intros id' r' Hg'.
    destruct (String.eqb_spec id' id) as [->|Hne];
      [rewrite jm_get_delete_eq in Hg'; discriminate|].
    rewrite jm_get_delete_ne in Hg' by exact Hne.
    destruct (H1 _ _ Hg') as (Hid' & l & Hl & Hin). split; [exact Hid'|].
    destruct (String.eqb_spec (rule_selector r') (rule_selector r))
      as [Es|Hs].
    + rewrite Es, jm_get_set_eq. eexists. split; [reflexivity|].
      rewrite Es, Hl0 in Hl. injection Hl as <-.
      apply (filter_In (fun s => negb (String.eqb (rule_id s) id)) r' l0).
      split; [exact Hin|]. rewrite Hid'.
      destruct (String.eqb_spec id' id); [contradiction | reflexivity].
    + rewrite jm_get_set_ne by exact Hs. exists l. auto.
  - intros selector l s Hl Hs.
    destruct (String.eqb_spec selector (rule_selector r)) as [->|Hne].
    + rewrite jm_get_set_eq in Hl. injection Hl as <-.
      apply (filter_In (fun s => negb (String.eqb (rule_id s) id)) s l0)
        in Hs.
      destruct Hs as [Hs Hn]. destruct (H2 _ _ _ Hl0 Hs) as [Hgs Hss].
      split; [|exact Hss]. rewrite jm_get_delete_ne; [exact Hgs|].
      intros Eid. rewrite Eid, String.eqb_refl in Hn. discriminate.
    + rewrite jm_get_set_ne in Hl by exact Hne.
      destruct (H2 _ _ _ Hl Hs) as [Hgs Hss]. split; [|exact Hss].
      rewrite jm_get_delete_ne; [exact Hgs|].
      intros Eid. rewrite Eid in Hgs. congruence.
  - intros selector l Hl.
    destruct (String.eqb_spec selector (rule_selector r)) as [->|Hne].
    + rewrite jm_get_set_eq in Hl. injection Hl as <-.
      apply NoDup_map_filter, (H3 _ _ Hl0).
    + rewrite jm_get_set_ne in Hl by exact Hne. apply (H3 _ _ Hl).
Qed.

Lemma step_agree (h : Host) (w : World) (a : Activation) :
  match a with
  | CallAddSectionVisibility uuid _ _ =>
      jm_get uuid (sectionVisibility w) = None
  | _ => True
  end ->
  registry_agree w -> registry_agree (step h w a).
Proof.
  intros Ha Hw. pose proof (step_modifies h w a) as H.
  destruct a as [uuid section settings|id|now|doc|now entries|mutations| |
                 |now innerHeight rects|k|now];
    try (apply (registry_agree_same w); [|exact Hw]; unfold registry;
         rewrite (H F_sectionVisibility), (H F_selectorVisibilityMap);
         [reflexivity|..]; cbn [footprint In]; intuition discriminate).
  - apply addSectionVisibility_agree; assumption.
  - apply dropSectionVisibility_agree; assumption.
Qed.

Lemma run_agree (h : Host) (trace : list Activation) (w : World) :
  fresh_ids h w trace -> registry_agree w -> registry_agree (run h w trace).
Proof.
  revert w. induction trace as [|a l IH]; intros w; cbn [fresh_ids];
    [auto|].
  intros [Ha Hl] Hw. unfold run. cbn [fold_left]. apply IH; [exact Hl|].
  apply step_agree; assumption.
Qed.

(** X12.  Along any run from a new instance in which the registering calls
    draw ids that are not in use, the two indices of the registry agree:
    every registered rule carries its id and is listed under its selector,
    every listed rule is the rule registered under its id and has the
    selector it is listed under, and no rule is listed twice. *)
Theorem registry_indices_agree (h : Host) (gid : option string)
    (jar : list Cookie) (dl : option (list Payload))
    (trace : list Activation) :
  fresh_ids h (new_VnsGaUtil gid jar dl) trace ->
  registry_agree (run h (new_VnsGaUtil gid jar dl) trace).
Proof.
  intros H. apply run_agree; [exact H|].
  repeat split; discriminate.
Qed.

Lemma registry_indices_agree_witness :
  registry_agree (run exampleHost freshPage twoRulesOneEpisode).
Proof.
  apply (registry_indices_agree exampleHost (Some "G-1") [] None
           twoRulesOneEpisode).
  vm_compute. repeat split.
Defined.

(** X13.  Dropping a rule right after registering it, under an id that was
    not in use, gives back the registry there was, except that its selector
    stays known: the id index is as before, the other selectors are as
    before, and the rule's selector holds the rules it held, an empty list
    if it was not known. *)
Theorem add_then_drop (uuid section : string) (settings : PartialSettings)
    (w : World) :
  jm_get uuid (sectionVisibility w) = None ->
  registry_wf w ->
  let selector := rule_selector (newSettings uuid section settings) in
  let w' :=
    dropSectionVisibility uuid
      (snd (addSectionVisibility uuid section settings w)) in
  (forall id,
     jm_get id (sectionVisibility w') = jm_get id (sectionVisibility w))
  /\ (forall s, s <> selector ->
        jm_get s (selectorVisibilityMap w')
        = jm_get s (selectorVisibilityMap w))
  /\ jm_get selector (selectorVisibilityMap w')
     = Some (default [] (jm_get selector (selectorVisibilityMap w))).
Proof.
  intros Hfresh Hwf selector w'.
  set (r := newSettings uuid section settings) in *.
  set (l0 := default [] (jm_get selector (selectorVisibilityMap w))).
  assert (Ew : w' = with_selectorVisibilityMap
                      (jm_set selector l0
                         (jm_set selector (l0 ++ [r])%list
                            (selectorVisibilityMap w)))
                      (with_sectionVisibility
                         (jm_delete uuid
                            (jm_set uuid r (sectionVisibility w)))
                         (snd (addSectionVisibility uuid section settings
                                 w)))).
  { subst w'. unfold dropSectionVisibility.
    assert (Esv : sectionVisibility
                    (snd (addSectionVisibility uuid section settings w))
                  = jm_set uuid r (sectionVisibility w))
      by (destruct w; reflexivity).
    rewrite Esv, jm_get_set_eq. cbv zeta. fold selector.
    assert (Esm : forall m,
              selectorVisibilityMap
                (with_sectionVisibility m
                   (snd (addSectionVisibility uuid section settings w)))
              = jm_set selector (l0 ++ [r])%list (selectorVisibilityMap w))
      by (intros m; destruct w; reflexivity).
    rewrite Esm, jm_get_set_eq.
    assert (El : (length (l0 ++ [r]) <=? 0)%nat = false)
      by (rewrite length_app; cbn [length]; apply Nat.leb_gt; lia).
    rewrite El. f_equal. f_equal.
    rewrite List.filter_app. cbn [List.filter rule_id r newSettings].
    rewrite String.eqb_refl. cbn [negb]. rewrite app_nil_r.
    apply forallb_filter_id. apply forallb_forall. intros s Hs.
    subst l0.
    destruct (jm_get selector (selectorVisibilityMap w)) as [l|] eqn:El0;
      [|destruct Hs].
    destruct (proj1 (registry_wf_spec w) Hwf _ _ _ El0 Hs) as (r0 & Hr0 & _).
    destruct (String.eqb_spec (rule_id s) uuid) as [E|]; [|reflexivity].
    rewrite E in Hr0. congruence. }
  rewrite Ew. split; [|split].
  - intros id. destruct w; world_simpl.
    destruct (String.eqb_spec id uuid) as [->|Hne].
    + rewrite jm_get_delete_eq. symmetry. exact Hfresh.
    + rewrite jm_get_delete_ne, jm_get_set_ne by exact Hne. reflexivity.
  - intros s Hs. destruct w; world_simpl.
    rewrite !jm_get_set_ne by exact Hs. reflexivity.
  - destruct w; world_simpl. apply jm_get_set_eq.
Qed.

Lemma add_then_drop_witness :
  jm_get (defaultSelector "hero")
    (selectorVisibilityMap
       (dropSectionVisibility "r1"
          (snd (addSectionVisibility "r1" "hero" noSettings freshPage))))
  = Some [].
Proof.
  apply (add_then_drop "r1" "hero" noSettings freshPage); reflexivity.
Defined.

(** ** Scans for elements *)

Lemma assigned_app (ops1 ops2 : list (nat * string)) (n : nat) :
  assigned (ops1 ++ ops2) n
  = match assigned ops2 n with
    | Some s => Some s
    | None => assigned ops1 n
    end.
Proof.
  induction ops1 as [|[k s] ops1 IH]; cbn [app assigned].
  - destruct (assigned ops2 n); reflexivity.
  - rewrite IH. destruct (assigned ops2 n); reflexivity.
Qed.

Lemma assigned_same (s : string) (l : list nat) (n : nat) :
  assigned (map (fun k => (k, s)) l) n
  = if existsb (fun k => Nat.eqb k n) l then Some s else None.
Proof.
  induction l as [|k l IH]; cbn [map assigned existsb]; [reflexivity|].
  rewrite IH. destruct (existsb _ l); [rewrite orb_true_r; reflexivity|].
  rewrite orb_false_r. reflexivity.
Qed.

Lemma existsb_filter (p : nat -> bool) (l : list nat) (n : nat) :
  existsb (fun k => Nat.eqb k n) (List.filter p l)
  = existsb (fun k => Nat.eqb k n) l && p n.
Proof.
  induction l as [|k l IH]; cbn [List.filter existsb]; [reflexivity|].
  destruct (p k) eqn:Ek; cbn [existsb]; rewrite IH.
  - destruct (Nat.eqb_spec k n) as [<-|]; cbn [orb]; [|reflexivity].
    rewrite Ek, andb_true_r. destruct (existsb _ l); reflexivity.
  - destruct (Nat.eqb_spec k n) as [<-|]; cbn [orb]; [|reflexivity].
    rewrite Ek, !andb_false_r. reflexivity.
Qed.

Lemma assigned_scanOps (h : Host) (scope : list nat)
    (selectors : list string) (n : nat) :
  assigned (scanOps h scope selectors) n = scanned h scope selectors n.
Proof.
  unfold scanOps, scanned.
  induction selectors as [|s l IH]; cbn [flat_map List.filter].
  - destruct (existsb _ scope); reflexivity.
  - rewrite assigned_app, IH, assigned_same. unfold querySelectorAll.
    rewrite existsb_filter.
    destruct (existsb _ scope); cbn [andb]; [|reflexivity].
    destruct (matches h n s); [rewrite last_cons|]; destruct (last _);
      reflexivity.
Qed.

Lemma assigned_None (ops : list (nat * string)) (n : nat) :
  assigned ops n = None <-> ~ In n (map fst ops).
Proof.
  induction ops as [|[k s] ops IH]; cbn [assigned map fst In]; [tauto|].
  destruct (assigned ops n).
  - split; [discriminate|]. intros H.
    assert (Hn : ~ In n (map fst ops)) by tauto.
    apply IH in Hn. discriminate Hn.
  - destruct (Nat.eqb_spec k n).
    + split; [discriminate | tauto].
    + split; [|reflexivity]. intros _ [E|Hin]; [contradiction|].
      apply (proj1 IH); [reflexivity | exact Hin].
Qed.

Lemma ops_result (ops : list (nat * string)) (w : World) (n : nat) :
  viewSelector (fold_left trackOp ops w) !! n
  = match assigned ops n with
    | Some s => Some s
    | None => viewSelector w !! n
    end
  /\ (n ∈ observed (fold_left trackOp ops w)
      <-> assigned ops n <> None \/ n ∈ observed w).
Proof.
  rewrite ops_shape. split.
  - rewrite <- tagsOf_lookup. destruct w; reflexivity.
  - assert (E : observed
                  (with_observed (targetsOf ops (observed w))
                     (with_viewSelector (tagsOf ops (viewSelector w)) w))
                = targetsOf ops (observed w)) by (destruct w; reflexivity).
    rewrite E, targetsOf_elem, assigned_None.
    destruct (in_dec Nat.eq_dec n (map fst ops)); tauto.
Qed.

Lemma init_tags (w : World) :
  viewSelector (_initVisibilityTracking w) = viewSelector w
  /\ selectorVisibilityMap (_initVisibilityTracking w)
     = selectorVisibilityMap w
  /\ observed (_initVisibilityTracking w)
     = if isVisibilityTrackingInitialized w then observed w else ∅.
Proof.
  unfold _initVisibilityTracking.
  destruct (isVisibilityTrackingInitialized w); [repeat split|].
  unfold _initScrollDepthTracking, _initSectionVisibilityTracking, onScroll.
  destruct w; world_simpl. repeat split.
Qed.

(** X14.  What a call of [trackSectionVisibility] leaves on the elements.
    The scan goes through the registered selectors in the order of the
    selector map and ends at the first one that does not parse, where
    [querySelectorAll] throws.  An element of the document that matches one
    of the selectors the scan gets through is tagged with the last of them
    it matches and is observed; any other element keeps its tag, and is
    observed only if it was and the observer is not a new one. *)
Theorem scan_tags (h : Host) (doc : list nat) (w : World) (n : nat) :
  let w' := trackSectionVisibility h doc w in
  let found := scanned h doc (parsed h (getRegisteredSelectors w)) n in
  viewSelector w' !! n
  = match found with
    | Some s => Some s
    | None => viewSelector w !! n
    end
  /\ (n ∈ observed w'
      <-> found <> None
          \/ (isVisibilityTrackingInitialized w = true /\ n ∈ observed w)).
Proof.
  intros w' found. subst w' found. rewrite trackSectionVisibility_ops.
  cbv zeta.
  destruct (init_tags w) as (E1 & E2 & E3).
  set (wm := with_mutationObservers _ _).
  assert (F : viewSelector wm = viewSelector w
              /\ getRegisteredSelectors wm = getRegisteredSelectors w
              /\ observed wm
                 = if isVisibilityTrackingInitialized w then observed w
                   else ∅).
  { unfold getRegisteredSelectors. rewrite <- E1, <- E2, <- E3. subst wm.
    generalize (_initVisibilityTracking w). intros w0.
    destruct w0; repeat split. }
  destruct F as (F1 & F2 & F3). rewrite F2.
  destruct (ops_result
              (scanOps h doc (parsed h (getRegisteredSelectors w))) wm n)
    as [G1 G2].
  rewrite assigned_scanOps in G1, G2. rewrite F1 in G1. rewrite F3 in G2.
  split; [exact G1|]. rewrite G2.
  destruct (isVisibilityTrackingInitialized w).
  - tauto.
  - rewrite elem_of_empty. intuition discriminate.
Qed.

(** ** Mutations *)

Lemma ops_selectors (ops : list (nat * string)) (w : World) :
  getRegisteredSelectors (fold_left trackOp ops w) = getRegisteredSelectors w.
Proof. rewrite ops_shape. destruct w; reflexivity. Qed.

Lemma ops_idem (ops : list (nat * string)) (w : World) :
  fold_left trackOp ops (fold_left trackOp ops w) = fold_left trackOp ops w.
Proof.
  rewrite !ops_shape. destruct w; world_simpl.
  rewrite tagsOf_idem, targetsOf_idem. reflexivity.
Qed.

Lemma onMutations_idem (h : Host) (mutations : list (list AddedNode))
    (w : World) :
  onMutations h mutations (onMutations h mutations w)
  = onMutations h mutations w.
Proof.
  rewrite (onMutations_ops h mutations w).
  rewrite onMutations_ops, ops_selectors. apply ops_idem.
Qed.

Lemma single_node_ops (h : Host) (selectors : list string)
    (node : AddedNode) :
  mutationOps h selectors [[node]] = nodeOps h (parsed h selectors) node.
Proof.
  unfold mutationOps. cbn [flat_map concat List.find app].
  rewrite !app_nil_r.
  destruct (forallb (parses h) selectors) eqn:E.
  - rewrite (parsed_all h selectors E). reflexivity.
  - unfold is_element, nodeOps.
    destruct (node_element node) eqn:En; [rewrite En|]; reflexivity.
Qed.

(** X15.  The mutation callback.  For one added node: a node that is not an
    [HTMLElement] is skipped, with everything below it; an added element is
    handled as a scan of the element and its descendants, for the
    registered selectors before the first one that does not parse: each of
    them that matches one of these selectors is tagged with the last of them
    it matches and is observed, and nothing else changes.  For a batch of
    nodes: when a registered selector does not parse, the exception ends the
    callback at the first added element, so the batch leaves what that
    element alone leaves, and nothing if no element was added. *)
Theorem added_node_scanned (h : Host) (w : World) (node : AddedNode)
    (n : nat) :
  let w' := onMutations h [[node]] w in
  match node_element node with
  | None => w' = w
  | Some e =>
      let found :=
        scanned h (e :: node_descendants node)
          (parsed h (getRegisteredSelectors w)) n in
      viewSelector w' !! n
      = match found with
        | Some s => Some s
        | None => viewSelector w !! n
        end
      /\ (n ∈ observed w' <-> found <> None \/ n ∈ observed w)
  end
  /\ forall mutations,
       forallb (parses h) (getRegisteredSelectors w) = false ->
       onMutations h mutations w
       = match List.find is_element (concat mutations) with
         | Some first => onMutations h [[first]] w
         | None => w
         end.
Proof.
  cbv zeta. split.
  - rewrite onMutations_ops, single_node_ops. unfold nodeOps.
    destruct (node_element node) as [e|]; [|reflexivity].
    rewrite <- assigned_scanOps. apply ops_result.
  - intros mutations Hbad. rewrite onMutations_ops.
    unfold mutationOps at 1. rewrite Hbad.
    destruct (List.find is_element (concat mutations)) as [first|];
      [|reflexivity].
    rewrite onMutations_ops, single_node_ops. reflexivity.
Qed.

(** X16.  Every call of [trackSectionVisibility] adds a mutation observer,
    and every observer runs the callback on a batch of mutations; the
    further runs change nothing: with any number of observers, the batch
    leaves the state that one run of the callback leaves. *)
Theorem mutation_observers_agree (h : Host) (w : World)
    (mutations : list (list AddedNode)) (m : nat) :
  mutationObservers w = S m ->
  step h w (Mutations mutations) = onMutations h mutations w.
Proof.
  intros Hm. cbn [step]. rewrite Hm. clear Hm.
  induction m as [|m IH]; [reflexivity|].
  change (Nat.iter (S (S m)) (onMutations h mutations) w)
    with (onMutations h mutations
            (Nat.iter (S m) (onMutations h mutations) w)).
  rewrite IH. apply onMutations_idem.
Qed.

Lemma mutation_observers_agree_witness :
  let w :=
    run exampleHost freshPage
      [CallAddSectionVisibility "r1" "hero" noSettings;
       CallTrackSectionVisibility []; CallTrackSectionVisibility []] in
  step exampleHost w (Mutations [[mkAdded (Some 2%nat) []]])
  = onMutations exampleHost [[mkAdded (Some 2%nat) []]] w.
Proof.
  intros w.
  apply (mutation_observers_agree exampleHost w [[mkAdded (Some 2%nat) []]]
           1).
  vm_compute. reflexivity.
Defined.

(** ** The depth of a sample *)

Lemma Qfloor_int (q : Q) (z : Z) :
  (inject_Z z <= q)%Q -> (q < inject_Z z + 1)%Q -> Qfloor q = z.
Proof.
  intros H1 H2.
  assert (A : (inject_Z (Qfloor q) <= q)%Q) by apply Qfloor_le.
  assert (B : (q < inject_Z (Qfloor q + 1))%Q) by apply Qlt_floor.
  rewrite inject_Z_plus in B. change (inject_Z 1) with 1%Q in B.
  assert (C : (inject_Z (Qfloor q) < inject_Z (z + 1))%Q).
  { rewrite inject_Z_plus. change (inject_Z 1) with 1%Q.
    generalize dependent (inject_Z (Qfloor q)).
    generalize dependent (inject_Z z). intros. lra. }
  assert (D : (inject_Z z < inject_Z (Qfloor q + 1))%Q).
  { rewrite inject_Z_plus. change (inject_Z 1) with 1%Q.
    generalize dependent (inject_Z (Qfloor q)).
    generalize dependent (inject_Z z). intros. lra. }
  rewrite <- Zlt_Qlt in C, D. lia.
Qed.

Lemma round_bounds (q : Q) :
  (q - (1 # 2) <= inject_Z (Qfloor (q + (1 # 2))))%Q
  /\ (inject_Z (Qfloor (q + (1 # 2))) <= q + (1 # 2))%Q.
Proof.
  pose proof (Qfloor_le (q + (1 # 2))) as A.
  pose proof (Qlt_floor (q + (1 # 2))) as B.
  rewrite inject_Z_plus in B. change (inject_Z 1) with 1%Q in B.
  generalize dependent (inject_Z (Qfloor (q + (1 # 2)))). intros. lra.
Qed.

Lemma round_nonneg (q : Q) :
  (0 <= q)%Q -> (0 <= inject_Z (Qfloor (q + (1 # 2))))%Q.
Proof.
  intros H. change 0%Q with (inject_Z 0) at 1. rewrite <- Zle_Qle.
  apply floor_half_nonneg, H.
Qed.

Lemma round_int (q : Q) (z : Z) :
  (q == inject_Z z)%Q -> Qfloor (q + (1 # 2)) = z.
Proof.
  intros E. apply Qfloor_int.
  - generalize dependent (inject_Z z). intros. lra.
  - generalize dependent (inject_Z z). intros. lra.
Qed.

Lemma round100_bounds (q : Q) :
  (q - (1 # 200) <= round_half_up_100 q)%Q
  /\ (round_half_up_100 q <= q + (1 # 200))%Q.
Proof.
  unfold round_half_up_100.
  destruct (round_bounds (q * 100)) as [A B].
  generalize dependent (inject_Z (Qfloor (q * 100 + (1 # 2)))). intros z A B.
  split.
  - apply Qle_shift_div_l; lra.
  - apply Qle_shift_div_r; lra.
Qed.

Lemma round100_int (q : Q) (z : Z) :
  (q == inject_Z z)%Q -> (round_half_up_100 q == inject_Z z)%Q.
Proof.
  intros E. unfold round_half_up_100.
  rewrite (round_int (q * 100) (z * 100)).
  - rewrite inject_Z_mult. change (inject_Z 100) with 100%Q. field.
  - rewrite inject_Z_mult. change (inject_Z 100) with 100%Q.
    generalize dependent (inject_Z z). intros. lra.
Qed.

Lemma round100_full (q : Q) : (100 <= q)%Q -> (100 <= round_half_up_100 q)%Q.
Proof.
  intros H. unfold round_half_up_100.
  assert (A : (10000 <= Qfloor (q * 100 + (1 # 2)))%Z).
  { change 10000%Z with (Qfloor (inject_Z 10000)) at 1.
    apply Qfloor_resp_le. change (inject_Z 10000) with 10000%Q. lra. }
  rewrite Zle_Qle in A. change (inject_Z 10000) with 10000%Q in A.
  apply Qle_shift_div_l; lra.
Qed.

Lemma Qdiv_le_1 (a h : Q) : (0 < h)%Q -> (a <= h)%Q -> (a / h <= 1)%Q.
Proof. intros Hh Ha. apply Qle_shift_div_r; lra. Qed.

Lemma Qdiv_ge_1 (a h : Q) : (0 < h)%Q -> (h <= a)%Q -> (1 <= a / h)%Q.
Proof. intros Hh Ha. apply Qle_shift_div_l; lra. Qed.

Lemma Qdiv_ge_0 (a h : Q) : (0 < h)%Q -> (0 <= a)%Q -> (0 <= a / h)%Q.
Proof. intros Hh Ha. apply Qle_shift_div_l; lra. Qed.

Lemma Qdiv_le_0 (a h : Q) : (0 < h)%Q -> (a <= 0)%Q -> (a / h <= 0)%Q.
Proof. intros Hh Ha. apply Qle_shift_div_r; lra. Qed.

Lemma Qdiv_gt_0 (a h : Q) : (0 < h)%Q -> (0 < a)%Q -> (0 < a / h)%Q.
Proof. intros Hh Ha. apply Qlt_shift_div_l; lra. Qed.

Lemma Qdiv_lt_0 (a h : Q) : (0 < h)%Q -> (a < 0)%Q -> (a / h < 0)%Q.
Proof. intros Hh Ha. apply Qlt_shift_div_r; lra. Qed.

Lemma Qdiv_lt_1 (a h : Q) : (0 < h)%Q -> (a < h)%Q -> (a / h < 1)%Q.
Proof. intros Hh Ha. apply Qlt_shift_div_r; lra. Qed.

Lemma Qdiv_gt_1 (a h : Q) : (0 < h)%Q -> (h < a)%Q -> (1 < a / h)%Q.
Proof. intros Hh Ha. apply Qlt_shift_div_l; lra. Qed.

Lemma Qdiv_self (h : Q) : (0 < h)%Q -> (h / h == 1)%Q.
Proof. intros Hh. field. lra. Qed.

Lemma Qdiv_sum (a b h : Q) : (0 < h)%Q -> (a / h + b / h == (a + b) / h)%Q.
Proof. intros Hh. field. lra. Qed.

(** The share of the element above the viewport, [ratioTop]. *)
Lemma ratioTop_meaning (rect : DOMRect) :
  (0 < rect_height rect)%Q ->
  exists r, ratioTopOf rect = Fin r
    /\ (0 <= r)%Q
    /\ ((0 <= rect_top rect)%Q -> (r == 0)%Q)
    /\ ((rect_top rect <= 0)%Q ->
        (- rect_top rect / rect_height rect * 100 - (1 # 200) <= r)%Q
        /\ (r <= - rect_top rect / rect_height rect * 100 + (1 # 200))%Q)
    /\ ((rect_height rect <= - rect_top rect)%Q -> (100 <= r)%Q).
Proof.
  intros Hh. unfold ratioTopOf, visibleTopOf, num0, num100.
  cbn [num_neg]. rewrite Math_max_fin.
  assert (E : Qis0 (rect_height rect) = false) by (apply Qis0_false; lra).
  cbn [num_div]. rewrite E. cbn [num_mul].
  set (v := if Qltb 0 (- rect_top rect) then (- rect_top rect)%Q else 0%Q).
  assert (Hv : (0 <= v)%Q) by (subst v; cases_Q; lra).
  assert (Hq : (0 <= v / rect_height rect * 100)%Q).
  { pose proof (Qdiv_ge_0 v _ Hh Hv).
    generalize dependent (v / rect_height rect)%Q. intros. lra. }
  unfold toFixed2.
  assert (E0 : Qltb (v / rect_height rect * 100) 0 = false)
    by (apply Qltb_false; exact Hq).
  rewrite E0. eexists. split; [reflexivity|].
  destruct (round100_bounds (v / rect_height rect * 100)) as [B1 B2].
  split; [|split; [|split]].
  - assert (Hz : (0 <= Qfloor (v / rect_height rect * 100 * 100 + (1 # 2)))%Z)
      by (apply floor_half_nonneg; lra).
    unfold round_half_up_100. rewrite Zle_Qle in Hz.
    change (inject_Z 0) with 0%Q in Hz. apply Qle_shift_div_l; lra.
  - intros Ht. apply (round100_int _ 0).
    assert (Ev : (v == 0)%Q) by (subst v; cases_Q; lra).
    rewrite Ev. change (inject_Z 0) with 0%Q. field. lra.
  - intros Ht.
    assert (Ev : (v == - rect_top rect)%Q) by (subst v; cases_Q; lra).
    rewrite <- Ev. split; assumption.
  - intros Ht. apply round100_full.
    assert (Ev : (v == - rect_top rect)%Q) by (subst v; cases_Q; lra).
    assert (H1 : (1 <= v / rect_height rect)%Q)
      by (apply Qdiv_ge_1; [exact Hh | rewrite Ev; exact Ht]).
    generalize dependent (v / rect_height rect)%Q. intros. lra.
Qed.

(** The visible share, [visibleRatio]: what is rounded is the height of the
    part of the element inside the viewport. *)
Lemma visibleRatio_meaning (rect : DOMRect) (viewportHeight : Q) :
  (0 < rect_height rect)%Q ->
  (rect_bottom rect == rect_top rect + rect_height rect)%Q ->
  (0 <= viewportHeight)%Q ->
  exists r, visibleRatioOf rect viewportHeight = Fin r
    /\ (0 <= r)%Q
    /\ ((rect_bottom rect < 0)%Q -> (r == 0)%Q)
    /\ ((viewportHeight < rect_top rect)%Q -> (r == 0)%Q)
    /\ ((0 <= rect_bottom rect)%Q -> (rect_top rect <= viewportHeight)%Q ->
        exists e,
          r = inject_Z (Qfloor (e / rect_height rect * 100 + (1 # 2)))
          /\ ((0 <= rect_top rect)%Q ->
              (viewportHeight - rect_top rect <= rect_height rect)%Q ->
              (e == viewportHeight - rect_top rect)%Q)
          /\ ((0 <= rect_top rect)%Q ->
              (rect_height rect <= viewportHeight - rect_top rect)%Q ->
              (e == rect_height rect)%Q)
          /\ ((rect_top rect <= 0)%Q ->
              (viewportHeight - rect_top rect <= rect_height rect)%Q ->
              (e == viewportHeight)%Q)
          /\ ((rect_top rect <= 0)%Q ->
              (rect_height rect <= viewportHeight - rect_top rect)%Q ->
              (e == rect_bottom rect)%Q)).
Proof.
  intros Hh Hb Hv. unfold visibleRatioOf, visibleTopOf, num0, num100.
  cbn [num_ltb num_gtb num_neg num_sub num_add].
  rewrite !Math_max_fin, Math_min_fin. cbn [num_sub num_add num_neg].
  rewrite Math_max_fin.
  assert (E : Qis0 (rect_height rect) = false) by (apply Qis0_false; lra).
  assert (Eh : Qltb 0 (rect_height rect) = true) by (apply Qltb_true; lra).
  rewrite Eh. cbn [num_div]. rewrite E. cbn [num_mul Math_round].
  destruct (Qltb (rect_bottom rect) 0) eqn:E1;
    [apply Qltb_true in E1 | apply Qltb_false in E1].
  { exists 0%Q. repeat split; try lra. }
  destruct (Qltb viewportHeight (rect_top rect)) eqn:E2;
    [apply Qltb_true in E2 | apply Qltb_false in E2].
  { exists 0%Q. repeat split; try lra. }
  destruct (Qltb (viewportHeight + - rect_top rect) (rect_height rect))
    eqn:E3; [apply Qltb_true in E3 | apply Qltb_false in E3];
    (destruct (Qltb 0 (- rect_top rect)) eqn:E4;
     [apply Qltb_true in E4 | apply Qltb_false in E4]);
    (match goal with
     | |- context [Qltb 0 ?x] => destruct (Qltb 0 x) eqn:E5
     end; [apply Qltb_true in E5 | apply Qltb_false in E5]);
    (eexists; split; [reflexivity|]; split; [|split; [|split]]; try lra;
     first
     [match goal with
      | |- (0 <= inject_Z (Qfloor (?e / _ * 100 + _)))%Q =>
          let He := fresh "He" in
          let Hd := fresh "Hd" in
          assert (He : (0 <= e)%Q) by lra;
          pose proof (Qdiv_ge_0 e _ Hh He) as Hd;
          apply round_nonneg;
          generalize dependent (e / rect_height rect)%Q; intros; lra
      end
     |intros _ _; eexists; (split; [reflexivity|]);
      repeat split; intros; lra]).
Qed.

Ltac depth_atoms :=
  repeat match goal with
  | |- context [inject_Z (Qfloor ?x)] =>
      generalize dependent (inject_Z (Qfloor x)); intros
  | |- context [(?a / ?b)%Q] => generalize dependent (a / b)%Q; intros
  end.

(** X17.  What the depth of a sample measures.  For an element of positive
    height, whose box has its bottom at [top + height], in a viewport of
    height [viewportHeight >= 0], the depth is a number between 0 and 100
    that follows the share of the element's height that lies above the
    bottom edge of the viewport: it is 0 as long as the element has not been
    reached, 100 once the element is above the viewport and when it lies
    inside the viewport entirely, and in between it stays within 1 of that
    share.  The two parts of the depth are rounded to 1/100 and to 1; the
    arithmetic here is exact where the code computes in doubles, and the
    distance of 1 leaves room for the rounding of the doubles. *)
Theorem depth_meaning (rect : DOMRect) (viewportHeight : Q) :
  (0 < rect_height rect)%Q ->
  (rect_bottom rect == rect_top rect + rect_height rect)%Q ->
  (0 <= viewportHeight)%Q ->
  exists d, depthOf rect viewportHeight = Fin d
    /\ (0 <= d)%Q /\ (d <= 100)%Q
    /\ ((reached rect viewportHeight <= 0)%Q -> (d == 0)%Q)
    /\ ((0 <= reached rect viewportHeight)%Q ->
        (reached rect viewportHeight <= 100)%Q ->
        (reached rect viewportHeight - 1 <= d)%Q
        /\ (d <= reached rect viewportHeight + 1)%Q)
    /\ ((100 <= reached rect viewportHeight)%Q -> (99 <= d)%Q)
    /\ ((0 <= rect_top rect)%Q -> (100 <= reached rect viewportHeight)%Q ->
        (d == 100)%Q)
    /\ ((rect_bottom rect < 0)%Q -> (d == 100)%Q).
Proof.
  intros Hh Hb Hv.
  destruct (ratioTop_meaning rect Hh) as (r1 & E1 & Hr1 & Z1 & A1 & F1).
  destruct (visibleRatio_meaning rect viewportHeight Hh Hb Hv)
    as (r2 & E2 & Hr2 & B2 & C2 & M2).
  unfold depthOf. rewrite E1, E2. cbn [num_add]. unfold num100.
  rewrite Math_min_fin. eexists. split; [reflexivity|]. unfold reached.
  destruct (Qlt_le_dec (rect_bottom rect) 0) as [Hpast|Hnot].
  { (* above the viewport *)
    specialize (B2 Hpast).
    assert (F : (100 <= r1)%Q) by (apply F1; lra).
    assert (X : (1 < (viewportHeight - rect_top rect) / rect_height rect)%Q)
      by (apply Qdiv_gt_1; lra).
    clear Z1 A1 F1 C2 M2. depth_atoms. cases_Q; repeat split; intros; lra. }
  destruct (Qlt_le_dec viewportHeight (rect_top rect)) as [Hbelow|Hin].
  { (* below the viewport *)
    specialize (C2 Hbelow).
    assert (Z : (r1 == 0)%Q) by (apply Z1; lra).
    assert (X : ((viewportHeight - rect_top rect) / rect_height rect < 0)%Q)
      by (apply Qdiv_lt_0; lra).
    clear Z1 A1 F1 B2 M2. depth_atoms. cases_Q; repeat split; intros; lra. }
  destruct (M2 Hnot Hin) as (e & -> & K1 & K2 & K3 & K4).
  clear M2 B2 C2 E2.
  destruct (Qlt_le_dec (rect_top rect) 0) as [Hneg|Hpos];
    destruct (Qlt_le_dec (viewportHeight - rect_top rect) (rect_height rect))
      as [Hpart|Hfull].
  - (* the top is above the viewport, the bottom below it *)
    assert (Ke : (e == viewportHeight)%Q) by (apply K3; lra).
    destruct (A1 ltac:(lra)) as [A2 A3].
    destruct (round_bounds (e / rect_height rect * 100)) as [R1 R2].
    assert (S : (- rect_top rect / rect_height rect + e / rect_height rect
                 == (viewportHeight - rect_top rect) / rect_height rect)%Q).
    { rewrite Ke. field. lra. }
    assert (X1 : (0 < (viewportHeight - rect_top rect) / rect_height rect)%Q)
      by (apply Qdiv_gt_0; lra).
    assert (X2 : ((viewportHeight - rect_top rect) / rect_height rect < 1)%Q)
      by (apply Qdiv_lt_1; lra).
    clear Z1 A1 F1 K1 K2 K3 K4 Ke. depth_atoms.
    cases_Q; repeat split; intros; lra.
  - (* the top is above the viewport, the bottom inside it *)
    assert (Ke : (e == rect_bottom rect)%Q) by (apply K4; lra).
    destruct (A1 ltac:(lra)) as [A2 A3].
    destruct (round_bounds (e / rect_height rect * 100)) as [R1 R2].
    assert (S : (- rect_top rect / rect_height rect + e / rect_height rect
                 == 1)%Q).
    { rewrite Ke, Hb. field. lra. }
    assert (X1 : (1 <= (viewportHeight - rect_top rect) / rect_height rect)%Q)
      by (apply Qdiv_ge_1; lra).
    clear Z1 A1 F1 K1 K2 K3 K4 Ke. depth_atoms.
    cases_Q; repeat split; intros; lra.
  - (* the top is inside the viewport, the bottom below it *)
    assert (Ke : (e == viewportHeight - rect_top rect)%Q) by (apply K1; lra).
    assert (Z : (r1 == 0)%Q) by (apply Z1; lra).
    assert (S : (e / rect_height rect
                 == (viewportHeight - rect_top rect) / rect_height rect)%Q)
      by (rewrite Ke; reflexivity).
    assert (X1 : (0 <= (viewportHeight - rect_top rect) / rect_height rect)%Q)
      by (apply Qdiv_ge_0; lra).
    assert (X2 : ((viewportHeight - rect_top rect) / rect_height rect < 1)%Q)
      by (apply Qdiv_lt_1; lra).
    assert (R0 : ((viewportHeight - rect_top rect) / rect_height rect * 100
                  <= 0)%Q ->
                 Qfloor (e / rect_height rect * 100 + (1 # 2)) = 0%Z).
    { intros H0. apply round_int. change (inject_Z 0) with 0%Q.
      generalize dependent (e / rect_height rect)%Q.
      generalize dependent
        ((viewportHeight - rect_top rect) / rect_height rect)%Q.
      intros. lra. }
    destruct (round_bounds (e / rect_height rect * 100)) as [R1 R2].
    clear Z1 A1 F1 K1 K2 K3 K4 Ke.
    split; [|split; [|split]].
    + depth_atoms. cases_Q; lra.
    + depth_atoms. cases_Q; lra.
    + intros H0. rewrite (R0 H0). change (inject_Z 0) with 0%Q.
      clear R0 R1 R2. depth_atoms. cases_Q; lra.
    + clear R0. depth_atoms. cases_Q; repeat split; intros; lra.
  - (* the element is inside the viewport *)
    assert (Ke : (e == rect_height rect)%Q) by (apply K2; lra).
    assert (Z : (r1 == 0)%Q) by (apply Z1; lra).
    assert (R0 : Qfloor (e / rect_height rect * 100 + (1 # 2)) = 100%Z).
    { apply round_int. change (inject_Z 100) with 100%Q. rewrite Ke.
      field. lra. }
    assert (X1 : (1 <= (viewportHeight - rect_top rect) / rect_height rect)%Q)
      by (apply Qdiv_ge_1; lra).
    rewrite R0. change (inject_Z 100) with 100%Q.
    clear Z1 A1 F1 K1 K2 K3 K4 Ke R0. depth_atoms.
    cases_Q; repeat split; intros; lra.
Qed.

Lemma depth_meaning_witness :
  exists d, depthOf (rectAt 400) 800 = Fin d /\ (0 <= d)%Q /\ (d <= 100)%Q.
Proof.
  destruct (depth_meaning (rectAt 400) 800) as (d & E & H0 & H100 & _).
  - reflexivity.
  - reflexivity.
  - discriminate.
  - exists d. auto.
Defined.

(** X18.  In the first generation of the class the depth of a sample is
    always a whole percentage, whatever the box: between 0 and 100, and 0
    for an element of no height that is not above the viewport. *)
Theorem InternalGA_scrollDepth_range (rect : DOMRect) (viewportHeight : Q) :
  (exists z, InternalGA_scrollDepth rect viewportHeight = ofZ z
             /\ (0 <= z <= 100)%Z)
  /\ ((rect_height rect <= 0)%Q -> (0 <= rect_bottom rect)%Q ->
      InternalGA_scrollDepth rect viewportHeight = num0).
Proof.
  unfold InternalGA_scrollDepth, num0, num100.
  cbn [num_ltb num_gtb num_neg num_sub num_add].
  rewrite !Math_max_fin, Math_min_fin. cbn [num_sub num_add num_neg].
  rewrite Math_max_fin.
  destruct (Qltb (rect_bottom rect) 0) eqn:E1;
    [apply Qltb_true in E1 | apply Qltb_false in E1].
  { split; [exists 100%Z; split; [reflexivity | lia] | intros; lra]. }
  destruct (Qltb viewportHeight (rect_top rect)) eqn:E2;
    [split; [exists 0%Z; split; [reflexivity | lia] | reflexivity]|].
  destruct (Qltb 0 (rect_height rect)) eqn:Eh;
    [apply Qltb_true in Eh | apply Qltb_false in Eh].
  2:{ split; [exists 0%Z; split; [reflexivity | lia] | reflexivity]. }
  split; [|intros; lra].
  assert (E : Qis0 (rect_height rect) = false) by (apply Qis0_false; lra).
  cbn [num_div]. rewrite E. cbn [num_mul Math_round].
  eexists. split; [reflexivity|].
  set (e := if Qltb 0 _ then _ else 0%Q).
  assert (He : (0 <= e)%Q /\ (e <= rect_height rect)%Q).
  { subst e.
    destruct (Qltb (viewportHeight + - rect_top rect) (rect_height rect))
      eqn:E3; [apply Qltb_true in E3 | apply Qltb_false in E3];
      (destruct (Qltb 0 (- rect_top rect)) eqn:E4;
       [apply Qltb_true in E4 | apply Qltb_false in E4]);
      cases_Q; lra. }
  destruct He as [He0 He1].
  pose proof (Qdiv_ge_0 e _ Eh He0) as D0.
  pose proof (Qdiv_le_1 e _ Eh He1) as D1.
  split.
  - apply floor_half_nonneg.
    generalize dependent (e / rect_height rect)%Q. intros. lra.
  - apply floor_half_le. change (inject_Z 100) with 100%Q.
    generalize dependent (e / rect_height rect)%Q. intros. lra.
Qed.

(** ** Strings *)

Lemma str_app_cons (x : ascii) (a b : string) :
  String x a ++ b = String x (a ++ b).
Proof. reflexivity. Qed.

Lemma str_app_nil_l (a : string) : EmptyString ++ a = a.
Proof. reflexivity. Qed.

Lemma str_app_assoc (a b c : string) : (a ++ b) ++ c = a ++ b ++ c.
Proof.
  induction a as [|x a IH]; [reflexivity|].
  rewrite !str_app_cons. f_equal. exact IH.
Qed.

Lemma str_app_nil_r (a : string) : a ++ EmptyString = a.
Proof.
  induction a as [|x a IH]; [reflexivity|].
  rewrite str_app_cons. f_equal. exact IH.
Qed.

Lemma lacks_app (c : ascii) (a b : string) :
  lacks c (a ++ b) = lacks c a && lacks c b.
Proof.
  induction a as [|x a IH]; [reflexivity|].
  rewrite str_app_cons. cbn [lacks]. rewrite IH, andb_assoc. reflexivity.
Qed.

Lemma lacks_drop (c : ascii) (n : nat) (s : string) :
  lacks c s = true -> lacks c (str_drop n s) = true.
Proof.
  revert s. induction n as [|n IH]; intros s; [auto|].
  destruct s as [|x s]; cbn [str_drop lacks]; [auto|].
  intros H. apply andb_prop in H. apply IH, H.
Qed.

Lemma prefix_cons (a b : ascii) (s t : string) :
  String.prefix (String a s) (String b t)
  = Ascii.eqb a b && String.prefix s t.
Proof.
  cbn [String.prefix]. destruct (ascii_dec a b) as [->|Hne].
  - rewrite Ascii.eqb_refl. reflexivity.
  - apply Ascii.eqb_neq in Hne. rewrite Hne. reflexivity.
Qed.

Lemma prefix_nil_r (s : string) :
  String.prefix s EmptyString = match s with EmptyString => true | _ => false end.
Proof. destruct s; reflexivity. Qed.

(** A string with no [;] is a prefix of [p ++ rest], where [rest] is empty
    or starts with [;], exactly when it is a prefix of [p]. *)
Lemma prefix_segment (a p rest : string) :
  lacks ";"%char a = true ->
  rest = EmptyString \/ (exists r, rest = String ";"%char r) ->
  String.prefix a (p ++ rest) = String.prefix a p.
Proof.
  intros Ha Hrest. revert a Ha.
  induction p as [|x p IH]; intros a Ha.
  - rewrite str_app_nil_l. destruct a as [|y a]; [destruct rest; reflexivity|].
    cbn [lacks] in Ha. apply andb_prop in Ha. destruct Ha as [Hy _].
    destruct Hrest as [->|[r ->]]; [reflexivity|].
    rewrite prefix_cons. apply negb_true_iff in Hy. rewrite Hy. reflexivity.
  - destruct a as [|y a]; [reflexivity|].
    rewrite str_app_cons, !prefix_cons.
    cbn [lacks] in Ha. apply andb_prop in Ha. destruct Ha as [_ Ha].
    rewrite IH by exact Ha. reflexivity.
Qed.

Lemma segments_shape (pairs : list string) :
  segments pairs = EmptyString
  \/ exists r, segments pairs = String ";"%char r.
Proof. destruct pairs; [left | right; eexists]; reflexivity. Qed.

Lemma split_go_skip (sep : string) (k : nat) (cur s : string) :
  split_go sep k cur s = split_go sep 0 cur (str_drop k s).
Proof.
  revert k. induction s as [|x s IH]; intros k.
  - destruct k; reflexivity.
  - destruct k as [|k]; [reflexivity|]. cbn [split_go str_drop]. apply IH.
Qed.

(** Characters other than the first of the separator are read into the
    current piece. *)
Lemma split_go_read (c : ascii) (sep cur q rest : string) :
  lacks c q = true ->
  split_go (String c sep) 0 cur (q ++ rest)
  = split_go (String c sep) 0 (cur ++ q) rest.
Proof.
  revert cur. induction q as [|x q IH]; intros cur Hq.
  - rewrite str_app_nil_l, str_app_nil_r. reflexivity.
  - cbn [lacks] in Hq. apply andb_prop in Hq. destruct Hq as [Hx Hq].
    rewrite str_app_cons. cbn [split_go]. rewrite prefix_cons.
    apply negb_true_iff in Hx. rewrite Ascii.eqb_sym in Hx. rewrite Hx.
    cbn [andb]. rewrite IH by exact Hq.
    rewrite str_app_assoc. reflexivity.
Qed.

Lemma drop_prefix (a p rest : string) :
  String.prefix a p = true ->
  str_drop (String.length a) (p ++ rest)
  = str_drop (String.length a) p ++ rest.
Proof.
  revert p. induction a as [|x a IH]; intros p; [reflexivity|].
  destruct p as [|y p]; [discriminate|].
  rewrite prefix_cons. intros H. apply andb_prop in H.
  rewrite str_app_cons. cbn [String.length str_drop]. apply IH, H.
Qed.

(** [split] at ["; name="] of a string of pairs. *)
Lemma split_segments (name : string) (pairs : list string) (cur : string) :
  lacks ";"%char name = true ->
  forallb (lacks ";"%char) pairs = true ->
  split_go ("; " ++ name ++ "=") 0 cur (segments pairs)
  = pieces name cur pairs.
Proof.
  intros Hn. revert cur.
  induction pairs as [|p pairs IH]; intros cur Hp; [reflexivity|].
  cbn [forallb] in Hp. apply andb_prop in Hp. destruct Hp as [Hp Hps].
  assert (Hsep : lacks ";"%char (name ++ "=") = true)
    by (rewrite lacks_app, Hn; reflexivity).
  cbn [segments pieces].
  change ("; " ++ p ++ segments pairs)
    with (String ";"%char (String " "%char (p ++ segments pairs))).
  change ("; " ++ name ++ "=")
    with (String ";"%char (String " "%char (name ++ "="))).
  cbn [split_go]. rewrite !prefix_cons. cbn [Ascii.eqb Bool.eqb andb].
  rewrite (prefix_segment (name ++ "=") p (segments pairs) Hsep
             (segments_shape pairs)).
  destruct (String.prefix (name ++ "=") p) eqn:Hit.
  - f_equal. cbn [String.length Nat.sub].
    rewrite split_go_skip, (drop_prefix _ _ _ Hit).
    rewrite (split_go_read ";"%char (String " "%char (name ++ "=")));
      [|apply lacks_drop, Hp].
    apply IH, Hps.
  - rewrite (split_go_read ";"%char (String " "%char (name ++ "=")) _ p)
      by exact Hp.
    rewrite !str_app_assoc. exact (IH _ Hps).
Qed.

Lemma pieces_length (name cur : string) (pairs : list string) :
  length (pieces name cur pairs)
  = S (length (List.filter (String.prefix (name ++ "=")) pairs)).
Proof.
  revert cur. induction pairs as [|p pairs IH]; intros cur;
    cbn [pieces List.filter]; [reflexivity|].
  destruct (String.prefix (name ++ "=") p); cbn [length]; rewrite IH;
    reflexivity.
Qed.

Lemma pieces_none (name cur : string) (pairs : list string) :
  List.filter (String.prefix (name ++ "=")) pairs = [] ->
  pieces name cur pairs = [cur ++ segments pairs].
Proof.
  revert cur. induction pairs as [|p pairs IH]; intros cur;
    cbn [pieces List.filter segments].
  - rewrite str_app_nil_r. reflexivity.
  - destruct (String.prefix (name ++ "=") p); [discriminate|].
    intros H. rewrite (IH _ H), !str_app_assoc. reflexivity.
Qed.

Lemma pieces_one (name cur p : string) (pairs : list string) :
  List.filter (String.prefix (name ++ "=")) pairs = [p] ->
  exists after,
    last (pieces name cur pairs)
    = Some (str_drop (String.length (name ++ "=")) p ++ segments after).
Proof.
  revert cur. induction pairs as [|p0 pairs IH]; intros cur;
    cbn [pieces List.filter]; [discriminate|].
  destruct (String.prefix (name ++ "=") p0).
  - intros H. injection H as -> H. exists pairs.
    rewrite (pieces_none _ _ _ H). reflexivity.
  - intros H. apply IH, H.
Qed.

Lemma head_split (q rest : string) :
  lacks ";"%char q = true ->
  rest = EmptyString \/ (exists r, rest = String ";"%char r) ->
  head (js_split ";" (q ++ rest)) = Some q.
Proof.
  intros Hq Hrest. unfold js_split.
  rewrite (split_go_read ";"%char EmptyString EmptyString q rest Hq).
  rewrite str_app_nil_l.
  destruct Hrest as [->|[r ->]]; [reflexivity|].
  cbn [split_go]. change ";" with (String ";"%char EmptyString).
  rewrite prefix_cons, Ascii.eqb_refl. destruct r; reflexivity.
Qed.

(** [#_readCookie] on a string of pairs. *)
Lemma read_pairs (name : string) (pairs : list string) :
  lacks ";"%char name = true ->
  forallb (lacks ";"%char) pairs = true ->
  (let parts := js_split ("; " ++ name ++ "=") (segments pairs) in
   if Nat.eqb (length parts) 2
   then match last parts with
        | Some p => head (js_split ";" p)
        | None => None
        end
   else None)
  = match List.filter (String.prefix (name ++ "=")) pairs with
    | [p] => Some (str_drop (String.length (name ++ "=")) p)
    | _ => None
    end.
Proof.
  intros Hn Hp. cbv zeta.
  change (js_split ("; " ++ name ++ "=") (segments pairs))
    with (split_go ("; " ++ name ++ "=") 0 EmptyString (segments pairs)).
  rewrite (split_segments name pairs EmptyString Hn Hp), pieces_length.
  destruct (List.filter (String.prefix (name ++ "=")) pairs)
    as [|p [|p' l]] eqn:Hf; [reflexivity| |reflexivity].
  cbn [length Nat.eqb].
  destruct (pieces_one name EmptyString p pairs Hf) as (after & ->).
  apply head_split; [|apply segments_shape].
  apply lacks_drop.
  assert (Hin : In p (List.filter (String.prefix (name ++ "=")) pairs))
    by (rewrite Hf; left; reflexivity).
  apply (filter_In (String.prefix (name ++ "=")) p pairs) in Hin.
  rewrite forallb_forall in Hp. apply Hp, Hin.
Qed.

Lemma concat_segments (pairs : list string) :
  pairs <> [] -> "; " ++ String.concat "; " pairs = segments pairs.
Proof.
  induction pairs as [|p pairs IH]; [congruence|]. intros _.
  destruct pairs as [|p' pairs].
  - cbn [String.concat segments]. rewrite str_app_nil_r. reflexivity.
  - change (String.concat "; " (p :: p' :: pairs))
      with (p ++ "; " ++ String.concat "; " (p' :: pairs)).
    rewrite IH by discriminate. reflexivity.
Qed.

Lemma prefix_name (name n v : string) :
  lacks "="%char name = true -> lacks "="%char n = true ->
  String.prefix (name ++ "=") (n ++ "=" ++ v) = String.eqb n name.
Proof.
  revert n. induction name as [|x name IH]; intros n Hname Hn.
  - destruct n as [|y n].
    { change (String.prefix (String "="%char EmptyString) (String "="%char v)
              = true).
      rewrite prefix_cons, Ascii.eqb_refl. destruct v; reflexivity. }
    cbn [lacks] in Hn. apply andb_prop in Hn. destruct Hn as [Hy _].
    rewrite str_app_nil_l, str_app_cons.
    change "=" with (String "="%char EmptyString). rewrite prefix_cons.
    apply negb_true_iff in Hy. rewrite Ascii.eqb_sym, Hy. reflexivity.
  - cbn [lacks] in Hname. apply andb_prop in Hname.
    destruct Hname as [Hx Hname]. rewrite str_app_cons.
    destruct n as [|y n].
    + rewrite str_app_nil_l. change ("=" ++ v) with (String "="%char v).
      rewrite prefix_cons. apply negb_true_iff in Hx. rewrite Hx.
      reflexivity.
    + cbn [lacks] in Hn. apply andb_prop in Hn. destruct Hn as [_ Hn].
      rewrite str_app_cons, prefix_cons, (IH n Hname Hn).
      cbn [String.eqb]. rewrite (Ascii.eqb_sym x y). reflexivity.
Qed.

Lemma drop_app (a b : string) : str_drop (String.length a) (a ++ b) = b.
Proof.
  induction a as [|x a IH]; [reflexivity|].
  rewrite str_app_cons. cbn [String.length str_drop]. exact IH.
Qed.

(** ** The cookies shown to the page *)

Lemma insert_by_path_In (x c : Cookie) (l : list Cookie) :
  In x (insert_by_path c l) <-> x = c \/ In x l.
Proof.
  induction l as [|c' l IH]; cbn [insert_by_path In].
  - intuition congruence.
  - destruct (String.length (cookie_path c') <=? String.length (cookie_path c))%nat;
      cbn [In]; [intuition congruence|].
    rewrite IH. intuition congruence.
Qed.

Lemma by_path_In (x : Cookie) (l : list Cookie) :
  In x (by_path l) <-> In x l.
Proof.
  induction l as [|c l IH]; [reflexivity|].
  unfold by_path. cbn [fold_right In]. fold (by_path l).
  rewrite insert_by_path_In, IH. intuition congruence.
Qed.

Lemma visible_cookies_In (h : Host) (now : Z) (jar : list Cookie)
    (c : Cookie) :
  In c (visible_cookies h now jar)
  <-> In c jar /\ cookie_visible h now c = true.
Proof. unfold visible_cookies. rewrite by_path_In. apply filter_In. Qed.

Lemma filter_insert_length (P : Cookie -> bool) (c : Cookie)
    (l : list Cookie) :
  length (List.filter P (insert_by_path c l))
  = length (List.filter P (c :: l)).
Proof.
  induction l as [|c' l IH]; [reflexivity|].
  cbn [insert_by_path].
  destruct (String.length (cookie_path c') <=? String.length (cookie_path c))%nat;
    [reflexivity|].
  cbn [List.filter] in *.
  destruct (P c'), (P c); cbn [length] in *; lia.
Qed.

Lemma filter_by_path_length (P : Cookie -> bool) (l : list Cookie) :
  length (List.filter P (by_path l)) = length (List.filter P l).
Proof.
  induction l as [|c l IH]; [reflexivity|].
  unfold by_path. cbn [fold_right]. fold (by_path l).
  rewrite filter_insert_length. cbn [List.filter].
  destruct (P c); cbn [length]; lia.
Qed.

Lemma filter_by_path_single (P : Cookie -> bool) (c : Cookie)
    (l : list Cookie) :
  List.filter P l = [c] -> List.filter P (by_path l) = [c].
Proof.
  intros E. pose proof (filter_by_path_length P l) as L. rewrite E in L.
  destruct (List.filter P (by_path l)) as [|x [|y r]] eqn:F;
    try discriminate L.
  assert (Hx : In x (List.filter P (by_path l)))
    by (rewrite F; left; reflexivity).
  apply filter_In in Hx. destruct Hx as [Hx Px].
  apply (proj1 (by_path_In x l)) in Hx.
  assert (Hx' : In x (List.filter P l)) by (apply filter_In; auto).
  rewrite E in Hx'. destruct Hx' as [->|[]]. reflexivity.
Qed.

Lemma filter_both (P Q : Cookie -> bool) (l : list Cookie) :
  List.filter P (List.filter Q l) = List.filter (fun c => Q c && P c) l.
Proof.
  induction l as [|c l IH]; [reflexivity|]. cbn [List.filter].
  destruct (Q c); cbn [List.filter andb]; rewrite IH; reflexivity.
Qed.

Lemma visible_cookies_ok (h : Host) (now : Z) (jar : list Cookie) :
  forallb cookie_ok jar = true ->
  forallb cookie_ok (visible_cookies h now jar) = true.
Proof.
  rewrite !forallb_forall. intros H c Hc.
  apply visible_cookies_In in Hc. apply H, Hc.
Qed.

(** [#_readCookie] when the cookies shown to the page are well formed. *)
Lemma readCookie_filter (h : Host) (now : Z) (name : string) (w : World) :
  name_ok name = true ->
  forallb cookie_ok (visible_cookies h now (cookies w)) = true ->
  _readCookie h now name w
  = match List.filter (named name) (visible_cookies h now (cookies w)) with
    | [c] => Some (cookie_value c)
    | _ => None
    end.
Proof.
  intros Hname Hjar. apply andb_prop in Hname. destruct Hname as [Hn1 Hn2].
  unfold _readCookie, document_cookie.
  set (shown := visible_cookies h now (cookies w)) in *.
  set (pair := fun c => cookie_name c ++ "=" ++ cookie_value c).
  assert (Hpair : forall c, In c shown ->
            lacks ";"%char (pair c) = true
            /\ String.prefix (name ++ "=") (pair c) = named name c
            /\ str_drop (String.length (name ++ "=")) (pair c)
               = if named name c then cookie_value c
                 else str_drop (String.length (name ++ "=")) (pair c)).
  { intros c Hc. rewrite forallb_forall in Hjar. specialize (Hjar c Hc).
    unfold cookie_ok, name_ok in Hjar.
    apply andb_prop in Hjar. destruct Hjar as [Hcn Hcv].
    apply andb_prop in Hcn. destruct Hcn as [Hc1 Hc2].
    subst pair. cbv beta. split; [|split].
    - rewrite !lacks_app, Hc1, Hcv. reflexivity.
    - apply prefix_name; assumption.
    - unfold named. destruct (String.eqb_spec (cookie_name c) name) as [E|];
        [|reflexivity].
      rewrite E, <- str_app_assoc. apply drop_app. }
  assert (Hall : forallb (lacks ";"%char) (map pair shown) = true).
  { apply forallb_forall. intros p Hp. apply in_map_iff in Hp.
    destruct Hp as (c & <- & Hc). apply (Hpair c Hc). }
  assert (Hgen : forall cs, (forall c, In c cs -> In c shown) ->
            List.filter (String.prefix (name ++ "=")) (map pair cs)
            = map pair (List.filter (named name) cs)).
  { induction cs as [|c cs IH]; intros Hcs; [reflexivity|].
    cbn [map List.filter].
    destruct (Hpair c (Hcs c (or_introl eq_refl))) as (_ & -> & _).
    rewrite IH by (intros c1 Hc1; apply Hcs; right; exact Hc1).
    destruct (named name c); reflexivity. }
  specialize (Hgen shown (fun c Hc => Hc)).
  set (pairs := match map pair shown with
                | [] => [EmptyString]
                | l => l
                end).
  assert (Eseg : "; " ++ String.concat "; " (map pair shown)
                 = segments pairs).
  { subst pairs. destruct (map pair shown) as [|p l] eqn:E.
    - reflexivity.
    - apply concat_segments. discriminate. }
  rewrite Eseg.
  assert (Hlacks : forallb (lacks ";"%char) pairs = true).
  { subst pairs. destruct (map pair shown); [reflexivity | exact Hall]. }
  pose proof (read_pairs name pairs Hn1 Hlacks) as R. cbv zeta in R.
  cbv zeta. rewrite R. clear R.
  assert (Hfilter : List.filter (String.prefix (name ++ "=")) pairs
                    = map pair (List.filter (named name) shown)).
  { subst pairs. destruct shown as [|c l]; [|exact Hgen].
    cbn [map List.filter]. rewrite prefix_nil_r.
    destruct name; reflexivity. }
  rewrite Hfilter.
  destruct (List.filter (named name) shown) as [|c [|c' l]] eqn:Hf;
    try reflexivity.
  cbn [map].
  assert (Hin : In c (List.filter (named name) shown))
    by (rewrite Hf; left; reflexivity).
  apply (filter_In (named name) c shown) in Hin.
  destruct Hin as [Hin Hnamed].
  destruct (Hpair c Hin) as (_ & _ & ->). rewrite Hnamed. reflexivity.
Qed.

(** X19.  What [#_readCookie] returns.  The page is shown the cookies of
    the jar that have not expired at the time of the call and whose domain
    and path match the page.  When these are well formed, and for a
    well-formed name, [#_readCookie] returns the value of the cookie of that
    name if exactly one is shown, and nothing if none or several are. *)
Theorem readCookie_spec (h : Host) (now : Z) (name : string) (w : World) :
  name_ok name = true ->
  forallb cookie_ok (visible_cookies h now (cookies w)) = true ->
  _readCookie h now name w
  = match List.filter (named name) (visible_cookies h now (cookies w)) with
    | [c] => Some (cookie_value c)
    | _ => None
    end
  /\ forall c, In c (visible_cookies h now (cookies w))
               <-> In c (cookies w)
                   /\ (now < cookie_expires c)%Z
                   /\ domain_matches h (cookie_domain c) = true
                   /\ path_matches h (cookie_path c) = true.
Proof.
  intros Hname Hjar. split; [apply readCookie_filter; assumption|].
  intros c. rewrite visible_cookies_In. unfold cookie_visible.
  rewrite !andb_true_iff, Z.ltb_lt. tauto.
Qed.

Lemma readCookie_spec_witness :
  _readCookie exampleHost 2000 "__internal_ga_session_G-1__" returningPage
  = Some "1000".
Proof.
  destruct (readCookie_spec exampleHost 2000 "__internal_ga_session_G-1__"
              returningPage) as [H _].
  - reflexivity.
  - reflexivity.
  - exact H.
Defined.

(** ** Writing a cookie *)

Lemma same_cookie_key (a b : Cookie) :
  same_cookie a b = true <-> cookie_key a = cookie_key b.
Proof.
  unfold same_cookie, cookie_key. rewrite !andb_true_iff, !String.eqb_eq.
  split; [intros [[-> ->] ->]; reflexivity | intros E; injection E; auto].
Qed.

Lemma put_cookie_In (c c0 : Cookie) (jar : list Cookie) :
  In c0 (put_cookie c jar) -> c0 = c \/ In c0 jar.
Proof.
  induction jar as [|c' jar IH]; cbn [put_cookie In];
    [intuition congruence|].
  destruct (same_cookie c c'); cbn [In]; intuition congruence.
Qed.

Lemma put_cookie_keys (c : Cookie) (jar : list Cookie) :
  List.NoDup (map cookie_key jar) ->
  List.NoDup (map cookie_key (put_cookie c jar)).
Proof.
  induction jar as [|c' jar IH]; cbn [put_cookie map]; intros H.
  - constructor; [intros [] | constructor].
  - inversion H as [|k l Hk Hl]; subst.
    destruct (same_cookie c c') eqn:E; cbn [map].
    + apply same_cookie_key in E. rewrite E. exact H.
    + constructor; [|apply IH, Hl].
      intros Hin. apply in_map_iff in Hin. destruct Hin as (c0 & E0 & Hc0).
      apply put_cookie_In in Hc0. destruct Hc0 as [->|Hc0].
      * apply same_cookie_key in E0. congruence.
      * apply Hk. apply in_map_iff. exists c0. auto.
Qed.

Lemma put_cookie_ok (c : Cookie) (jar : list Cookie) :
  cookie_ok c = true -> forallb cookie_ok jar = true ->
  forallb cookie_ok (put_cookie c jar) = true.
Proof.
  intros Hc. induction jar as [|c' jar IH]; cbn [put_cookie forallb].
  - intros _. rewrite Hc. reflexivity.
  - intros H. apply andb_prop in H. destruct H as [H1 H2].
    destruct (same_cookie c c'); cbn [forallb].
    + rewrite Hc, H2. reflexivity.
    + rewrite H1, (IH H2). reflexivity.
Qed.

Lemma put_cookie_filter (P : Cookie -> bool) (c : Cookie)
    (jar : list Cookie) :
  P c = true ->
  List.NoDup (map cookie_key jar) ->
  (forall c', In c' jar -> P c' = true -> cookie_key c' = cookie_key c) ->
  List.filter P (put_cookie c jar) = [c].
Proof.
  intros Hc.
  induction jar as [|c' jar IH]; intros Hnd Hall;
    cbn [put_cookie List.filter].
  - rewrite Hc. reflexivity.
  - inversion Hnd as [|k l Hk Hl]; subst.
    destruct (same_cookie c c') eqn:E; cbn [List.filter].
    + rewrite Hc. f_equal.
      apply same_cookie_key in E.
      assert (Hnone : forall c0, In c0 jar -> P c0 = false).
      { intros c0 Hc0. destruct (P c0) eqn:En; [|reflexivity].
        exfalso. apply Hk. apply in_map_iff. exists c0.
        split; [|exact Hc0]. rewrite <- E. apply Hall; [right|]; assumption. }
      clear -Hnone. induction jar as [|c0 jar IH]; [reflexivity|].
      cbn [List.filter]. rewrite (Hnone c0 (or_introl eq_refl)).
      apply IH. intros c1 Hc1. apply Hnone. right. exact Hc1.
    + assert (Hn : P c' = false).
      { destruct (P c') eqn:En; [|reflexivity].
        assert (Ek : cookie_key c = cookie_key c')
          by (symmetry; apply Hall; [left; reflexivity | exact En]).
        apply same_cookie_key in Ek. congruence. }
      rewrite Hn. apply IH; [exact Hl|].
      intros c0 Hc0. apply Hall. right. exact Hc0.
Qed.

(** [#_writeCookie] at [now], then [#_readCookie] of the same name at
    [later]. *)
Lemma writeCookie_read (h : Host) (now later : Z) (name value : string)
    (options : CookieOptions) (w : World) :
  name_ok name = true -> lacks ";"%char value = true ->
  forallb cookie_ok (cookies w) = true ->
  List.NoDup (map cookie_key (cookies w)) ->
  (now <= later)%Z ->
  cookie_visible h later (writtenCookie h now name value options) = true ->
  (forall c, In c (cookies w) -> cookie_name c = name ->
             cookie_visible h later c = true ->
             cookie_domain c = str_or (opt_domain options) (hostname h)
             /\ cookie_path c = str_or (opt_path options) "/") ->
  let w' := _writeCookie h now name value options w in
  _readCookie h later name w' = Some value
  /\ forallb cookie_ok (cookies w') = true
  /\ List.NoDup (map cookie_key (cookies w')).
Proof.
  intros Hname Hvalue Hjar Hnd Hlater Hshown Hother w'.
  set (c := writtenCookie h now name value options) in *.
  assert (Ew : cookies w' = put_cookie c (cookies w)).
  { subst w'. unfold _writeCookie. cbv zeta. fold (writtenCookie h now name value options).
    fold c. unfold store_cookie. unfold cookie_visible in Hshown.
    apply andb_prop in Hshown. destruct Hshown as [Hs _].
    apply andb_prop in Hs. destruct Hs as [He Hd].
    rewrite Hd. cbn [negb]. apply Z.ltb_lt in He.
    destruct (Z.leb_spec (cookie_expires c) now) as [Hle|_]; [lia|].
    destruct w; reflexivity. }
  assert (Hc : cookie_ok c = true).
  { unfold cookie_ok. cbn [cookie_name cookie_value c writtenCookie].
    rewrite Hname, Hvalue. reflexivity. }
  assert (Hjar' : forallb cookie_ok (cookies w') = true)
    by (rewrite Ew; apply put_cookie_ok; assumption).
  split; [|split; [exact Hjar'|rewrite Ew; apply put_cookie_keys, Hnd]].
  rewrite (readCookie_filter h later name w' Hname
             (visible_cookies_ok h later _ Hjar')), Ew.
  unfold visible_cookies.
  rewrite (filter_by_path_single (named name) c); [reflexivity|].
  rewrite filter_both. apply put_cookie_filter.
  - rewrite Hshown. apply String.eqb_refl.
  - exact Hnd.
  - intros c' Hc' Hp. apply andb_prop in Hp. destruct Hp as [Hv Hn].
    apply String.eqb_eq in Hn. destruct (Hother c' Hc' Hn Hv) as [Ed Ep].
    unfold cookie_key. cbn [cookie_name cookie_domain cookie_path c writtenCookie].
    rewrite Hn, Ed, Ep. reflexivity.
Qed.

(** X20.  A cookie that was written can be read back, when the browser
    keeps it and shows it.  [#_writeCookie] at time [now] hands the browser
    the cookie [writtenCookie]; suppose that at the time [later] of the
    reading this cookie is shown to the page: its domain and its path match
    the page and its expiry, written to the second, is after [later].  On a
    jar of well-formed cookies with one cookie per name, domain and path, in
    which no other cookie of the written name is shown at [later] under
    another domain or path, [#_readCookie] of the same name at [later] gives
    the written value; the jar stays of that kind.  A write for a domain
    that does not match the page leaves the jar as it was. *)
Theorem write_then_read (h : Host) (now later : Z) (name value : string)
    (options : CookieOptions) (w : World) :
  name_ok name = true -> lacks ";"%char value = true ->
  forallb cookie_ok (cookies w) = true ->
  List.NoDup (map cookie_key (cookies w)) ->
  (now <= later)%Z ->
  (later < cookie_expires (writtenCookie h now name value options))%Z ->
  domain_matches h (str_or (opt_domain options) (hostname h)) = true ->
  path_matches h (str_or (opt_path options) "/") = true ->
  (forall c, In c (cookies w) -> cookie_name c = name ->
             cookie_visible h later c = true ->
             cookie_domain c = str_or (opt_domain options) (hostname h)
             /\ cookie_path c = str_or (opt_path options) "/") ->
  let w' := _writeCookie h now name value options w in
  _readCookie h later name w' = Some value
  /\ forallb cookie_ok (cookies w') = true
  /\ List.NoDup (map cookie_key (cookies w'))
  /\ forall options',
       domain_matches h (str_or (opt_domain options') (hostname h)) = false ->
       cookies (_writeCookie h now name value options' w) = cookies w.
Proof.
  intros Hname Hvalue Hjar Hnd Hlater Hexp Hdom Hpath Hother w'.
  assert (Hshown : cookie_visible h later
                     (writtenCookie h now name value options) = true).
  { unfold cookie_visible. apply Z.ltb_lt in Hexp. rewrite Hexp.
    cbn [cookie_domain cookie_path writtenCookie]. rewrite Hdom, Hpath.
    reflexivity. }
  destruct (writeCookie_read h now later name value options w Hname Hvalue
              Hjar Hnd Hlater Hshown Hother) as (H1 & H2 & H3).
  repeat split; [exact H1 | exact H2 | exact H3 |].
  intros options' Hbad. unfold _writeCookie, store_cookie. cbv zeta.
  cbn [cookie_domain]. rewrite Hbad. destruct w; reflexivity.
Qed.

Lemma write_then_read_witness :
  _readCookie exampleHost 6000 "__internal_ga_session_G-1__"
    (_writeCookie exampleHost 5000 "__internal_ga_session_G-1__" "5000"
       (mkCookieOptions None None None None) returningPage)
  = Some "5000".
Proof.
  destruct (write_then_read exampleHost 5000 6000
              "__internal_ga_session_G-1__"
              "5000" (mkCookieOptions None None None None) returningPage)
    as [H _].
  - reflexivity.
  - reflexivity.
  - reflexivity.
  - constructor; [intros [] | constructor].
  - lia.
  - vm_compute. reflexivity.
  - reflexivity.
  - reflexivity.
  - intros c [<-|[]] _ _. split; reflexivity.
  - exact H.
Defined.

(** ** The session cookie *)

Lemma pretty_N_char_lacks (x : N) :
  negb (Ascii.eqb (pretty_N_char x) ";"%char) = true.
Proof. unfold pretty_N_char. repeat case_match; reflexivity. Qed.

Lemma pretty_N_go_lacks (x : N) (s : string) :
  lacks ";"%char s = true -> lacks ";"%char (pretty_N_go x s) = true.
Proof.
  revert s. induction (N.lt_wf_0 x) as [x _ IH]. intros s Hs.
  destruct (N.eq_dec x 0%N) as [->|Hx]; [rewrite pretty_N_go_0; exact Hs|].
  rewrite pretty_N_go_step by lia. apply IH.
  - apply N.div_lt; lia.
  - cbn [lacks]. rewrite pretty_N_char_lacks, Hs. reflexivity.
Qed.

Lemma pretty_N_go_truthy (x : N) (s : string) :
  str_truthy s = true -> str_truthy (pretty_N_go x s) = true.
Proof.
  revert s. induction (N.lt_wf_0 x) as [x _ IH]. intros s Hs.
  destruct (N.eq_dec x 0%N) as [->|Hx]; [rewrite pretty_N_go_0; exact Hs|].
  rewrite pretty_N_go_step by lia. apply IH; [apply N.div_lt; lia|].
  reflexivity.
Qed.

Lemma pretty_positive_value (p : positive) :
  lacks ";"%char (pretty p) = true /\ str_truthy (pretty p) = true.
Proof.
  unfold pretty, pretty_positive, pretty, pretty_N.
  destruct (decide (N.pos p = 0%N)) as [E|_]; [discriminate E|].
  rewrite pretty_N_go_step by lia. split.
  - apply pretty_N_go_lacks. cbn [lacks].
    rewrite pretty_N_char_lacks. reflexivity.
  - apply pretty_N_go_truthy. reflexivity.
Qed.

(** [Date.now().toString()] is not empty and holds no [;]. *)
Lemma pretty_Z_value (z : Z) :
  lacks ";"%char (pretty z) = true /\ str_truthy (pretty z) = true.
Proof.
  destruct z as [|p|p]; unfold pretty, pretty_Z.
  - split; reflexivity.
  - apply pretty_positive_value.
  - destruct (pretty_positive_value p) as [H _].
    change ("-" +:+ pretty p) with (String "-"%char (pretty p)).
    cbn [lacks str_truthy]. rewrite H. split; reflexivity.
Qed.

Lemma str_or_same (s : string) : str_or (Some s) s = s.
Proof. destruct s; reflexivity. Qed.

Lemma str_or_empty (s : string) : str_or (Some s) EmptyString = s.
Proof. destruct s; reflexivity. Qed.

Lemma sessionKey_ok (w : World) :
  name_ok (trackingId w) = true -> name_ok (sessionKey w) = true.
Proof.
  unfold name_ok, sessionKey. intros H. apply andb_prop in H.
  destruct H as [H1 H2]. rewrite !lacks_app, H1, H2. reflexivity.
Qed.

Lemma readCookie_jar (h : Host) (now : Z) (name : string) (w w' : World) :
  cookies w' = cookies w ->
  _readCookie h now name w' = _readCookie h now name w.
Proof.
  intros E. unfold _readCookie, document_cookie. rewrite E. reflexivity.
Qed.

(** X21.  The session cookie makes the round trip between two visits.  The
    unload handler armed by [trackUserReturn] writes, at time [now], a session
    cookie for the host name and the path [/] that expires a year later, to
    the second.  Suppose the browser accepts it and shows it: the host name
    and the path [/] match the page, and the next visit, at time [later], is
    before that expiry.  On a jar of well-formed cookies, one per name,
    domain and path, in which the session cookie, if there is one, is the
    one the class writes: the cookie reads back at once as the time of the
    unload, and on the next page the call of [trackUserReturn] sends one
    [return_visit] event whose duration is the time since that unload, and
    arms the handler again. *)
Theorem session_round_trip (h : Host) (now later : Z) (w : World)
    (dl : option (list Payload)) :
  name_ok (trackingId w) = true ->
  forallb cookie_ok (cookies w) = true ->
  List.NoDup (map cookie_key (cookies w)) ->
  (forall c, In c (cookies w) -> cookie_name c = sessionKey w ->
             cookie_domain c = hostname h /\ cookie_path c = "/") ->
  domain_matches h (hostname h) = true ->
  path_matches h "/" = true ->
  (now <= later)%Z ->
  (later < (now + year_ms) / 1000 * 1000)%Z ->
  Number h (pretty now) = ofZ now ->
  let w1 := onHandleCloseTab h now w in
  let page := new_VnsGaUtil (Some (trackingId w)) (cookies w1) dl in
  _readCookie h now (sessionKey w1) w1 = Some (pretty now)
  /\ layer (trackUserReturn h later page)
     = (layer page
        ++ [ReturnVisitPayload (num_sub (ofZ later) (ofZ now))])%list
  /\ beforeunload (trackUserReturn h later page) = [handleCloseTab].
Proof.
  intros Hid Hjar Hnd Hother Hdom Hpath Hle Hexp Hnum w1 page.
  destruct (pretty_Z_value now) as [Hp1 Hp2].
  assert (Ekey : sessionKey w1 = sessionKey w)
    by (subst w1; destruct w; reflexivity).
  assert (Ekey' : sessionKey page = sessionKey w).
  { subst page. unfold sessionKey. cbn [trackingId new_VnsGaUtil].
    rewrite str_or_empty. reflexivity. }
  set (options := {| opt_expires := Some (now + year_ms)%Z;
                     opt_path := Some "/";
                     opt_domain := Some (hostname h);
                     opt_sameSite := Some "lax" |}).
  assert (Eexp : cookie_expires
                   (writtenCookie h now (sessionKey w) (pretty now) options)
                 = ((now + year_ms) / 1000 * 1000)%Z).
  { cbn [cookie_expires writtenCookie opt_expires options].
    destruct (Z.eqb_spec (now + year_ms) 0) as [E|_]; reflexivity. }
  assert (Hshown : forall t, (t < (now + year_ms) / 1000 * 1000)%Z ->
            cookie_visible h t
              (writtenCookie h now (sessionKey w) (pretty now) options)
            = true).
  { intros t Ht. unfold cookie_visible. rewrite Eexp.
    apply Z.ltb_lt in Ht. rewrite Ht.
    cbn [cookie_domain cookie_path writtenCookie opt_domain opt_path options].
    rewrite str_or_same, Hdom. cbn [str_or str_truthy]. rewrite Hpath.
    reflexivity. }
  assert (Hother' : forall t c, In c (cookies w) ->
            cookie_name c = sessionKey w -> cookie_visible h t c = true ->
            cookie_domain c = str_or (opt_domain options) (hostname h)
            /\ cookie_path c = str_or (opt_path options) "/").
  { intros t c Hc En _. cbn [opt_domain opt_path options].
    rewrite str_or_same. apply (Hother c Hc En). }
  destruct (writeCookie_read h now now (sessionKey w) (pretty now) options w
              (sessionKey_ok w Hid) Hp1 Hjar Hnd (Z.le_refl now)
              (Hshown now ltac:(lia)) (Hother' now)) as (Hread & _ & _).
  destruct (writeCookie_read h now later (sessionKey w) (pretty now) options
              w (sessionKey_ok w Hid) Hp1 Hjar Hnd Hle
              (Hshown later Hexp) (Hother' later)) as (Hread2 & _ & _).
  fold (onHandleCloseTab h now w) in Hread, Hread2.
  fold w1 in Hread, Hread2.
  assert (Hread' : _readCookie h later (sessionKey page) page
                   = Some (pretty now)).
  { rewrite Ekey'. rewrite <- Hread2. apply readCookie_jar. reflexivity. }
  split; [rewrite Ekey; exact Hread|].
  unfold trackUserReturn. rewrite Hread', Hp2, Hnum. cbn [negb].
  subst page. split; reflexivity.
Qed.

Lemma session_round_trip_witness :
  layer
    (trackUserReturn exampleHost 9000
       (new_VnsGaUtil (Some "G-1")
          (cookies (onHandleCloseTab exampleHost 5000 returningPage)) None))
  = [ReturnVisitPayload (num_sub (ofZ 9000) (ofZ 5000))].
Proof.
  destruct (session_round_trip exampleHost 5000 9000 returningPage None)
    as (_ & H & _).
  - reflexivity.
  - reflexivity.
  - constructor; [intros [] | constructor].
  - intros c [<-|[]] _. split; reflexivity.
  - reflexivity.
  - reflexivity.
  - lia.
  - vm_compute. reflexivity.
  - vm_compute. reflexivity.
  - exact H.
Defined.

(** ** Invariants of the tags and of the episodes *)


Lemma tags_ok_same (h : Host) (w w' : World) :
  observed w' = observed w -> viewSelector w' = viewSelector w ->
  selectorVisibilityMap w' = selectorVisibilityMap w ->
  tags_ok h w -> tags_ok h w'.
Proof.
  unfold tags_ok, selectors_ok, getRegisteredSelectors.
  intros -> -> ->. tauto.
Qed.

Lemma tags_ok_keys (h : Host) (w w' : World) :
  observed w' = observed w -> viewSelector w' = viewSelector w ->
  (forall s, In s (getRegisteredSelectors w) ->
             In s (getRegisteredSelectors w')) ->
  selectors_ok w' ->
  tags_ok h w -> tags_ok h w'.
Proof.
  unfold tags_ok. intros -> -> Hk Hs (_ & H1 & H2).
  split; [exact Hs|]. split; [exact H1|].
  intros n s Hn. destruct (H2 n s Hn). auto.
Qed.

Lemma tags_ok_ops (h : Host) (ops : list (nat * string)) (w : World) :
  (forall n s, In (n, s) ops ->
               In s (getRegisteredSelectors w) /\ matches h n s = true) ->
  tags_ok h w -> tags_ok h (fold_left trackOp ops w).
Proof.
  intros Hops (Hs & H1 & H2). unfold tags_ok.
  assert (Ek : getRegisteredSelectors (fold_left trackOp ops w)
               = getRegisteredSelectors w) by apply ops_selectors.
  unfold selectors_ok. rewrite Ek. split; [exact Hs|]. split.
  - intros n Hn. destruct (ops_result ops w n) as [-> Ho].
    apply Ho in Hn. destruct (assigned ops n) as [s|]; [eexists; reflexivity|].
    destruct Hn as [Hn|Hn]; [congruence | apply H1, Hn].
  - intros n s. destruct (ops_result ops w n) as [-> _].
    destruct (assigned ops n) as [s'|] eqn:Ea.
    + intros E. injection E as <-. apply Hops, assigned_In, Ea.
    + apply H2.
Qed.

Lemma In_mutationOps (h : Host) (selectors : list string)
    (mutations : list (list AddedNode)) (n : nat) (s : string) :
  In (n, s) (mutationOps h selectors mutations) ->
  In s selectors /\ matches h n s = true.
Proof.
  assert (Hnode : forall sels node, In (n, s) (nodeOps h sels node) ->
            In s sels /\ matches h n s = true).
  { intros sels node Hn. unfold nodeOps in Hn.
    destruct (node_element node) as [e|]; [|destruct Hn].
    apply In_scanOps in Hn. tauto. }
  unfold mutationOps. destruct (forallb (parses h) selectors).
  - rewrite in_flat_map. intros (m & _ & Hm).
    apply in_flat_map in Hm. destruct Hm as (node & _ & Hn).
    apply (Hnode _ _ Hn).
  - destruct (List.find is_element (concat mutations)) as [node|];
      [|intros []].
    intros Hn. apply Hnode in Hn. destruct Hn as [Hs Hm].
    split; [apply (parsed_In h _ _ Hs) | exact Hm].
Qed.

Lemma tags_ok_step (h : Host) (w : World) (a : Activation) :
  tags_ok h w -> tags_ok h (step h w a).
Proof.
  intros Hw. pose proof (step_modifies h w a) as H.
  destruct a as [uuid section settings|id|now|doc|now entries|mutations| |
                 |now innerHeight rects|k|now];
    try (apply (tags_ok_same h w);
         [apply (H F_observed) | apply (H F_viewSelector)
         |apply (H F_selectorVisibilityMap) | exact Hw];
         cbn [footprint In]; intuition discriminate).
  - (* addSectionVisibility *)
    set (r := newSettings uuid section settings).
    assert (Esm : selectorVisibilityMap
                    (step h w (CallAddSectionVisibility uuid section settings))
                  = jm_set (rule_selector r)
                      (default [] (jm_get (rule_selector r)
                                     (selectorVisibilityMap w)) ++ [r])%list
                      (selectorVisibilityMap w))
      by (destruct w; reflexivity).
    apply (tags_ok_keys h w); [..|exact Hw].
    + apply (H F_observed). cbn [footprint In]. intuition discriminate.
    + apply (H F_viewSelector). cbn [footprint In]. intuition discriminate.
    + unfold getRegisteredSelectors. rewrite Esm. apply jm_keys_set.
    + unfold selectors_ok, getRegisteredSelectors. rewrite Esm.
      apply List.Forall_forall. intros s Hs.
      apply jm_keys_set_incl in Hs. destruct Hs as [->|Hs].
      * apply str_or_truthy. reflexivity.
      * destruct Hw as (Hsel & _). unfold selectors_ok in Hsel.
        rewrite List.Forall_forall in Hsel. apply Hsel, Hs.
  - (* dropSectionVisibility *)
    assert (Hkeys : forall s,
              In s (getRegisteredSelectors w)
              <-> In s (getRegisteredSelectors (dropSectionVisibility id w))).
    { intros s. unfold dropSectionVisibility, getRegisteredSelectors.
      destruct (jm_get id (sectionVisibility w)) as [r|]; [|tauto].
      cbv zeta.
      assert (E : selectorVisibilityMap
                    (with_sectionVisibility
                       (jm_delete id (sectionVisibility w)) w)
                  = selectorVisibilityMap w) by (destruct w; reflexivity).
      rewrite E.
      destruct (jm_get (rule_selector r) (selectorVisibilityMap w))
        as [l|] eqn:El; [|rewrite E; tauto].
      destruct (length l <=? 0)%nat; [rewrite E; tauto|].
      assert (E' : forall m,
                selectorVisibilityMap
                  (with_selectorVisibilityMap m
                     (with_sectionVisibility
                        (jm_delete id (sectionVisibility w)) w)) = m)
        by (intros m; destruct w; reflexivity).
      rewrite E', (jm_keys_set_present _ _ _ _ El). tauto. }
    cbn [step]. apply (tags_ok_keys h w); [..|exact Hw].
    + apply (H F_observed). cbn [footprint In]. intuition discriminate.
    + apply (H F_viewSelector). cbn [footprint In]. intuition discriminate.
    + intros s. apply Hkeys.
    + destruct Hw as (Hsel & _). unfold selectors_ok in *.
      rewrite List.Forall_forall in *. intros s Hs. apply Hsel, Hkeys, Hs.
  - (* trackSectionVisibility *)
    cbn [step]. unfold trackSectionVisibility. cbv zeta.
    destruct (init_tags w) as (E1 & E2 & E3).
    set (wm := with_mutationObservers _ _).
    assert (F : viewSelector wm = viewSelector w
                /\ selectorVisibilityMap wm = selectorVisibilityMap w
                /\ observed wm
                   = if isVisibilityTrackingInitialized w then observed w
                     else ∅).
    { rewrite <- E1, <- E2, <- E3. subst wm.
      generalize (_initVisibilityTracking w). intros w0.
      destruct w0; repeat split. }
    destruct F as (F1 & F2 & F3).
    assert (Hwm : tags_ok h wm).
    { destruct Hw as (Hs & H1 & H2). unfold tags_ok, selectors_ok,
        getRegisteredSelectors. rewrite F1, F2, F3.
      split; [exact Hs|]. split; [|exact H2].
      intros n Hn. destruct (isVisibilityTrackingInitialized w);
        [apply H1, Hn | apply elem_of_empty in Hn; destruct Hn]. }
    rewrite scan_ops. apply tags_ok_ops; [|exact Hwm].
    intros n s Hin. apply In_scanOps in Hin. destruct Hin as (Hs & _ & Hm).
    split; [apply (parsed_In h _ _ Hs) | exact Hm].
  - (* mutations *)
    cbn [step]. generalize (mutationObservers w). intros m.
    induction m as [|m IH]; [exact Hw|].
    change (Nat.iter (S m) (onMutations h mutations) w)
      with (onMutations h mutations (Nat.iter m (onMutations h mutations) w)).
    rewrite onMutations_ops. apply tags_ok_ops; [|exact IH].
    intros n s. apply In_mutationOps.
Qed.

Lemma tags_ok_run (h : Host) (trace : list Activation) (w : World) :
  tags_ok h w -> tags_ok h (run h w trace).
Proof.
  revert w. induction trace as [|a l IH]; intros w Hw; [exact Hw|].
  unfold run. cbn [fold_left]. apply IH, tags_ok_step, Hw.
Qed.

(** X22.  Along any run from a new instance the tags are in order: every
    element handed to the intersection observer carries a tag, every tag is
    a registered selector that the element matches, and no registered
    selector is empty.  So the callbacks never skip an observed element for
    want of a selector. *)
Theorem tags_registered (h : Host) (gid : option string) (jar : list Cookie)
    (dl : option (list Payload)) (trace : list Activation) (n : nat) :
  let w := run h (new_VnsGaUtil gid jar dl) trace in
  (n ∈ observed w ->
   exists s, viewSelector w !! n = Some s /\ str_truthy s = true)
  /\ (forall s, viewSelector w !! n = Some s ->
        In s (getRegisteredSelectors w) /\ matches h n s = true
        /\ str_truthy s = true).
Proof.
  intros w.
  assert (Hw : tags_ok h w).
  { subst w. apply tags_ok_run. split; [constructor|]. split.
    - intros k Hk. apply elem_of_empty in Hk. destruct Hk.
    - intros k s Hk. cbn [viewSelector new_VnsGaUtil] in Hk.
      rewrite lookup_empty in Hk. discriminate Hk. }
  destruct Hw as (Hs & H1 & H2). unfold selectors_ok in Hs.
  rewrite List.Forall_forall in Hs.
  assert (H3 : forall s, viewSelector w !! n = Some s ->
            In s (getRegisteredSelectors w) /\ matches h n s = true
            /\ str_truthy s = true).
  { intros s E. destruct (H2 n s E) as [Hin Hm]. auto. }
  split; [|exact H3].
  intros Hn. destruct (H1 n Hn) as [s E]. exists s.
  split; [exact E | apply (H3 s E)].
Qed.

Lemma keyed_set (id : string) (t : SectionTrackedData)
    (m : JsMap SectionTrackedData) :
  tracked_id t = id ->
  (forall k v, jm_get k m = Some v -> tracked_id v = k) ->
  forall k v, jm_get k (jm_set id t m) = Some v -> tracked_id v = k.
Proof.
  intros Ht Hm k v. destruct (String.eqb_spec k id) as [->|Hne].
  - rewrite jm_get_set_eq. intros E. injection E as <-. exact Ht.
  - rewrite jm_get_set_ne by exact Hne. apply Hm.
Qed.

Lemma keyed_delete (id : string) (m : JsMap SectionTrackedData) :
  (forall k v, jm_get k m = Some v -> tracked_id v = k) ->
  forall k v, jm_get k (jm_delete id m) = Some v -> tracked_id v = k.
Proof.
  intros Hm k v. destruct (String.eqb_spec k id) as [->|Hne].
  - rewrite jm_get_delete_eq. discriminate.
  - rewrite jm_get_delete_ne by exact Hne. apply Hm.
Qed.

Lemma keyed_same (w w' : World) :
  sectionMap w' = sectionMap w -> episodes_keyed w -> episodes_keyed w'.
Proof. unfold episodes_keyed. intros ->. auto. Qed.

Lemma keyed_fold {A : Type} (f : World -> A -> World) (l : list A) :
  (forall w a, episodes_keyed w -> episodes_keyed (f w a)) ->
  forall w, episodes_keyed w -> episodes_keyed (fold_left f l w).
Proof.
  intros Hf. induction l as [|a l IH]; intros w Hw; cbn [fold_left]; auto.
Qed.

Lemma onIntersectionEntry_keyed (now : Z) (w : World)
    (e : IntersectionEntry) :
  episodes_keyed w -> episodes_keyed (onIntersectionEntry now w e).
Proof.
  intros Hw. unfold onIntersectionEntry.
  destruct (viewSelector w !! target e) as [selector|]; [|exact Hw].
  destruct (negb (str_truthy selector)); [exact Hw|].
  destruct (isIntersecting e).
  - cbv zeta. unfold episodes_keyed.
    match goal with
    | |- context [jm_set ?k ?v _] =>
        assert (E : sectionMap
                      (with_timers
                         (timers
                            (with_sectionMap
                               (jm_set k v
                                  (sectionMap
                                     (with_viewId
                                        (<[target e := entry_uuid e]>
                                           (viewId w)) w)))
                               (with_viewId
                                  (<[target e := entry_uuid e]> (viewId w))
                                  w))
                          ++ armTimers (entry_uuid e)
                               (default []
                                  (jm_get selector
                                     (selectorVisibilityMap
                                        (with_sectionMap
                                           (jm_set k v
                                              (sectionMap
                                                 (with_viewId
                                                    (<[target e :=
                                                       entry_uuid e]>
                                                       (viewId w)) w)))
                                           (with_viewId
                                              (<[target e := entry_uuid e]>
                                                 (viewId w)) w))))))%list
                         (with_sectionMap
                            (jm_set k v
                               (sectionMap
                                  (with_viewId
                                     (<[target e := entry_uuid e]>
                                        (viewId w)) w)))
                            (with_viewId
                               (<[target e := entry_uuid e]> (viewId w)) w)))
                    = jm_set k v (sectionMap w))
          by (destruct w; reflexivity)
    end.
    rewrite E. apply keyed_set; [reflexivity | exact Hw].
  - destruct (viewId w !! target e) as [outId|]; [|exact Hw].
    destruct (negb (str_truthy outId)); [exact Hw|].
    destruct (jm_get outId (sectionMap w)) as [t|] eqn:Hg; [|exact Hw].
    cbv zeta. unfold episodes_keyed.
    match goal with
    | |- context [with_sectionMap (jm_delete ?k ?m) ?w1] =>
        assert (E : sectionMap (with_sectionMap (jm_delete k m) w1)
                    = jm_delete k (sectionMap w))
          by (destruct w; reflexivity)
    end.
    rewrite E. apply keyed_delete, Hw.
Qed.

Lemma onTimeout_keyed (t : Timer) (w : World) :
  episodes_keyed w -> episodes_keyed (onTimeout t w).
Proof.
  intros Hw. unfold onTimeout.
  destruct (jm_get (timer_episode t) (sectionMap w)) as [s|] eqn:Hg;
    [|exact Hw].
  destruct (includes _ _); [exact Hw|].
  destruct (num_ltb _ _); [exact Hw|].
  cbv zeta. unfold episodes_keyed.
  rewrite with_sectionMap_sectionMap, send_sectionMap.
  apply keyed_set; [apply (Hw _ _ Hg) | exact Hw].
Qed.

Lemma scrollRule_keyed (id : string) (sentEventIds : list string)
    (sectionView : number) (elapsed : Z) (w : World)
    (setting : SectionVisibilitySettings) :
  episodes_keyed w ->
  episodes_keyed (scrollRule id sentEventIds sectionView elapsed w setting).
Proof.
  intros Hw. unfold scrollRule.
  destruct (includes _ _); [exact Hw|].
  destruct (num_ltb sectionView _); [exact Hw|].
  destruct (num_ltb (ofZ elapsed) _); [exact Hw|].
  cbv zeta. rewrite send_sectionMap.
  destruct (jm_get id (sectionMap w)) as [s|] eqn:Hg.
  - unfold episodes_keyed. rewrite with_sectionMap_sectionMap.
    apply keyed_set; [apply (Hw _ _ Hg) | exact Hw].
  - apply (keyed_same w); [apply send_sectionMap | exact Hw].
Qed.

Lemma handleElementScroll_keyed (now : Z) (viewportHeight : Q)
    (rects : nat -> DOMRect) (id : string) (w : World) :
  episodes_keyed w ->
  episodes_keyed (handleElementScroll now viewportHeight rects id w).
Proof.
  intros Hw. unfold handleElementScroll.
  destruct (jm_get id (sectionMap w)) as [s|] eqn:Hg; [|exact Hw].
  destruct (viewSelector w !! element s) as [selector|]; [|exact Hw].
  destruct (negb (str_truthy selector)); [exact Hw|].
  cbv zeta. apply keyed_fold; [intros; apply scrollRule_keyed; assumption|].
  unfold episodes_keyed. rewrite with_sectionMap_sectionMap.
  apply keyed_set; [apply (Hw _ _ Hg) | exact Hw].
Qed.

Lemma step_keyed (h : Host) (w : World) (a : Activation) :
  episodes_keyed w -> episodes_keyed (step h w a).
Proof.
  intros Hw. pose proof (step_modifies h w a) as H.
  destruct a as [uuid section settings|id|now|doc|now entries|mutations| |
                 |now innerHeight rects|k|now];
    try (apply (keyed_same w); [apply (H F_sectionMap) | exact Hw];
         cbn [footprint In]; intuition discriminate);
    cbn [step].
  - destruct (0 <? intersectionObservers w)%nat; [|exact Hw].
    apply keyed_fold; [|exact Hw].
    intros. apply onIntersectionEntry_keyed. assumption.
  - unfold onAnimationFrame. destruct (ticking w); [|exact Hw]. cbv zeta.
    apply keyed_fold;
      [intros; apply handleElementScroll_keyed; assumption|].
    apply (keyed_same w); [destruct w; reflexivity | exact Hw].
  - destruct (timers w !! k) as [t|]; [|exact Hw].
    apply onTimeout_keyed.
    apply (keyed_same w); [destruct w; reflexivity | exact Hw].
Qed.

(** X23.  Along any run from a new instance every episode is stored under
    its own id: the object a scroll sample, a timeout or the flush takes
    from the episode map is the one the map holds under that object's id. *)
Theorem episodes_stored_by_id (h : Host) (gid : option string)
    (jar : list Cookie) (dl : option (list Payload))
    (trace : list Activation) (id : string) (t : SectionTrackedData) :
  jm_get id (sectionMap (run h (new_VnsGaUtil gid jar dl) trace)) = Some t ->
  tracked_id t = id.
Proof.
  revert id t. change (episodes_keyed (run h (new_VnsGaUtil gid jar dl) trace)).
  unfold run. apply keyed_fold; [intros; apply step_keyed; assumption|].
  intros id t Hg. discriminate Hg.
Qed.

Lemma episodes_stored_by_id_witness :
  exists t,
    jm_get "e1" (sectionMap howItWorksInView) = Some t /\ tracked_id t = "e1".
Proof.
  eexists. split; [vm_compute; reflexivity|].
  eapply (episodes_stored_by_id exampleHost (Some "G-1") [] None
            (take 5 twoRulesOneEpisode) "e1").
  vm_compute. reflexivity.
Defined.

(** ** The timer path, from entering view to the timeout *)




(** ** Dropping a rule twice *)

Lemma dropSectionVisibility_ids (id : string) (w : World) :
  sectionVisibility (dropSectionVisibility id w)
  = jm_delete id (sectionVisibility w).
Proof.
  unfold dropSectionVisibility.
  destruct (jm_get id (sectionVisibility w)) as [r|] eqn:Hg.
  - cbv zeta.
    destruct (jm_get _ (selectorVisibilityMap _)) as [l|];
      [destruct (length l <=? 0)%nat|]; destruct w; reflexivity.
  - symmetry. unfold jm_delete. revert Hg.
    induction (sectionVisibility w) as [|[k v] m IH]; [reflexivity|].
    cbn [jm_get List.filter fst].
    destruct (String.eqb id k); [discriminate|].
    intros Hg. cbn [negb]. f_equal. apply IH, Hg.
Qed.

(** X25.  [dropSectionVisibility] of an id that is not registered changes
    nothing, and dropping is idempotent: a second drop of the same id
    changes nothing more, whatever the registry. *)
Theorem drop_idempotent (id : string) (w : World) :
  (jm_get id (sectionVisibility w) = None -> dropSectionVisibility id w = w)
  /\ dropSectionVisibility id (dropSectionVisibility id w)
     = dropSectionVisibility id w.
Proof.
  assert (H : forall w0, jm_get id (sectionVisibility w0) = None ->
                         dropSectionVisibility id w0 = w0).
  { intros w0 Hg. unfold dropSectionVisibility. rewrite Hg. reflexivity. }
  split; [apply H|]. apply H.
  rewrite dropSectionVisibility_ids. apply jm_get_delete_eq.
Qed.
(** ** Registering a rule *)

Lemma jm_get_set_some {V : Type} (k k' : string) (v : V) (m : JsMap V) :
  jm_get k' (jm_set k v m) <> None -> k' = k \/ jm_get k' m <> None.
Proof.
  intros H. destruct (String.eqb_spec k' k) as [E|E]; [left; exact E|].
  right. rewrite jm_get_set_ne in H by exact E. exact H.
Qed.

Lemma jm_get_delete_some {V : Type} (k k' : string) (m : JsMap V) :
  jm_get k' (jm_delete k m) <> None -> jm_get k' m <> None.
Proof.
  intros H. destruct (String.eqb_spec k' k) as [->|E].
  - rewrite jm_get_delete_eq in H. contradiction.
  - rewrite jm_get_delete_ne in H by exact E. exact H.
Qed.

Lemma jm_keys_set_new {V : Type} (k : string) (v : V) (m : JsMap V) :
  jm_get k m = None -> jm_keys (jm_set k v m) = (jm_keys m ++ [k])%list.
Proof.
  unfold jm_keys. induction m as [|[k0 v0] m IH]; cbn [jm_get jm_set map app].
  - reflexivity.
  - destruct (String.eqb k k0); [discriminate|].
    intros H. cbn [map fst]. rewrite (IH H). reflexivity.
Qed.

Lemma ids_among_step (h : Host) (w : World) (a : Activation)
    (ids : list string) :
  ids_among ids w -> ids_among (ids ++ drawnIds [a]) (step h w a).
Proof.
  intros [H1 H2]. pose proof (step_modifies h w a) as H.
  assert (Hsame : ~ In F_sectionVisibility (footprint a) ->
                  ~ In F_selectorVisibilityMap (footprint a) ->
                  ids_among (ids ++ drawnIds [a]) (step h w a)).
  { intros N1 N2. apply H in N1. apply H in N2.
    cbn [field_same] in N1, N2. unfold ids_among. rewrite N1, N2.
    split; [intros k Hk | intros s l r Hl Hr]; apply in_or_app; left;
      eauto. }
  destruct a as [uuid section settings|id|now|doc|now entries|mutations| |
                 |now innerHeight rects|k|now];
    try (apply Hsame; cbn [footprint In]; intuition discriminate).
  - (* addSectionVisibility *)
    set (r := newSettings uuid section settings).
    assert (Esv : sectionVisibility
                    (step h w (CallAddSectionVisibility uuid section settings))
                  = jm_set uuid r (sectionVisibility w))
      by (destruct w; reflexivity).
    assert (Esm : selectorVisibilityMap
                    (step h w (CallAddSectionVisibility uuid section settings))
                  = jm_set (rule_selector r)
                      (default [] (jm_get (rule_selector r)
                                     (selectorVisibilityMap w)) ++ [r])%list
                      (selectorVisibilityMap w))
      by (destruct w; reflexivity).
    unfold ids_among. rewrite Esv, Esm.
    cbn [drawnIds flat_map app]. split.
    + intros k Hk. apply in_or_app. apply jm_get_set_some in Hk.
      destruct Hk as [->|Hk]; [right; left; reflexivity | left; auto].
    + intros s l r0 Hl Hr0. apply in_or_app.
      destruct (String.eqb_spec s (rule_selector r)) as [->|Hne].
      * rewrite jm_get_set_eq in Hl. injection Hl as <-.
        apply in_app_or in Hr0. destruct Hr0 as [Hr0|[<-|[]]];
          [|right; left; reflexivity].
        left.
        change (str_or (p_selector settings) (defaultSelector section))
          with (rule_selector r) in Hr0.
        destruct (jm_get (rule_selector r) (selectorVisibilityMap w))
          as [l0|] eqn:E; [|exact (False_ind _ Hr0)].
        apply (H2 _ l0 r0 E Hr0).
      * rewrite jm_get_set_ne in Hl by exact Hne. left. eauto.
  - (* dropSectionVisibility *)
    cbn [step drawnIds flat_map]. rewrite app_nil_r.
    destruct (jm_get id (sectionVisibility w)) as [r|] eqn:Hr;
      [|rewrite (drop_absent id w Hr); split; assumption].
    destruct (drop_present id w r Hr) as [Esv Esm].
    unfold ids_among. rewrite Esv, Esm. split.
    + intros k Hk. apply H1. apply (jm_get_delete_some id k _ Hk).
    + intros s l r0 Hl Hr0.
      destruct (jm_get (rule_selector r) (selectorVisibilityMap w))
        as [[|s0 l0]|] eqn:E; try (apply (H2 s l r0 Hl Hr0)).
      destruct (String.eqb_spec s (rule_selector r)) as [->|Hne].
      * rewrite jm_get_set_eq in Hl. injection Hl as <-.
        apply (filter_In (fun s' => negb (String.eqb (rule_id s') id)) r0
                 (s0 :: l0)) in Hr0.
        destruct Hr0 as [Hr0 _]. apply (H2 _ _ r0 E Hr0).
      * rewrite jm_get_set_ne in Hl by exact Hne. apply (H2 s l r0 Hl Hr0).
Qed.

Lemma drawnIds_app (l1 l2 : list Activation) :
  drawnIds (l1 ++ l2) = (drawnIds l1 ++ drawnIds l2)%list.
Proof. unfold drawnIds. apply flat_map_app. Qed.

Lemma ids_among_run (h : Host) (trace : list Activation) (w : World)
    (ids : list string) :
  ids_among ids w -> ids_among (ids ++ drawnIds trace) (run h w trace).
Proof.
  revert w ids. induction trace as [|a l IH]; intros w ids Hw.
  - cbn [drawnIds flat_map run fold_left]. rewrite app_nil_r. exact Hw.
  - change (a :: l) with ([a] ++ l)%list. rewrite drawnIds_app.
    rewrite app_assoc. unfold run. cbn [app fold_left].
    apply (IH (step h w a)). apply ids_among_step, Hw.
Qed.

(** The ids in use on a page are ids that [addSectionVisibility] drew. *)
Lemma registered_drawn (h : Host) (gid : option string) (jar : list Cookie)
    (dl : option (list Payload)) (trace : list Activation) :
  ids_among (drawnIds trace) (run h (new_VnsGaUtil gid jar dl) trace).
Proof.
  apply (ids_among_run h trace (new_VnsGaUtil gid jar dl) []).
  split; [intros k Hk; exfalso; apply Hk; reflexivity|].
  intros s l r Hl. discriminate Hl.
Qed.

Lemma num_or_kept (q : Q) (d : number) :
  ~ (q == 0)%Q -> num_or (Some (Fin q)) d = Fin q.
Proof. intros H. simpl. cases_Q; [contradiction | reflexivity]. Qed.

Lemma num_or_zero (q : Q) (d : number) :
  (q == 0)%Q -> num_or (Some (Fin q)) d = d.
Proof. intros H. simpl. cases_Q; [reflexivity | contradiction]. Qed.

Lemma claim_kept (q : Q) :
  (0 < q)%Q -> (q <= 100)%Q ->
  _claim (Fin q) num0 num100 = if Qltb q 100 then Fin q else num100.
Proof.
  intros H0 H100. unfold _claim, Math_min, Math_max, num0, num100. simpl.
  cases_Q; try reflexivity; lra.
Qed.

Lemma floor_kept (q : Q) : (0 < q)%Q -> Math_max (Fin q) num0 = Fin q.
Proof.
  intros H. unfold Math_max, num0. simpl. cases_Q; [lra | reflexivity].
Qed.

(** C4.  [addSectionVisibility] fills the defaults and clamps.  Without a
    selector (or with an empty one) the selector is the text
    [[data-internal-view="section"]] built on the section name, and a
    selector that is given is kept.  The scroll depth is 70 when missing and
    always lies in [0, 100]: a value above 100 becomes 100 (150 does), a
    negative one 0 (-10 does), and a value above 0 and up to 100 is kept.
    The view time is 3000 when missing and never negative: a negative value
    becomes 0 (-500 does) and a positive one is kept.  A depth or a time of
    0 counts as missing, as [||] has it.  A rule with no custom event sends
    its event under the name [view_] followed by the section name, a rule
    with one under that name.  The call returns the id it draws from
    [randomUUID], which is the id of the new rule; it stores the rule under
    it, appends it to the rules of its selector and leaves every other id
    as it was.  The id is unique as far as [randomUUID] is: on a page
    reached by any run from a new instance, an id that [randomUUID] has not
    returned to an earlier call of [addSectionVisibility] is in use nowhere,
    neither in the id map nor on a rule of the selector map; and when the
    id is not in use, the ids in use after the call are those in use before
    it, followed by the new one. *)
Theorem addSectionVisibility_defaults (uuid section : string)
    (settings : PartialSettings) (w : World) :
  let r := newSettings uuid section settings in
  let w' := snd (addSectionVisibility uuid section settings w) in
  (p_selector settings = None \/ p_selector settings = Some EmptyString ->
   rule_selector r
   = "[data-internal-view="
     ++ String "034"%char (section ++ String "034"%char "]"))
  /\ defaultSelector section
     = "[data-internal-view="
       ++ String "034"%char (section ++ String "034"%char "]")
  /\ (forall s, p_selector settings = Some s -> s <> EmptyString ->
      rule_selector r = s)
  /\ (p_scrollDepth settings = None -> rule_scrollDepth r = Fin 70)
  /\ in_percent (rule_scrollDepth r)
  /\ (forall v, p_scrollDepth settings = Some v -> num_ltb num100 v = true ->
      rule_scrollDepth r = num100)
  /\ (forall v, p_scrollDepth settings = Some v -> num_ltb v num0 = true ->
      rule_scrollDepth r = num0)
  /\ (p_scrollDepth settings = Some (Fin 150) -> rule_scrollDepth r = Fin 100)
  /\ (p_scrollDepth settings = Some (Fin (-10)) -> rule_scrollDepth r = Fin 0)
  /\ (forall q, p_scrollDepth settings = Some (Fin q) ->
      (0 < q)%Q -> (q < 100)%Q -> rule_scrollDepth r = Fin q)
  /\ (forall q, p_scrollDepth settings = Some (Fin q) ->
      (0 < q)%Q -> (q <= 100)%Q ->
      exists q', rule_scrollDepth r = Fin q' /\ (q' == q)%Q)
  /\ (forall q, p_scrollDepth settings = Some (Fin q) -> (q == 0)%Q ->
      rule_scrollDepth r = Fin 70)
  /\ (p_viewTime settings = None -> rule_viewTime r = Fin 3000)
  /\ num_le num0 (rule_viewTime r)
  /\ (forall v, p_viewTime settings = Some v -> num_ltb v num0 = true ->
      rule_viewTime r = num0)
  /\ (p_viewTime settings = Some (Fin (-500)) -> rule_viewTime r = Fin 0)
  /\ (forall q, p_viewTime settings = Some (Fin q) -> (0 < q)%Q ->
      rule_viewTime r = Fin q)
  /\ (forall q, p_viewTime settings = Some (Fin q) -> (q == 0)%Q ->
      rule_viewTime r = Fin 3000)
  /\ (p_customEvent settings = None
      \/ p_customEvent settings = Some EmptyString ->
      eventOf r = "view_" ++ section)
  /\ (forall s, p_customEvent settings = Some s -> s <> EmptyString ->
      eventOf r = s)
  /\ rule_section r = section
  /\ fst (addSectionVisibility uuid section settings w) = uuid
  /\ rule_id r = uuid
  /\ jm_get uuid (sectionVisibility w') = Some r
  /\ jm_get (rule_selector r) (selectorVisibilityMap w')
     = Some (default [] (jm_get (rule_selector r) (selectorVisibilityMap w))
             ++ [r])%list
  /\ (forall k, k <> uuid ->
      jm_get k (sectionVisibility w') = jm_get k (sectionVisibility w))
  /\ (forall s, s <> rule_selector r ->
      jm_get s (selectorVisibilityMap w')
      = jm_get s (selectorVisibilityMap w))
  /\ (jm_get uuid (sectionVisibility w) = None ->
      jm_keys (sectionVisibility w')
      = (jm_keys (sectionVisibility w) ++ [uuid])%list)
  /\ (forall h gid jar dl trace,
        w = run h (new_VnsGaUtil gid jar dl) trace ->
        ~ In uuid (drawnIds trace) ->
        jm_get uuid (sectionVisibility w) = None
        /\ (forall s l r0,
              jm_get s (selectorVisibilityMap w) = Some l -> In r0 l ->
              rule_id r0 <> uuid)).
Proof.
  intros r w'.
  assert (Hsd : forall v, p_scrollDepth settings = Some v ->
                num_ltb v num0 = true \/ num_ltb num100 v = true ->
                num_or (p_scrollDepth settings) (Fin 70) = v).
  { intros v -> Hv. simpl. destruct v as [q| | |]; simpl in *; auto.
    - cases_Q; auto. destruct Hv as [Hv|Hv]; apply Qltb_true in Hv; lra.
    - destruct Hv; discriminate. }
  assert (Hvt : forall v, p_viewTime settings = Some v ->
                num_ltb v num0 = true ->
                num_or (p_viewTime settings) (Fin 3000) = v).
  { intros v -> Hv. simpl. destruct v as [q| | |]; simpl in *; auto.
    - cases_Q; auto. apply Qltb_true in Hv; lra.
    - discriminate. }
  assert (Hkeep : forall q, p_scrollDepth settings = Some (Fin q) ->
            (0 < q)%Q -> (q <= 100)%Q ->
            rule_scrollDepth r
            = if Qltb q 100 then Fin q else num100).
  { intros q Hq H0 H100. subst r. cbn [rule_scrollDepth newSettings].
    rewrite Hq, num_or_kept by lra. apply claim_kept; assumption. }
  repeat split.
  - intros [H|H]; subst r; simpl; rewrite H; reflexivity.
  - intros s H Hs. subst r; simpl. rewrite H. apply str_or_given, Hs.
  - intros H. subst r; simpl. rewrite H. reflexivity.
  - apply claim_in_percent, num_or_not_NaN. reflexivity.
  - apply claim_in_percent, num_or_not_NaN. reflexivity.
  - intros v H Hv. subst r; simpl. rewrite (Hsd v H (or_intror Hv)).
    apply claim_above, Hv.
  - intros v H Hv. subst r; simpl. rewrite (Hsd v H (or_introl Hv)).
    apply claim_below, Hv.
  - intros H. subst r; simpl. rewrite H. reflexivity.
  - intros H. subst r; simpl. rewrite H. reflexivity.
  - intros q Hq H0 H100. rewrite (Hkeep q Hq H0) by lra.
    cases_Q; [reflexivity | lra].
  - intros q Hq H0 H100. rewrite (Hkeep q Hq H0 H100). unfold num100.
    cases_Q; eexists; (split; [reflexivity|]); lra.
  - intros q Hq H0. subst r. cbn [rule_scrollDepth newSettings].
    rewrite Hq, num_or_zero by exact H0. reflexivity.
  - intros H. subst r; simpl. rewrite H. reflexivity.
  - apply floor_nonneg, num_or_not_NaN. reflexivity.
  - intros v H Hv. subst r; simpl. rewrite (Hvt v H Hv).
    apply floor_below, Hv.
  - intros H. subst r; simpl. rewrite H. reflexivity.
  - intros q Hq H0. subst r. cbn [rule_viewTime newSettings].
    rewrite Hq, num_or_kept by lra. apply floor_kept, H0.
  - intros q Hq H0. subst r. cbn [rule_viewTime newSettings].
    rewrite Hq, num_or_zero by exact H0. reflexivity.
  - intros [H|H]; subst r; unfold eventOf; simpl; rewrite H; reflexivity.
  - intros s H Hs. subst r; unfold eventOf; simpl. rewrite H.
    rewrite (str_or_given s _ Hs).
    apply str_truthy_true in Hs. rewrite Hs. reflexivity.
  - subst w'. simpl. apply jm_get_set_eq.
  - subst w'. simpl. apply jm_get_set_eq.
  - intros k Hk. subst w'. simpl. apply jm_get_set_ne, Hk.
  - intros s Hs. subst w'. simpl. apply jm_get_set_ne, Hs.
  - intros Hnew. subst w'. simpl. apply jm_keys_set_new, Hnew.
  - destruct (registered_drawn h gid jar dl trace) as [D1 _].
    rewrite <- H in D1.
    destruct (jm_get uuid (sectionVisibility w)) eqn:E; [|reflexivity].
    exfalso. apply H0, D1. rewrite E. discriminate.
  - intros s l r0 Hl Hr0 E.
    destruct (registered_drawn h gid jar dl trace) as [_ D2].
    rewrite <- H in D2. apply H0. rewrite <- E. apply (D2 s l r0 Hl Hr0).
Qed.

(** ** Dropping the last rule of a selector *)




